(** * Patch-based inference: tiling geometry and per-crop detection

    Shallow embedding of [nodes/MakeCropsDetectThem.py]: the class
    [MakeCropsDetectThem] with its constructor, [get_crops_xy] and
    [_detect_objects].

    - Python [int] is [Z]; Python [float] is IEEE-754 binary64, taken from
      the standard library's [SpecFloat] (precision 53, [emax] 1024), with
      the exceptions CPython raises written out ([ZeroDivisionError],
      [OverflowError], [ValueError]).
    - NumPy arrays live in a store of pixel buffers; an [ndarray] value is a
      window on one buffer, so basic slicing shares the buffer ([view]) and
      [copy] allocates a new one.
    - OpenCV's [cv2.resize], the detector and the class [CropElement] are
      not part of the file; they appear through their interface only.
    - matplotlib's [pyplot] and [cv2.cvtColor], called when [show] is set,
      are outside the file as well: a call returns or raises, and
      [cvtColor] allocates its result.
    - [print] writes to the standard output, which is not modelled. *)

From Stdlib Require Import ZArith List Bool Lia String.
From Stdlib Require Import Floats.SpecFloat.
From Stdlib Require Import Reals Lra.
From Stdlib Require Import QArith Qround Qfield.
Import ListNotations.
Open Scope Z_scope.

(** ** Exceptions and the result monad *)

Inductive exn : Type :=
| ZeroDivisionError
| OverflowError
| ValueError
| cv2_error
| External (code : Z).

Inductive result (A : Type) : Type :=
| Ok (a : A)
| Raise (e : exn).
Arguments Ok {A} a.
Arguments Raise {A} e.

Definition bind {A B : Type} (r : result A) (k : A -> result B) : result B :=
  match r with
  | Ok a => k a
  | Raise e => Raise e
  end.

Declare Scope py_scope.
Delimit Scope py_scope with py.
Notation "x <- r ;; k" := (bind r (fun x => k))
  (at level 61, r at next level, right associativity) : py_scope.
Open Scope py_scope.

(** ** Python floats *)

Module PyFloat.

Definition float := spec_float.

Definition prec : Z := 53.
Definition emax : Z := 1024.

(** [float(n)] for an [int]: correctly rounded, [OverflowError] when the
    integer is too large. *)
Definition of_int (n : Z) : result float :=
  match binary_normalize prec emax n 0 false with
  | S754_infinity _ => Raise OverflowError
  | f => Ok f
  end.

(** The integer [n] as an unrounded binary number. *)
Definition exact_int (n : Z) : float :=
  match n with
  | Z0 => S754_zero false
  | Zpos p => S754_finite false p 0
  | Zneg p => S754_finite true p 0
  end.

(** [a / b] on two [int]s: the correctly rounded quotient. *)
Definition int_truediv (a b : Z) : result float :=
  if b =? 0 then Raise ZeroDivisionError
  else
    match SFdiv prec emax (exact_int a) (exact_int b) with
    | S754_infinity _ => Raise OverflowError
    | f => Ok f
    end.

Definition is_zero (f : float) : bool :=
  match f with
  | S754_zero _ => true
  | _ => false
  end.

Definition mul (x y : float) : float := SFmul prec emax x y.
Definition add (x y : float) : float := SFadd prec emax x y.
Definition sub (x y : float) : float := SFsub prec emax x y.

(** [x / y] on floats raises on a zero divisor, whatever [x] is. *)
Definition div (x y : float) : result float :=
  if is_zero y then Raise ZeroDivisionError else Ok (SFdiv prec emax x y).

(** Mixed [int]/[float] arithmetic converts the [int] operand first. *)
Definition int_mul (n : Z) (y : float) : result float :=
  x <- of_int n ;; Ok (mul x y).

Definition int_sub (n : Z) (y : float) : result float :=
  x <- of_int n ;; Ok (sub x y).

Definition add_int (x : float) (n : Z) : result float :=
  y <- of_int n ;; Ok (add x y).

Definition int_div (n : Z) (y : float) : result float :=
  x <- of_int n ;; div x y.

(** Magnitude of a finite float cut to an integer (towards zero). *)
Definition trunc_mag (m : positive) (e : Z) : Z :=
  if 0 <=? e then Zpos m * 2 ^ e else Zpos m / 2 ^ (- e).

(** [int(x)]. *)
Definition to_int (x : float) : result Z :=
  match x with
  | S754_zero _ => Ok 0
  | S754_finite s m e => Ok (cond_Zopp s (trunc_mag m e))
  | S754_infinity _ => Raise OverflowError
  | S754_nan => Raise ValueError
  end.

(** Magnitude of a finite float rounded to the nearest integer, ties to
    the even one. *)
Definition round_mag (m : positive) (e : Z) : Z :=
  if 0 <=? e then Zpos m * 2 ^ e
  else
    let d := 2 ^ (- e) in
    let q := Zpos m / d in
    let r := Zpos m mod d in
    match 2 * r ?= d with
    | Lt => q
    | Gt => q + 1
    | Eq => if Z.even q then q else q + 1
    end.

(** [round(x)] with one argument. *)
Definition round (x : float) : result Z :=
  match x with
  | S754_zero _ => Ok 0
  | S754_finite s m e => Ok (cond_Zopp s (round_mag m e))
  | S754_infinity _ => Raise OverflowError
  | S754_nan => Raise ValueError
  end.

End PyFloat.

(** ** Tiling geometry of [get_crops_xy] *)

(** [range(n)]. *)
Definition range (n : Z) : list Z := map Z.of_nat (seq 0 (Z.to_nat n)).

(** [1 - (overlap / 100)] *)
Definition cross_koef (overlap : Z) : result PyFloat.float :=
  q <- PyFloat.int_truediv overlap 100 ;;
  PyFloat.int_sub 1 q.

(** [int((dim - shape) / (shape * cross_koef)) + 1] *)
Definition steps (dim shape : Z) (cross : PyFloat.float) : result Z :=
  d <- PyFloat.int_mul shape cross ;;
  q <- PyFloat.int_div (dim - shape) d ;;
  n <- PyFloat.to_int q ;;
  Ok (n + 1).

(** [round((steps-1) * (shape * cross_koef) + shape)] *)
Definition new_size (nsteps shape : Z) (cross : PyFloat.float) : result Z :=
  d <- PyFloat.int_mul shape cross ;;
  p <- PyFloat.int_mul (nsteps - 1) d ;;
  s <- PyFloat.add_int p shape ;;
  PyFloat.round s.

(** [int(shape * idx * cross_koef)] *)
Definition start (shape idx : Z) (cross : PyFloat.float) : result Z :=
  f <- PyFloat.int_mul (shape * idx) cross ;;
  PyFloat.to_int f.

(** The numbers [get_crops_xy] computes before it touches pixels. *)
Record grid : Type := {
  cross_koef_x : PyFloat.float;
  cross_koef_y : PyFloat.float;
  y_steps : Z;
  x_steps : Z;
  y_new : Z;
  x_new : Z
}.

Definition make_grid (height width shape_x shape_y overlap_x overlap_y : Z)
  : result grid :=
  ckx <- cross_koef overlap_x ;;
  cky <- cross_koef overlap_y ;;
  ys <- steps height shape_y cky ;;
  xs <- steps width shape_x ckx ;;
  yn <- new_size ys shape_y cky ;;
  xn <- new_size xs shape_x ckx ;;
  Ok {| cross_koef_x := ckx; cross_koef_y := cky;
        y_steps := ys; x_steps := xs; y_new := yn; x_new := xn |}.

(** ** NumPy arrays *)

(** An array value: a window of [n_rows] by [n_cols] pixels at offset
    ([off_r], [off_c]) in the buffer at address [base].  The channel axis,
    when there is one, is inside the pixel. *)
Record ndarray : Type := {
  base : nat;
  off_r : Z;
  off_c : Z;
  n_rows : Z;
  n_cols : Z
}.

(** Python's adjustment of [start:stop] on an axis of length [n]:
    the first index and the length of the slice. *)
Definition slice_adjust (n i : Z) : Z :=
  if i <? 0 then Z.max 0 (i + n) else Z.min i n.

Definition slice_indices (n start stop : Z) : Z * Z :=
  let a := slice_adjust n start in
  let b := slice_adjust n stop in
  (a, Z.max 0 (b - a)).

(** Basic slicing [a[r0:r1, c0:c1]]: a window on the same buffer. *)
Definition view (a : ndarray) (r0 r1 c0 c1 : Z) : ndarray :=
  let (ra, rl) := slice_indices (n_rows a) r0 r1 in
  let (ca, cl) := slice_indices (n_cols a) c0 c1 in
  {| base := base a; off_r := off_r a + ra; off_c := off_c a + ca;
     n_rows := rl; n_cols := cl |}.

Section Pixels.

Variable pixel : Type.

(** A pixel buffer: its extent and its content. *)
Record buffer : Type := {
  b_rows : Z;
  b_cols : Z;
  b_px : Z -> Z -> option pixel
}.

(** The store: buffers by address; allocation appends. *)
Definition store : Type := list buffer.

Definition in_window (a : ndarray) (r c : Z) : bool :=
  (0 <=? r) && (r <? n_rows a) && (0 <=? c) && (c <? n_cols a).

(** [a[r, c]] *)
Definition get_px (st : store) (a : ndarray) (r c : Z) : option pixel :=
  if in_window a r c then
    match nth_error st (base a) with
    | Some b => b_px b (off_r a + r) (off_c a + c)
    | None => None
    end
  else None.

Definition poke (b : buffer) (r c : Z) (v : pixel) : buffer :=
  {| b_rows := b_rows b; b_cols := b_cols b;
     b_px := fun r' c' =>
               if (r' =? r) && (c' =? c) then Some v else b_px b r' c' |}.

Fixpoint update (st : store) (n : nat) (f : buffer -> buffer) : store :=
  match st, n with
  | [], _ => []
  | b :: st', O => f b :: st'
  | b :: st', S n' => b :: update st' n' f
  end.

(** [a[r, c] = v] *)
Definition set_px (st : store) (a : ndarray) (r c : Z) (v : pixel) : store :=
  if in_window a r c then
    update st (base a) (fun b => poke b (off_r a + r) (off_c a + c) v)
  else st.

Definition alloc (st : store) (b : buffer) : ndarray * store :=
  ({| base := List.length st; off_r := 0; off_c := 0;
      n_rows := b_rows b; n_cols := b_cols b |}, st ++ [b]).

(** [a.copy()] *)
Definition np_copy (a : ndarray) (st : store) : ndarray * store :=
  alloc st {| b_rows := n_rows a; b_cols := n_cols a;
              b_px := get_px st a |}.

(** OpenCV's interpolation: from the content and extent of the source to
    the content of a destination of the given extent. *)
Variable interpolate :
  (Z -> Z -> option pixel) -> Z -> Z -> Z -> Z -> Z -> Z -> option pixel.

Definition INT_MAX : Z := 2147483647.

(** [cv2.resize(a, (width, height))]: a new array of [height] rows and
    [width] columns; an empty source or a size that is not positive (or not
    a C [int]) is refused. *)
Definition cv2_resize (a : ndarray) (width height : Z) (st : store)
  : result ndarray * store :=
  if (n_rows a <=? 0) || (n_cols a <=? 0) then (Raise cv2_error, st)
  else if (width <=? 0) || (height <=? 0)
          || (INT_MAX <? width) || (INT_MAX <? height)
  then (Raise cv2_error, st)
  else
    let (r, st') :=
      alloc st {| b_rows := height; b_cols := width;
                  b_px := interpolate (get_px st a) (n_rows a) (n_cols a)
                            height width |} in
    (Ok r, st').

(** OpenCV's conversion [COLOR_BGR2RGB]: from the content and extent of
    the source to the content of the result, or nothing for an array
    OpenCV refuses (one that does not have three channels). *)
Variable bgr2rgb :
  (Z -> Z -> option pixel) -> Z -> Z -> option (Z -> Z -> option pixel).

(** [cv2.cvtColor(a, cv2.COLOR_BGR2RGB)]: a new array of the extent of
    [a]. *)
Definition cv2_cvtColor (a : ndarray) (st : store)
  : result ndarray * store :=
  match bgr2rgb (get_px st a) (n_rows a) (n_cols a) with
  | None => (Raise cv2_error, st)
  | Some px =>
      let (r, st') :=
        alloc st {| b_rows := n_rows a; b_cols := n_cols a; b_px := px |} in
      (Ok r, st')
  end.

(** [matplotlib.pyplot], by the functions the file calls.  The figures
    are a state of pyplot's own, outside the store; a call is given the
    store, writes to no array, and returns or raises. *)
Record pyplot : Type := {
  plt_figure : PyFloat.float -> PyFloat.float -> store -> result unit;
  plt_subplot : Z -> Z -> Z -> store -> result unit;
  plt_imshow : ndarray -> store -> result unit;
  plt_axis : string -> store -> result unit;
  plt_show : store -> result unit
}.

End Pixels.

Arguments b_rows {pixel} b.
Arguments b_cols {pixel} b.
Arguments b_px {pixel} b r c.
Arguments get_px {pixel} st a r c.
Arguments set_px {pixel} st a r c v.
Arguments np_copy {pixel} a st.
Arguments cv2_resize {pixel} interpolate a width height st.
Arguments cv2_cvtColor {pixel} bgr2rgb a st.
Arguments plt_figure {pixel} p width height st.
Arguments plt_subplot {pixel} p nrows ncols index st.
Arguments plt_imshow {pixel} p a st.
Arguments plt_axis {pixel} p option st.
Arguments plt_show {pixel} p st.

(** ** Statements

    A statement runs on the store: it reads it, allocates in it, and
    returns a value or raises; the store it leaves is then the one at the
    exception. *)

Section Statements.

Variable St : Type.

Definition stmt (A : Type) : Type := St -> result A * St.

Definition ret {A : Type} (a : A) : stmt A := fun st => (Ok a, st).

(** An expression, which may raise. *)
Definition eval {A : Type} (r : result A) : stmt A := fun st => (r, st).

(** A call that reads the store. *)
Definition call {A : Type} (f : St -> result A) : stmt A :=
  fun st => (f st, st).

(** A call that allocates and does not raise. *)
Definition new {A : Type} (f : St -> A * St) : stmt A :=
  fun st => let (a, st') := f st in (Ok a, st').

Definition then_ {A B : Type} (m : stmt A) (k : A -> stmt B) : stmt B :=
  fun st =>
    match m st with
    | (Ok a, st') => k a st'
    | (Raise e, st') => (Raise e, st')
    end.

(** A [for] loop over a list; an exception leaves the loop. *)
Fixpoint for_each {S : Type} (l : list Z) (body : Z -> S -> stmt S) (s : S)
  : stmt S :=
  match l with
  | [] => ret s
  | i :: l' => then_ (body i s) (for_each l' body)
  end.

End Statements.

Arguments ret {St A} a st.
Arguments eval {St A} r st.
Arguments call {St A} f st.
Arguments new {St A} f st.
Arguments then_ {St A B} m k st.
Arguments for_each {St S} l body s st.

Notation "x <~ m ;; k" := (then_ m (fun x => k))
  (at level 61, m at next level, right associativity) : py_scope.
Notation "m ;;; k" := (then_ m (fun _ => k))
  (at level 61, right associativity) : py_scope.

(** ** [CropElement] *)

(** The class is defined in [elements/CropElement.py]; here it is the record
    of the keyword arguments its constructor is called with. *)
Record CropElement : Type := {
  source_image : ndarray;
  source_image_resized : ndarray;
  crop : ndarray;
  number_of_crop : Z;
  x_start : Z;
  y_start : Z
}.

(** ** [get_crops_xy] *)

(** Loop state: [count] and [data_all_crops]. *)
Definition loop_state : Type := (Z * list CropElement)%type.

(** 0.9 *)
Definition nine_tenths : PyFloat.float :=
  S754_finite false 8106479329266893 (-53).

Section GetCrops.

Variable pixel : Type.
Variable interpolate :
  (Z -> Z -> option pixel) -> Z -> Z -> Z -> Z -> Z -> Z -> option pixel.
Variable bgr2rgb :
  (Z -> Z -> option pixel) -> Z -> Z -> option (Z -> Z -> option pixel).
Variable plt : pyplot pixel.

(** The statements under [if show:] in the body of the loops. *)
Definition show_crop (g : grid) (i j : Z) (im_temp : ndarray)
  : stmt (store pixel) unit :=
  call (plt_subplot plt (y_steps g) (x_steps g) (i * x_steps g + j + 1)) ;;;
  c <~ new (np_copy im_temp) ;;
  rgb <~ cv2_cvtColor bgr2rgb c ;;
  call (plt_imshow plt rgb) ;;;
  call (plt_axis plt "off").

(** Body of the inner loop. *)
Definition inner_body (show : bool) (image_innitial image_full : ndarray)
    (shape_x shape_y : Z) (g : grid) (i j : Z) (s : loop_state)
  : stmt (store pixel) loop_state :=
  xs <~ eval (start shape_x j (cross_koef_x g)) ;;
  ys <~ eval (start shape_y i (cross_koef_y g)) ;;
  if n_cols image_full <? xs + shape_x then ret s
  else if n_rows image_full <? ys + shape_y then ret s
  else
    let im_temp := view image_full ys (ys + shape_y) xs (xs + shape_x) in
    (if show then show_crop g i j im_temp else ret tt) ;;;
    let count := fst s + 1 in
    ret (count,
         snd s ++ [{| source_image := image_innitial;
                      source_image_resized := image_full;
                      crop := im_temp;
                      number_of_crop := count;
                      x_start := xs;
                      y_start := ys |}]).

Definition crop_loop (show : bool) (image_innitial image_full : ndarray)
    (shape_x shape_y : Z) (g : grid) : stmt (store pixel) loop_state :=
  for_each (range (y_steps g))
    (fun i s =>
       for_each (range (x_steps g))
         (inner_body show image_innitial image_full shape_x shape_y g i) s)
    (0, []).

Definition get_crops_xy (image_full : ndarray)
    (shape_x shape_y overlap_x overlap_y : Z) (show : bool)
  : stmt (store pixel) (list CropElement) :=
  g <~ eval (make_grid (n_rows image_full) (n_cols image_full)
               shape_x shape_y overlap_x overlap_y) ;;
  image_innitial <~ new (np_copy image_full) ;;
  image_resized <~ cv2_resize interpolate image_full (x_new g) (y_new g) ;;
  (if show then
     width <~ eval (PyFloat.int_mul (x_steps g) nine_tenths) ;;
     height <~ eval (PyFloat.int_mul (y_steps g) nine_tenths) ;;
     call (plt_figure plt width height)
   else ret tt) ;;;
  s <~ crop_loop show image_innitial image_resized shape_x shape_y g ;;
  (if show then call (plt_show plt) else ret tt) ;;;
  ret (snd s).

End GetCrops.

Arguments show_crop {pixel} bgr2rgb plt g i j im_temp st.
Arguments inner_body {pixel} bgr2rgb plt show image_innitial image_full
  shape_x shape_y g i j s st.
Arguments crop_loop {pixel} bgr2rgb plt show image_innitial image_full
  shape_x shape_y g st.
Arguments get_crops_xy {pixel} interpolate bgr2rgb plt image_full
  shape_x shape_y overlap_x overlap_y show st.

(** ** The class [MakeCropsDetectThem] *)

(** Calls of [CropElement] methods, by the crop's [number_of_crop]. *)
Inductive event : Type :=
| Inference (n : Z)
| RealValues (n : Z)
| ResizeResults (n : Z).

(** In [ev], some occurrence of [b] comes after an occurrence of [a]. *)
Definition before (a b : event) (ev : list event) : Prop :=
  exists l1 l2, ev = l1 ++ b :: l2 /\ In a l1.

Section Detector.

Variable pixel : Type.
Variable interpolate :
  (Z -> Z -> option pixel) -> Z -> Z -> Z -> Z -> Z -> Z -> option pixel.
Variable bgr2rgb :
  (Z -> Z -> option pixel) -> Z -> Z -> option (Z -> Z -> option pixel).
Variable plt : pyplot pixel.

(** The detector: [ultralytics.YOLO] and the table [names] of a model. *)
Variables Model ClassNames : Type.
Variable YOLO : string -> result Model.
Variable names : Model -> ClassNames.

(** What a [CropElement] holds besides the arguments of its constructor,
    its value in a new object, and the three methods [_detect_objects]
    calls; a method reads the pixels, updates these attributes or raises. *)
Variable Detections : Type.
Variable no_detections : Detections.
Variable calculate_inference :
  Model -> Z -> PyFloat.float -> PyFloat.float -> bool ->
  store pixel -> CropElement -> Detections -> result Detections.
Variable calculate_real_values :
  store pixel -> CropElement -> Detections -> result Detections.
Variable CropElement_resize_results :
  store pixel -> CropElement -> Detections -> result Detections.

Definition crop_object : Type := (CropElement * Detections)%type.

Record MakeCropsDetectThem : Type := {
  model : Model;
  image : ndarray;
  imgsz : Z;
  conf : PyFloat.float;
  iou : PyFloat.float;
  segment : bool;
  shape_x : Z;
  shape_y : Z;
  overlap_x : Z;
  overlap_y : Z;
  crops : list crop_object;
  show_crops : bool;
  resize_results : bool;
  class_names_dict : ClassNames
}.

Definition set_crops (self : MakeCropsDetectThem) (cs : list crop_object)
  : MakeCropsDetectThem :=
  {| model := model self; image := image self; imgsz := imgsz self;
     conf := conf self; iou := iou self; segment := segment self;
     shape_x := shape_x self; shape_y := shape_y self;
     overlap_x := overlap_x self; overlap_y := overlap_y self;
     crops := cs; show_crops := show_crops self;
     resize_results := resize_results self;
     class_names_dict := class_names_dict self |}.

(** Outcome of a piece of the loop: the objects as it leaves them, the
    method calls it made, and the exception that ended it, if any. *)
Definition outcome (A : Type) : Type := (A * list event * option exn)%type.

(** Body of the loop of [_detect_objects] on one crop. *)
Definition detect_crop (self : MakeCropsDetectThem) (st : store pixel)
    (c : crop_object) : outcome crop_object :=
  let (ce, d) := c in
  let n := number_of_crop ce in
  match calculate_inference (model self) (imgsz self) (conf self)
          (iou self) (segment self) st ce d with
  | Raise e => ((ce, d), [Inference n], Some e)
  | Ok d1 =>
      match calculate_real_values st ce d1 with
      | Raise e => ((ce, d1), [Inference n; RealValues n], Some e)
      | Ok d2 =>
          if resize_results self then
            match CropElement_resize_results st ce d2 with
            | Raise e =>
                ((ce, d2),
                 [Inference n; RealValues n; ResizeResults n], Some e)
            | Ok d3 =>
                ((ce, d3),
                 [Inference n; RealValues n; ResizeResults n], None)
            end
          else ((ce, d2), [Inference n; RealValues n], None)
      end
  end.

(** What the methods did to a crop that went through the whole body. *)
Definition processed (self : MakeCropsDetectThem) (st : store pixel)
    (c c' : crop_object) : Prop :=
  fst c' = fst c /\
  exists d1 d2,
    calculate_inference (model self) (imgsz self) (conf self) (iou self)
      (segment self) st (fst c) (snd c) = Ok d1 /\
    calculate_real_values st (fst c) d1 = Ok d2 /\
    if resize_results self
    then CropElement_resize_results st (fst c) d2 = Ok (snd c')
    else snd c' = d2.

(** [for crop in self.crops: ...]; an exception leaves the loop. *)
Fixpoint detect_loop (self : MakeCropsDetectThem) (st : store pixel)
    (cs : list crop_object) : outcome (list crop_object) :=
  match cs with
  | [] => ([], [], None)
  | c :: rest =>
      match detect_crop self st c with
      | (c', ev, Some e) => (c' :: rest, ev, Some e)
      | (c', ev, None) =>
          match detect_loop self st rest with
          | (rest', ev', r) => (c' :: rest', ev ++ ev', r)
          end
      end
  end.

Definition _detect_objects (self : MakeCropsDetectThem) (st : store pixel)
  : outcome MakeCropsDetectThem :=
  match detect_loop self st (crops self) with
  | (cs, ev, r) => (set_crops self cs, ev, r)
  end.

(** The constructor; with the new object or the exception it gives the
    store and the method calls made. *)
Definition __init__ (image : ndarray) (model_path : string) (imgsz : Z)
    (conf iou : PyFloat.float) (segment : bool)
    (shape_x shape_y overlap_x overlap_y : Z)
    (show_crops resize_results : bool) (st : store pixel)
  : result MakeCropsDetectThem * store pixel * list event :=
  match YOLO model_path with
  | Raise e => (Raise e, st, [])
  | Ok m =>
      match get_crops_xy interpolate bgr2rgb plt image
              shape_x shape_y overlap_x overlap_y show_crops st with
      | (Raise e, st') => (Raise e, st', [])
      | (Ok cs, st') =>
          let self :=
            {| model := m; image := image; imgsz := imgsz; conf := conf;
               iou := iou; segment := segment;
               shape_x := shape_x; shape_y := shape_y;
               overlap_x := overlap_x; overlap_y := overlap_y;
               crops := map (fun c => (c, no_detections)) cs;
               show_crops := show_crops; resize_results := resize_results;
               class_names_dict := names m |} in
          match _detect_objects self st' with
          | (self', ev, Some e) => (Raise e, st', ev)
          | (self', ev, None) => (Ok self', st', ev)
          end
      end
  end.

End Detector.

Arguments model {Model ClassNames Detections} m.
Arguments image {Model ClassNames Detections} m.
Arguments imgsz {Model ClassNames Detections} m.
Arguments conf {Model ClassNames Detections} m.
Arguments iou {Model ClassNames Detections} m.
Arguments segment {Model ClassNames Detections} m.
Arguments shape_x {Model ClassNames Detections} m.
Arguments shape_y {Model ClassNames Detections} m.
Arguments overlap_x {Model ClassNames Detections} m.
Arguments overlap_y {Model ClassNames Detections} m.
Arguments crops {Model ClassNames Detections} m.
Arguments show_crops {Model ClassNames Detections} m.
Arguments resize_results {Model ClassNames Detections} m.
Arguments class_names_dict {Model ClassNames Detections} m.
Arguments set_crops {Model ClassNames Detections} self cs.
Arguments detect_crop {pixel Model ClassNames Detections}
  calculate_inference calculate_real_values CropElement_resize_results
  self st c.
Arguments processed {pixel Model ClassNames Detections}
  calculate_inference calculate_real_values CropElement_resize_results
  self st c c'.
Arguments detect_loop {pixel Model ClassNames Detections}
  calculate_inference calculate_real_values CropElement_resize_results
  self st cs.
Arguments _detect_objects {pixel Model ClassNames Detections}
  calculate_inference calculate_real_values CropElement_resize_results
  self st.
Arguments __init__ {pixel} interpolate bgr2rgb plt {Model ClassNames}
  YOLO names {Detections} no_detections
  calculate_inference calculate_real_values CropElement_resize_results
  image model_path imgsz conf iou segment
  shape_x shape_y overlap_x overlap_y show_crops resize_results st.

(** * Notions used in the proofs *)

(** ** Binary64 rounding *)

(** [m * 2 ^ e] is [M * 2 ^ e0] or [(M + 1) * 2 ^ e0]. *)
Definition rounded (M e0 m e : Z) : Prop :=
  (e = e0 /\ (m = M \/ m = M + 1)) \/
  (e = e0 + 1 /\ m = 2 ^ 52 /\ M + 1 = 2 ^ 53).

(** Magnitude of a float as a real number. *)
Definition mag (x : spec_float) : R :=
  match x with
  | S754_finite _ m e => (IZR (Zpos m) * powerRZ 2 e)%R
  | _ => 0%R
  end.

(** A normal binary64 number of sign [s]. *)
Definition fin (s : bool) (x : spec_float) : Prop :=
  exists m e, x = S754_finite s m e /\
              2 ^ 52 <= Zpos m < 2 ^ 53 /\ -1074 <= e <= 971.

(** Relative error of one rounding (one unit in the last place). *)
Definition u : R := (/ 4503599627370496)%R.

(** Magnitudes the analysis stays within. *)
Definition big : R := 1152921504606846976%R.

(** ** The step multiplier *)

(** The multiplier of an overlap is a normal number from 1/128 to 1. *)
Definition cross_koef_ok (o : Z) : bool :=
  match cross_koef o with
  | Ok (S754_finite false m e) =>
      (2 ^ 52 <=? Zpos m) && (Zpos m <? 2 ^ 53) &&
      (-59 <=? e) && (e <=? -52) && (Zpos m * 2 ^ (e + 59) <=? 2 ^ 59)
  | _ => false
  end.

(** 1.0, the multiplier of an overlap of 0. *)
Definition one : spec_float := S754_finite false 4503599627370496 (-52).

(** The multiplier of an overlap is 1.0, for an overlap of 0, or at most
    127/128. *)
Definition cross_koef_gap_ok (o : Z) : bool :=
  match cross_koef o with
  | Ok (S754_finite false m e) =>
      if o =? 0 then (Zpos m =? 2 ^ 52) && (e =? -52)
      else (-59 <=? e) && (Zpos m * 2 ^ (e + 59) * 128 <=? 127 * 2 ^ 59)
  | _ => false
  end.

(** The multiplier of an overlap differs from [(100 - overlap) / 100] by
    2 ^ -53 at most. *)
Definition cross_koef_near_ok (o : Z) : bool :=
  match cross_koef o with
  | Ok (S754_finite false m e) =>
      (-59 <=? e) &&
      (Z.abs (100 * (Zpos m * 2 ^ (e + 59)) - (100 - o) * 2 ^ 59) <=? 6400)
  | _ => false
  end.

(** ** The step count as the specification words it *)

(** [cross = 1 - overlap / 100] and
    [steps = floor((dim - shape) / (shape * cross)) + 1], over the rational
    numbers. *)
Definition spec_cross (overlap : Z) : Q := (1 - inject_Z overlap / 100)%Q.

Definition spec_quotient (dim shape overlap : Z) : Q :=
  (inject_Z (dim - shape) / (inject_Z shape * spec_cross overlap))%Q.

Definition spec_steps (dim shape overlap : Z) : Z :=
  Qfloor (spec_quotient dim shape overlap) + 1.

(** The quotient of the formula is a whole number. *)
Definition spec_whole (dim shape overlap : Z) : Prop :=
  (inject_Z (Qfloor (spec_quotient dim shape overlap))
   == spec_quotient dim shape overlap)%Q.

(** A float that is not negative: what [int()] maps to a natural number
    or refuses. *)
Definition nonneg (x : spec_float) : Prop :=
  match x with
  | S754_finite s _ _ => s = false
  | _ => True
  end.

(** ** The loops of [get_crops_xy] read as a function

    What the loops do to [count] and [data_all_crops], with the store left
    out.  [crop_loop_quiet] proves that [crop_loop] run with [show] unset is
    [tile_loop], and [crop_loop_run] that with [show] set it returns what
    [tile_loop] returns, allocates two arrays per record, or raises an
    exception of the display. *)

(** A [for] loop over a list whose body may raise and leaves the store
    alone. *)
Fixpoint for_ {S : Type} (l : list Z) (body : Z -> S -> result S) (s : S)
  : result S :=
  match l with
  | [] => Ok s
  | i :: l' => s' <- body i s ;; for_ l' body s'
  end.

(** The body of the inner loop. *)
Definition tile_body (image_innitial image_full : ndarray)
    (shape_x shape_y : Z) (ckx cky : PyFloat.float) (i j : Z)
    (st : loop_state) : result loop_state :=
  xs <- start shape_x j ckx ;;
  ys <- start shape_y i cky ;;
  if n_cols image_full <? xs + shape_x then Ok st
  else if n_rows image_full <? ys + shape_y then Ok st
  else
    let im_temp := view image_full ys (ys + shape_y) xs (xs + shape_x) in
    let count := fst st + 1 in
    Ok (count,
        snd st ++ [{| source_image := image_innitial;
                      source_image_resized := image_full;
                      crop := im_temp;
                      number_of_crop := count;
                      x_start := xs;
                      y_start := ys |}]).

(** Both loops. *)
Definition tile_loop (image_innitial image_full : ndarray)
    (shape_x shape_y : Z) (g : grid) : result loop_state :=
  for_ (range (y_steps g))
    (fun i st =>
       for_ (range (x_steps g))
         (tile_body image_innitial image_full shape_x shape_y
            (cross_koef_x g) (cross_koef_y g) i) st)
    (0, []).

(** The origin [start] computes, or 0 when it raises. *)
Definition start_of (shape idx : Z) (cross : PyFloat.float) : Z :=
  match start shape idx cross with
  | Ok v => v
  | Raise _ => 0
  end.

(** The record appended for cell ([i], [j]) when it is number [n]. *)
Definition crop_at (image_innitial image_full : ndarray)
    (shape_x shape_y : Z) (g : grid) (n i j : Z) : CropElement :=
  let xs := start_of shape_x j (cross_koef_x g) in
  let ys := start_of shape_y i (cross_koef_y g) in
  {| source_image := image_innitial;
     source_image_resized := image_full;
     crop := view image_full ys (ys + shape_y) xs (xs + shape_x);
     number_of_crop := n;
     x_start := xs;
     y_start := ys |}.

Definition row_at (image_innitial image_full : ndarray)
    (shape_x shape_y : Z) (g : grid) (i : Z) : list CropElement :=
  map (fun j => crop_at image_innitial image_full shape_x shape_y g
                  (i * x_steps g + j + 1) i j)
      (range (x_steps g)).

(** Every cell of the grid, row by row. *)
Definition all_cells (image_innitial image_full : ndarray)
    (shape_x shape_y : Z) (g : grid) : list CropElement :=
  flat_map (row_at image_innitial image_full shape_x shape_y g)
           (range (y_steps g)).

(** Every cell of the grid has an origin and lies on the canvas. *)
Definition cells_fit (canvas : ndarray) (shape_x shape_y : Z) (g : grid)
  : Prop :=
  (forall j, 0 <= j < x_steps g ->
     exists xs, start shape_x j (cross_koef_x g) = Ok xs /\
                xs + shape_x <= n_cols canvas) /\
  (forall i, 0 <= i < y_steps g ->
     exists ys, start shape_y i (cross_koef_y g) = Ok ys /\
                ys + shape_y <= n_rows canvas).

(** A record cut from [canvas] by the loop body. *)
Definition placed (image_innitial canvas : ndarray) (shape_x shape_y : Z)
    (c : CropElement) : Prop :=
  source_image c = image_innitial /\
  source_image_resized c = canvas /\
  crop c = view canvas (y_start c) (y_start c + shape_y)
                       (x_start c) (x_start c + shape_x) /\
  x_start c + shape_x <= n_cols canvas /\
  y_start c + shape_y <= n_rows canvas.

(** [count] is the number of records and the records are numbered
    1, 2, ... in the order they were appended. *)
Definition numbered (st : loop_state) : Prop :=
  fst st = Z.of_nat (List.length (snd st)) /\
  map number_of_crop (snd st) = map (fun n => n + 1) (range (fst st)).

(** ** The arrays [get_crops_xy] allocates *)

Section Allocated.

Variable pixel : Type.
Variable interpolate :
  (Z -> Z -> option pixel) -> Z -> Z -> Z -> Z -> Z -> Z -> option pixel.

(** [image_full.copy()] *)
Definition copy_of (img : ndarray) (st : store pixel) : ndarray :=
  {| base := List.length st; off_r := 0; off_c := 0;
     n_rows := n_rows img; n_cols := n_cols img |}.

(** The resized image. *)
Definition canvas_of (g : grid) (st : store pixel) : ndarray :=
  {| base := S (List.length st); off_r := 0; off_c := 0;
     n_rows := y_new g; n_cols := x_new g |}.

(** The store once both are allocated. *)
Definition store_after (img : ndarray) (g : grid) (st : store pixel)
  : store pixel :=
  let st1 := st ++ [{| b_rows := n_rows img; b_cols := n_cols img;
                       b_px := get_px st img |}] in
  st1 ++ [{| b_rows := y_new g; b_cols := x_new g;
             b_px := interpolate (get_px st1 img)
                       (n_rows img) (n_cols img) (y_new g) (x_new g) |}].

End Allocated.

(** ** A small concrete setting *)

(** Nearest-neighbour sampling, standing for the interpolation. *)
Definition nearest (src : Z -> Z -> option Z) (src_rows src_cols rows cols : Z)
  : Z -> Z -> option Z :=
  fun r c => src (r * src_rows / rows) (c * src_cols / cols).

(** A display for examples: pyplot accepts every call, and the conversion
    keeps the content. *)
Definition toy_plt : pyplot Z :=
  {| plt_figure := fun _ _ _ => Ok tt;
     plt_subplot := fun _ _ _ _ => Ok tt;
     plt_imshow := fun _ _ => Ok tt;
     plt_axis := fun _ _ => Ok tt;
     plt_show := fun _ => Ok tt |}.

Definition toy_bgr2rgb (src : Z -> Z -> option Z) (rows cols : Z)
  : option (Z -> Z -> option Z) := Some src.

(** The conversion on an image without colour channels: OpenCV refuses
    it. *)
Definition gray_bgr2rgb (src : Z -> Z -> option Z) (rows cols : Z)
  : option (Z -> Z -> option Z) := None.

(** An image of [h] by [w] pixels, all 0, alone in the store. *)
Definition blank (h w : Z) : store Z :=
  [{| b_rows := h; b_cols := w; b_px := fun _ _ => Some 0 |}].

Definition whole (h w : Z) : ndarray :=
  {| base := 0; off_r := 0; off_c := 0; n_rows := h; n_cols := w |}.

(** The records of a call, or none when it raises. *)
Definition crops_of (r : result (list CropElement) * store Z)
  : list CropElement :=
  match fst r with
  | Ok cs => cs
  | Raise _ => []
  end.

Definition origins (cs : list CropElement) : list (Z * Z) :=
  map (fun c => (x_start c, y_start c)) cs.

(** The grid of a 1000 by 1000 image, 500 by 500 tiles, no overlap. *)
Definition grid_1000_500 : grid :=
  {| cross_koef_x := S754_finite false 4503599627370496 (-52);
     cross_koef_y := S754_finite false 4503599627370496 (-52);
     y_steps := 2; x_steps := 2; y_new := 1000; x_new := 1000 |}.

(** The grid of a 100 by 100 image, 700 by 700 tiles, no overlap. *)
Definition grid_100_700 : grid :=
  {| cross_koef_x := S754_finite false 4503599627370496 (-52);
     cross_koef_y := S754_finite false 4503599627370496 (-52);
     y_steps := 1; x_steps := 1; y_new := 700; x_new := 700 |}.

(** A detector for examples: a model without content, records that log the
    methods applied to them (1 inference, 2 real values, 3 resize), and an
    inference that raises on the crop numbered [bad]. *)
Definition toy_YOLO (path : string) : result unit := Ok tt.

Definition toy_names (m : unit) : unit := tt.

Definition toy_inference (bad : Z) (m : unit) (imgsz : Z)
    (conf iou : PyFloat.float) (segment : bool) (st : store Z)
    (c : CropElement) (d : list Z) : result (list Z) :=
  if number_of_crop c =? bad then Raise (External bad) else Ok (d ++ [1]).

Definition toy_real_values (st : store Z) (c : CropElement) (d : list Z)
  : result (list Z) := Ok (d ++ [2]).

Definition toy_resize (st : store Z) (c : CropElement) (d : list Z)
  : result (list Z) := Ok (d ++ [3]).

(** 0.5 and 0.7 *)
Definition conf_default : PyFloat.float :=
  S754_finite false 4503599627370496 (-53).

Definition iou_default : PyFloat.float :=
  S754_finite false 6305039478318694 (-53).


(** The exceptions Python's arithmetic raises. *)
Definition arithmetic_error (e : exn) : Prop :=
  e = ZeroDivisionError \/ e = OverflowError \/ e = ValueError.

(** An exception that a call of pyplot raises. *)
Definition pyplot_raises {pixel : Type} (plt : pyplot pixel) (e : exn)
  : Prop :=
  (exists w h st, plt_figure plt w h st = Raise e) \/
  (exists r c k st, plt_subplot plt r c k st = Raise e) \/
  (exists a st, plt_imshow plt a st = Raise e) \/
  (exists o st, plt_axis plt o st = Raise e) \/
  (exists st, plt_show plt st = Raise e).

(** The object as the constructor has it when it calls [_detect_objects],
    with the toy detector, and the store at that point. *)
Definition toy_store (img : ndarray) (shape_x shape_y overlap_x overlap_y : Z)
    (st : store Z) : store Z :=
  snd (get_crops_xy nearest toy_bgr2rgb toy_plt img
         shape_x shape_y overlap_x overlap_y false st).

Definition toy_self (img : ndarray) (shape_x shape_y overlap_x overlap_y : Z)
    (resize_results : bool) (st : store Z)
  : MakeCropsDetectThem unit unit (list Z) :=
  {| model := tt; image := img; imgsz := 640; conf := conf_default;
     iou := iou_default; segment := false;
     shape_x := shape_x; shape_y := shape_y;
     overlap_x := overlap_x; overlap_y := overlap_y;
     crops := map (fun c => (c, []))
                (crops_of (get_crops_xy nearest toy_bgr2rgb toy_plt img
                             shape_x shape_y overlap_x overlap_y false st));
     show_crops := false; resize_results := resize_results;
     class_names_dict := tt |}.


(** Crop [n] of a 2 by 6 image cut in three 2 by 2 tiles, with the methods
    logged in it. *)
Definition toy_crop (n : Z) (log : list Z) : crop_object (list Z) :=
  ({| source_image :=
        {| base := 1; off_r := 0; off_c := 0; n_rows := 2; n_cols := 6 |};
      source_image_resized :=
        {| base := 2; off_r := 0; off_c := 0; n_rows := 2; n_cols := 6 |};
      crop :=
        {| base := 2; off_r := 0; off_c := 2 * (n - 1);
           n_rows := 2; n_cols := 2 |};
      number_of_crop := n;
      x_start := 2 * (n - 1);
      y_start := 0 |}, log).

(** ** Traces of [_detect_objects] *)

(** The calls made on crop [n] when no method raises. *)
Definition calls_of (flag : bool) (n : Z) : list event :=
  [Inference n; RealValues n] ++ (if flag then [ResizeResults n] else []).

(** The calls of a run that goes through the crops [cs]. *)
Definition calls_on {D : Type} (flag : bool) (cs : list (CropElement * D))
  : list event :=
  flat_map (fun c => calls_of flag (number_of_crop (fst c))) cs.

(** An inference for examples that raises on no crop. *)
Definition toy_inference_ok (m : unit) (imgsz : Z)
    (conf iou : PyFloat.float) (segment : bool) (st : store Z)
    (c : CropElement) (d : list Z) : result (list Z) :=
  Ok (d ++ [1]).

(** ** Binary64 rounding: the integer side *)

Section Rounding.

Local Abbreviation digits p := (Zpos (digits2_pos p)).

Lemma digits2_bounds (p : positive) :
  2 ^ (digits p - 1) <= Zpos p < 2 ^ digits p.
Proof.
  induction p as [p IH | p IH |]; cbn [digits2_pos].
  - rewrite Pos2Z.inj_succ.
    replace (Z.succ (digits p) - 1) with (Z.succ (digits p - 1)) by lia.
    rewrite !Z.pow_succ_r by lia. lia.
  - rewrite Pos2Z.inj_succ.
    replace (Z.succ (digits p) - 1) with (Z.succ (digits p - 1)) by lia.
    rewrite !Z.pow_succ_r by lia. lia.
  - simpl. lia.
Qed.

Lemma digits2_unique (p : positive) (d : Z) :
  2 ^ (d - 1) <= Zpos p < 2 ^ d -> digits p = d.
Proof.
  intros [Hlo Hhi]. pose proof (digits2_bounds p) as [Blo Bhi].
  assert (0 < d). { destruct (Z_lt_le_dec 0 d) as [|Hd]; [assumption|].
    assert (2 ^ d <= 2 ^ 0) by (apply Z.pow_le_mono_r; lia). simpl in *. lia. }
  destruct (Z.lt_trichotomy (digits p) d) as [Hlt | [Heq | Hgt]]; [|exact Heq|].
  - assert (2 ^ digits p <= 2 ^ (d - 1)) by (apply Z.pow_le_mono_r; lia). lia.
  - assert (2 ^ d <= 2 ^ (digits p - 1)) by (apply Z.pow_le_mono_r; lia). lia.
Qed.

Lemma shr_1_m (r : shr_record) :
  0 <= shr_m r -> shr_m (shr_1 r) = shr_m r / 2.
Proof.
  destruct r as [m r s]. cbn [shr_m]. intros Hm.
  destruct m as [|[p|p|]|p]; cbn [shr_1 shr_m].
  - reflexivity.
  - apply Z.div_unique with (r := 1); lia.
  - apply Z.div_unique with (r := 0); lia.
  - reflexivity.
  - lia.
Qed.

Lemma pow2_xO (p : positive) : 2 ^ Zpos p~0 = 2 ^ Zpos p * 2 ^ Zpos p.
Proof.
  replace (Zpos p~0) with (Zpos p + Zpos p) by lia.
  apply Z.pow_add_r; lia.
Qed.

Lemma pow2_xI (p : positive) : 2 ^ Zpos p~1 = 2 * (2 ^ Zpos p * 2 ^ Zpos p).
Proof.
  replace (Zpos p~1) with (1 + (Zpos p + Zpos p)) by lia.
  rewrite Z.pow_add_r, Z.pow_add_r by lia. reflexivity.
Qed.

Lemma iter_shr_1_m (p : positive) (r : shr_record) :
  0 <= shr_m r ->
  shr_m (SpecFloat.iter_pos shr_1 p r) = shr_m r / 2 ^ Zpos p.
Proof.
  revert r.
  assert (Hpos : forall q : positive, 0 < 2 ^ Zpos q)
    by (intros q; apply Z.pow_pos_nonneg; lia).
  induction p as [p IH | p IH |]; intros r Hr; cbn [SpecFloat.iter_pos].
  - specialize (Hpos p).
    assert (H1 : 0 <= shr_m (shr_1 r)).
    { rewrite shr_1_m by assumption. apply Z.div_pos; lia. }
    assert (H2 : 0 <= shr_m (SpecFloat.iter_pos shr_1 p (shr_1 r))).
    { rewrite IH by assumption. apply Z.div_pos; lia. }
    rewrite IH, IH, shr_1_m by assumption.
    rewrite pow2_xI, !Z.div_div by lia. reflexivity.
  - specialize (Hpos p).
    assert (H2 : 0 <= shr_m (SpecFloat.iter_pos shr_1 p r)).
    { rewrite IH by assumption. apply Z.div_pos; lia. }
    rewrite IH, IH by assumption.
    rewrite pow2_xO, !Z.div_div by lia. reflexivity.
  - rewrite shr_1_m by assumption. reflexivity.
Qed.

Lemma shr_m_of_loc (m : Z) (l : location) : shr_m (shr_record_of_loc m l) = m.
Proof. destruct l as [|[| |]]; reflexivity. Qed.

(** The mantissa after [shr]: the low [n] bits are cut. *)
Lemma shr_m_shr (r : shr_record) (e n : Z) :
  0 <= shr_m r -> 0 <= n ->
  shr_m (fst (shr r e n)) = shr_m r / 2 ^ n /\ snd (shr r e n) = e + n.
Proof.
  intros Hr Hn. destruct n as [|p|p]; cbn [shr fst snd].
  - rewrite Z.div_1_r. lia.
  - rewrite iter_shr_1_m by assumption. lia.
  - lia.
Qed.

Lemma round_nearest_even_cases (m : Z) (l : location) :
  round_nearest_even m l = m \/ round_nearest_even m l = m + 1.
Proof.
  destruct l as [|[| |]]; cbn [round_nearest_even]; auto.
  destruct (Z.even m); auto.
Qed.

Lemma fexp_eq (x : Z) : fexp 53 1024 x = Z.max (x - 53) (-1074).
Proof. reflexivity. Qed.

Lemma shr_fexp_normal (mx : positive) (ex : Z) (lx : location) :
  53 <= digits mx ->
  -1074 <= ex + (digits mx - 53) ->
  let r := shr_fexp 53 1024 (Zpos mx) ex lx in
  shr_m (fst r) = Zpos mx / 2 ^ (digits mx - 53) /\
  snd r = ex + (digits mx - 53).
Proof.
  intros Hd He r. subst r. unfold shr_fexp. cbn [Zdigits2].
  rewrite fexp_eq.
  replace (Z.max (digits mx + ex - 53) (-1074) - ex) with (digits mx - 53)
    by lia.
  pose proof (shr_m_shr (shr_record_of_loc (Zpos mx) lx) ex
                (digits mx - 53)) as H.
  rewrite shr_m_of_loc in H. apply H; lia.
Qed.

Lemma cut_normal (mx : positive) :
  53 <= digits mx ->
  2 ^ 52 <= Zpos mx / 2 ^ (digits mx - 53) < 2 ^ 53.
Proof.
  intros Hd. pose proof (digits2_bounds mx) as [Hlo Hhi].
  assert (Hn : 0 < 2 ^ (digits mx - 53)) by (apply Z.pow_pos_nonneg; lia).
  assert (E1 : 2 ^ (digits mx - 1) = 2 ^ 52 * 2 ^ (digits mx - 53)).
  { rewrite <- Z.pow_add_r by lia. f_equal. lia. }
  assert (E2 : 2 ^ digits mx = 2 ^ 53 * 2 ^ (digits mx - 53)).
  { rewrite <- Z.pow_add_r by lia. f_equal. lia. }
  split.
  - apply Z.div_le_lower_bound; lia.
  - apply Z.div_lt_upper_bound; lia.
Qed.

Lemma binary_round_aux_normal (s : bool) (mx : positive) (ex : Z)
    (lx : location) :
  53 <= digits mx ->
  -1074 <= ex + (digits mx - 53) <= 970 ->
  exists m e,
    binary_round_aux 53 1024 s (Zpos mx) ex lx = S754_finite s m e /\
    2 ^ 52 <= Zpos m < 2 ^ 53 /\ -1074 <= e <= 971 /\
    rounded (Zpos mx / 2 ^ (digits mx - 53)) (ex + (digits mx - 53))
      (Zpos m) e.
Proof.
  intros Hd He. unfold binary_round_aux.
  pose proof (shr_fexp_normal mx ex lx Hd (proj1 He)) as [Hm He'].
  destruct (shr_fexp 53 1024 (Zpos mx) ex lx) as [mrs' e'].
  cbn [fst snd] in Hm, He'.
  pose proof (cut_normal mx Hd) as HM.
  set (M := Zpos mx / 2 ^ (digits mx - 53)) in *.
  set (e0 := ex + (digits mx - 53)) in *.
  pose proof (round_nearest_even_cases (shr_m mrs')
                (loc_of_shr_record mrs')) as Hr.
  remember (round_nearest_even (shr_m mrs') (loc_of_shr_record mrs')) as m2.
  rewrite Hm in Hr.
  clear Heqm2 Hm mrs'. subst e'.
  destruct m2 as [|p2|p2]; try lia.
  destruct (Z_lt_le_dec (Zpos p2) (2 ^ 53)) as [Hlt | Hge].
  - (* no carry *)
    assert (Hdig : digits p2 = 53) by (apply digits2_unique; lia).
    unfold shr_fexp. cbn [Zdigits2]. rewrite Hdig, fexp_eq.
    replace (Z.max (53 + e0 - 53) (-1074) - e0) with 0 by lia.
    cbn [shr shr_record_of_loc shr_m].
    replace (e0 <=? 1024 - 53) with true by (symmetry; apply Z.leb_le; lia).
    exists p2, e0. split; [reflexivity|]. split; [lia|]. split; [lia|].
    left. split; [reflexivity|lia].
  - (* the mantissa reached 2 ^ 53 *)
    assert (Hp2 : Zpos p2 = 2 ^ 53) by lia.
    assert (Hdig : digits p2 = 54)
      by (apply digits2_unique; rewrite Hp2; simpl; lia).
    unfold shr_fexp. cbn [Zdigits2]. rewrite Hdig, fexp_eq.
    replace (Z.max (54 + e0 - 53) (-1074) - e0) with 1 by lia.
    assert (Hp : p2 = (2 ^ 53)%positive) by (apply Pos2Z.inj; rewrite Hp2; reflexivity).
    subst p2. cbn [shr shr_record_of_loc SpecFloat.iter_pos].
    replace (e0 + 1 <=? 1024 - 53) with true
      by (symmetry; apply Z.leb_le; lia).
    eexists. exists (e0 + 1). split; [reflexivity|].
    split; [simpl; lia|]. split; [lia|].
    right. split; [reflexivity|]. split; [reflexivity|lia].
Qed.

End Rounding.

(** ** Binary64 rounding: the value side *)

Section Values.

Local Open Scope R_scope.

Lemma pow2_pos (e : Z) : 0 < powerRZ 2 e.
Proof. apply powerRZ_lt. lra. Qed.

Lemma pow2_add (a b : Z) : powerRZ 2 (a + b) = powerRZ 2 a * powerRZ 2 b.
Proof. apply powerRZ_add. lra. Qed.

Lemma pow2_IZR (n : Z) : (0 <= n)%Z -> powerRZ 2 n = IZR (2 ^ n).
Proof.
  intros Hn. destruct n as [|p|p]; try lia.
  - reflexivity.
  - change (2 ^ Zpos p)%Z with (Z.pow_pos 2 p).
    rewrite Zpower_pos_powerRZ. reflexivity.
Qed.

Lemma pow2_ge_1 (n : Z) : (0 <= n)%Z -> 1 <= powerRZ 2 n.
Proof.
  intros Hn. rewrite pow2_IZR by assumption. apply IZR_le.
  assert (0 < 2 ^ n)%Z by (apply Z.pow_pos_nonneg; lia). lia.
Qed.

Lemma pow2_le (a b : Z) : (a <= b)%Z -> powerRZ 2 a <= powerRZ 2 b.
Proof.
  intros Hab. replace b with (a + (b - a))%Z by lia. rewrite pow2_add.
  pose proof (pow2_pos a). pose proof (pow2_ge_1 (b - a) ltac:(lia)). nra.
Qed.

Lemma pow2_60 : powerRZ 2 60 = big.
Proof. rewrite pow2_IZR by lia. reflexivity. Qed.

Lemma pow2_m60 : powerRZ 2 (-60) = / big.
Proof.
  change (-60)%Z with (- (60))%Z. rewrite powerRZ_neg'. rewrite pow2_60.
  reflexivity.
Qed.

Lemma pow2_m52 : powerRZ 2 (-52) = u.
Proof.
  change (-52)%Z with (- (52))%Z. rewrite powerRZ_neg'.
  rewrite pow2_IZR by lia. reflexivity.
Qed.

Lemma u_bounds : 0 < u /\ u < / 1000000000000000.
Proof. unfold u. split; lra. Qed.

Lemma mag_fin_pos (s : bool) (x : spec_float) : fin s x -> 0 < mag x.
Proof.
  intros (m & e & -> & _ & _). cbn [mag].
  apply Rmult_lt_0_compat; [apply IZR_lt; lia | apply pow2_pos].
Qed.

(** Cutting [n] low bits of [mx] encloses every [t] between [mx] and
    [mx + 1] units. *)
Lemma cut_encloses (mx ex n : Z) (t : R) :
  (0 <= mx)%Z -> (0 <= n)%Z ->
  IZR mx * powerRZ 2 ex <= t <= IZR (mx + 1) * powerRZ 2 ex ->
  IZR (mx / 2 ^ n) * powerRZ 2 (ex + n) <= t <=
  IZR (mx / 2 ^ n + 1) * powerRZ 2 (ex + n).
Proof.
  intros Hm Hn [Hlo Hhi].
  assert (Hp : (0 < 2 ^ n)%Z) by (apply Z.pow_pos_nonneg; lia).
  pose proof (Z.mul_div_le mx (2 ^ n) Hp) as H1.
  pose proof (Z.mul_succ_div_gt mx (2 ^ n) Hp) as H2.
  set (M := (mx / 2 ^ n)%Z) in *.
  rewrite pow2_add, (pow2_IZR n) by assumption.
  pose proof (pow2_pos ex) as Hex.
  assert (A1 : IZR M * IZR (2 ^ n) <= IZR mx).
  { rewrite <- mult_IZR. apply IZR_le. lia. }
  assert (A2 : IZR (mx + 1) <= IZR (M + 1) * IZR (2 ^ n)).
  { rewrite <- mult_IZR. apply IZR_le. lia. }
  split.
  - apply Rle_trans with (IZR mx * powerRZ 2 ex); [|exact Hlo].
    replace (IZR M * (powerRZ 2 ex * IZR (2 ^ n)))
      with (IZR M * IZR (2 ^ n) * powerRZ 2 ex) by ring.
    apply Rmult_le_compat_r; [lra|exact A1].
  - apply Rle_trans with (IZR (mx + 1) * powerRZ 2 ex); [exact Hhi|].
    replace (IZR (M + 1) * (powerRZ 2 ex * IZR (2 ^ n)))
      with (IZR (M + 1) * IZR (2 ^ n) * powerRZ 2 ex) by ring.
    apply Rmult_le_compat_r; [lra|exact A2].
Qed.

(** A value [rounded] from an enclosure of [t] is within one unit in the
    last place of [t]. *)
Lemma rounded_rel (M e0 m e : Z) (t : R) :
  (2 ^ 52 <= M)%Z ->
  rounded M e0 m e ->
  IZR M * powerRZ 2 e0 <= t <= IZR (M + 1) * powerRZ 2 e0 ->
  t * (1 - u) <= IZR m * powerRZ 2 e <= t * (1 + u).
Proof.
  intros HM Hr [Hlo Hhi].
  pose proof (pow2_pos e0) as He0.
  assert (HMr : 4503599627370496 <= IZR M).
  { change 4503599627370496 with (IZR (2 ^ 52)). apply IZR_le. exact HM. }
  rewrite plus_IZR in Hhi.
  assert (Hv : IZR m * powerRZ 2 e = IZR M * powerRZ 2 e0 \/
               IZR m * powerRZ 2 e = (IZR M + 1) * powerRZ 2 e0).
  { destruct Hr as [[-> [-> | ->]] | (-> & -> & H53)].
    - left; reflexivity.
    - right. rewrite plus_IZR. reflexivity.
    - right. rewrite pow2_add. change (powerRZ 2 1) with (2 * 1).
      replace (IZR M + 1) with (IZR (M + 1)) by (rewrite plus_IZR; reflexivity).
      rewrite H53. change (IZR (2 ^ 53)) with 9007199254740992.
      change (IZR (2 ^ 52)) with 4503599627370496. ring. }
  assert (Hu : powerRZ 2 e0 <= t * u).
  { unfold u. apply Rmult_le_reg_r with 4503599627370496; [lra|].
    replace (t * / 4503599627370496 * 4503599627370496) with t by (field; lra).
    apply Rle_trans with (IZR M * powerRZ 2 e0); [|exact Hlo].
    rewrite Rmult_comm. apply Rmult_le_compat_r; lra. }
  destruct Hv as [-> | ->]; split; nra.
Qed.

End Values.

(** ** Binary64 operations on normal numbers *)

Section Operations.

Local Open Scope R_scope.
Local Abbreviation digits p := (Zpos (digits2_pos p)).

Lemma big_bounds : 1 < big /\ big = 1152921504606846976.
Proof. unfold big. split; [lra|reflexivity]. Qed.

(** The exponent of a number between [/ big] and [big] is small. *)
Lemma range_exponent (mx : positive) (ex : Z) (t : R) :
  IZR (Zpos mx) * powerRZ 2 ex <= t <= IZR (Zpos mx + 1) * powerRZ 2 ex ->
  / big <= t <= big ->
  (-61 <= ex + digits mx <= 61)%Z.
Proof.
  intros [Hlo Hhi] [Rlo Rhi].
  pose proof (digits2_bounds mx) as [Dlo Dhi].
  pose proof (pow2_pos ex) as Hex.
  assert (Dpos : (0 < digits mx)%Z) by lia.
  split.
  - destruct (Z_le_gt_dec (-61) (ex + digits mx)) as [|Hc]; [assumption|].
    exfalso.
    assert (H1 : t <= powerRZ 2 (ex + digits mx)).
    { apply Rle_trans with (1 := Hhi).
      rewrite pow2_add, (pow2_IZR (digits mx)) by lia.
      rewrite (Rmult_comm (powerRZ 2 ex)).
      apply Rmult_le_compat_r; [lra|]. apply IZR_le. lia. }
    assert (H2 : powerRZ 2 (ex + digits mx) <= powerRZ 2 (-61))
      by (apply pow2_le; lia).
    assert (H3 : powerRZ 2 (-61) < / big).
    { replace (-61)%Z with (-60 + -1)%Z by lia.
      rewrite pow2_add, pow2_m60. change (powerRZ 2 (-1)) with (/ (2 * 1)).
      assert (0 < / big) by (apply Rinv_0_lt_compat; unfold big; lra).
      lra. }
    lra.
  - destruct (Z_le_gt_dec (ex + digits mx) 61) as [|Hc]; [assumption|].
    exfalso.
    assert (H1 : powerRZ 2 (ex + (digits mx - 1)) <= t).
    { apply Rle_trans with (2 := Hlo).
      rewrite pow2_add, (pow2_IZR (digits mx - 1)) by lia.
      rewrite (Rmult_comm (powerRZ 2 ex)).
      apply Rmult_le_compat_r; [lra|]. apply IZR_le. lia. }
    assert (H2 : powerRZ 2 61 <= powerRZ 2 (ex + (digits mx - 1)))
      by (apply pow2_le; lia).
    assert (H3 : big < powerRZ 2 61).
    { rewrite pow2_IZR by lia. unfold big. apply IZR_lt. reflexivity. }
    lra.
Qed.

(** Rounding a number of at least 53 digits in the working range: the
    result is normal and within one unit in the last place. *)
Lemma binary_round_aux_rel (s : bool) (mx : positive) (ex : Z)
    (lx : location) (t : R) :
  (53 <= digits mx)%Z ->
  IZR (Zpos mx) * powerRZ 2 ex <= t <= IZR (Zpos mx + 1) * powerRZ 2 ex ->
  / big <= t <= big ->
  fin s (binary_round_aux 53 1024 s (Zpos mx) ex lx) /\
  t * (1 - u) <= mag (binary_round_aux 53 1024 s (Zpos mx) ex lx)
              <= t * (1 + u).
Proof.
  intros Hd Ht Hr.
  pose proof (range_exponent mx ex t Ht Hr) as He.
  destruct (binary_round_aux_normal s mx ex lx Hd ltac:(lia))
    as (m & e & -> & Hm & Hee & Hrd).
  split.
  - exists m, e. auto.
  - cbn [mag].
    apply rounded_rel with (2 := Hrd); [apply cut_normal; assumption|].
    replace (ex + (digits mx - 53))%Z with (ex + (digits mx - 53))%Z
      by reflexivity.
    apply cut_encloses; [lia|lia|exact Ht].
Qed.

Lemma digits_ge (p : positive) (n : Z) :
  (2 ^ (n - 1) <= Zpos p)%Z -> (n <= digits p)%Z.
Proof.
  intros H. pose proof (digits2_bounds p) as [_ Hhi].
  destruct (Z_le_gt_dec n (digits p)) as [|Hc]; [assumption|exfalso].
  assert (2 ^ digits p <= 2 ^ (n - 1))%Z by (apply Z.pow_le_mono_r; lia).
  lia.
Qed.

(** Product of two normal numbers. *)
Lemma mul_rel (s1 s2 : bool) (x y : spec_float) :
  fin s1 x -> fin s2 y ->
  / big <= mag x * mag y <= big ->
  fin (xorb s1 s2) (PyFloat.mul x y) /\
  mag x * mag y * (1 - u) <= mag (PyFloat.mul x y)
                          <= mag x * mag y * (1 + u).
Proof.
  intros (m1 & e1 & -> & Hm1 & He1) (m2 & e2 & -> & Hm2 & He2) Hr.
  cbn [mag] in *. unfold PyFloat.mul, PyFloat.prec, PyFloat.emax.
  cbn [SFmul].
  assert (Ht : IZR (Zpos m1) * powerRZ 2 e1 * (IZR (Zpos m2) * powerRZ 2 e2)
               = IZR (Zpos (m1 * m2)) * powerRZ 2 (e1 + e2)).
  { rewrite Pos2Z.inj_mul, mult_IZR, pow2_add. ring. }
  rewrite Ht in *.
  apply binary_round_aux_rel; [| |exact Hr].
  - apply digits_ge. rewrite Pos2Z.inj_mul.
    change (2 ^ (53 - 1))%Z with (2 ^ 52 * 1)%Z.
    apply Z.mul_le_mono_nonneg; lia.
  - split; [lra|]. apply Rmult_le_compat_r.
    + pose proof (pow2_pos (e1 + e2)). lra.
    + apply IZR_le. lia.
Qed.

Lemma digits_53 (m : positive) :
  (2 ^ 52 <= Zpos m < 2 ^ 53)%Z -> digits m = 53%Z.
Proof. intros H. apply digits2_unique. exact H. Qed.

(** A quotient of integers between its integer part and the next. *)
Lemma div_encloses (a b : Z) :
  (0 <= a)%Z -> (0 < b)%Z ->
  IZR (a / b) <= IZR a / IZR b <= IZR (a / b + 1).
Proof.
  intros Ha Hb.
  pose proof (Z.mul_div_le a b Hb) as H1.
  pose proof (Z.mul_succ_div_gt a b Hb) as H2.
  assert (Hbr : 0 < IZR b) by (apply IZR_lt; exact Hb).
  assert (A1 : IZR (a / b) * IZR b <= IZR a).
  { rewrite <- mult_IZR. apply IZR_le. lia. }
  assert (A2 : IZR a <= IZR (a / b + 1) * IZR b).
  { rewrite <- mult_IZR. apply IZR_le. lia. }
  split.
  - apply Rmult_le_reg_r with (IZR b); [exact Hbr|].
    replace (IZR a / IZR b * IZR b) with (IZR a) by (field; lra). exact A1.
  - apply Rmult_le_reg_r with (IZR b); [exact Hbr|].
    replace (IZR a / IZR b * IZR b) with (IZR a) by (field; lra). exact A2.
Qed.

(** Quotient of two normal numbers. *)
Lemma div_rel (s1 s2 : bool) (x y : spec_float) :
  fin s1 x -> fin s2 y ->
  / big <= mag x / mag y <= big ->
  fin (xorb s1 s2) (SFdiv 53 1024 x y) /\
  mag x / mag y * (1 - u) <= mag (SFdiv 53 1024 x y)
                          <= mag x / mag y * (1 + u).
Proof.
  intros (m1 & e1 & -> & Hm1 & He1) (m2 & e2 & -> & Hm2 & He2) Hr.
  cbn [mag] in *. cbn [SFdiv]. unfold SFdiv_core_binary.
  cbn [Zdigits2]. rewrite (digits_53 m1 Hm1), (digits_53 m2 Hm2), fexp_eq.
  pose proof (pow2_pos e1) as P1. pose proof (pow2_pos e2) as P2.
  assert (M1 : 4503599627370496 <= IZR (Zpos m1) < 9007199254740992).
  { split; [apply (IZR_le (2 ^ 52)) | apply (IZR_lt _ (2 ^ 53))]; lia. }
  assert (M2 : 4503599627370496 <= IZR (Zpos m2) < 9007199254740992).
  { split; [apply (IZR_le (2 ^ 52)) | apply (IZR_lt _ (2 ^ 53))]; lia. }
  set (t := IZR (Zpos m1) * powerRZ 2 e1 / (IZR (Zpos m2) * powerRZ 2 e2))
    in *.
  assert (Et : t = IZR (Zpos m1) / IZR (Zpos m2) * powerRZ 2 (e1 - e2)).
  { unfold t. replace (e1 - e2)%Z with (e1 + - e2)%Z by lia.
    rewrite pow2_add, powerRZ_neg'. field. lra. }
  assert (Hratio : / 2 < IZR (Zpos m1) / IZR (Zpos m2) < 2).
  { split.
    - apply Rmult_lt_reg_r with (IZR (Zpos m2)); [lra|].
      replace (IZR (Zpos m1) / IZR (Zpos m2) * IZR (Zpos m2))
        with (IZR (Zpos m1)) by (field; lra). lra.
    - apply Rmult_lt_reg_r with (IZR (Zpos m2)); [lra|].
      replace (IZR (Zpos m1) / IZR (Zpos m2) * IZR (Zpos m2))
        with (IZR (Zpos m1)) by (field; lra). lra. }
  assert (Hexp : (-62 <= e1 - e2)%Z).
  { destruct (Z_le_gt_dec (-62) (e1 - e2)) as [|Hc]; [assumption|exfalso].
    assert (H2 : powerRZ 2 (e1 - e2) <= powerRZ 2 (-62))
      by (apply pow2_le; lia).
    assert (H3 : powerRZ 2 (-62) * 2 < / big).
    { replace (-62)%Z with (-60 + -2)%Z by lia.
      rewrite pow2_add, pow2_m60. change (powerRZ 2 (-2)) with (/ (2 * (2 * 1))).
      assert (0 < / big) by (apply Rinv_0_lt_compat; unfold big; lra).
      lra. }
    pose proof (pow2_pos (e1 - e2)). nra. }
  replace (Z.min (Z.max (53 + e1 - (53 + e2) - 53) (-1074)) (e1 - e2))
    with (e1 - e2 - 53)%Z by lia.
  replace (e1 - e2 - (e1 - e2 - 53))%Z with 53%Z by lia.
  rewrite Z.shiftl_mul_pow2 by lia.
  assert (Hq : Z.div_eucl (Zpos m1 * 2 ^ 53) (Zpos m2) =
               ((Zpos m1 * 2 ^ 53) / Zpos m2, (Zpos m1 * 2 ^ 53) mod Zpos m2)%Z).
  { unfold Z.div, Z.modulo.
    destruct (Z.div_eucl (Zpos m1 * 2 ^ 53) (Zpos m2)); reflexivity. }
  rewrite Hq. clear Hq.
  set (q := ((Zpos m1 * 2 ^ 53) / Zpos m2)%Z).
  assert (Hqlo : (2 ^ 52 <= q)%Z).
  { unfold q. apply Z.div_le_lower_bound; [lia|].
    change (2 ^ 53)%Z with (2 * 2 ^ 52)%Z. nia. }
  destruct q as [|pq|pq] eqn:Eq; try lia.
  assert (Henc : IZR (Zpos pq) * powerRZ 2 (e1 - e2 - 53) <= t <=
                 IZR (Zpos pq + 1) * powerRZ 2 (e1 - e2 - 53)).
  { pose proof (div_encloses (Zpos m1 * 2 ^ 53) (Zpos m2)
                  ltac:(lia) ltac:(lia)) as [D1 D2].
    fold q in D1, D2. rewrite Eq in D1, D2.
    rewrite mult_IZR in D1, D2.
    change (IZR (2 ^ 53)) with 9007199254740992 in D1, D2.
    assert (Ep : powerRZ 2 (e1 - e2) =
                 9007199254740992 * powerRZ 2 (e1 - e2 - 53)).
    { replace (e1 - e2)%Z with (53 + (e1 - e2 - 53))%Z at 1 by lia.
      rewrite pow2_add, pow2_IZR by lia. reflexivity. }
    pose proof (pow2_pos (e1 - e2 - 53)) as P3.
    rewrite Et, Ep.
    replace (IZR (Zpos m1) / IZR (Zpos m2) *
             (9007199254740992 * powerRZ 2 (e1 - e2 - 53)))
      with (IZR (Zpos m1) * 9007199254740992 / IZR (Zpos m2) *
            powerRZ 2 (e1 - e2 - 53)) by (field; lra).
    split; apply Rmult_le_compat_r; lra. }
  apply binary_round_aux_rel; [|exact Henc|exact Hr].
  apply digits_ge. exact Hqlo.
Qed.

Lemma iter_xO (m d : positive) :
  Zpos (Pos.iter xO m d) = (Zpos m * 2 ^ Zpos d)%Z.
Proof.
  induction d as [|d IH] using Pos.peano_ind.
  - change (Pos.iter xO m 1) with (m~0)%positive. change (2 ^ 1)%Z with 2%Z.
    lia.
  - rewrite Pos.iter_succ, Pos2Z.inj_xO, IH, Pos2Z.inj_succ,
      Z.pow_succ_r by lia. ring.
Qed.

Lemma shl_align_m (m : positive) (e ez : Z) :
  (ez <= e)%Z ->
  Zpos (fst (shl_align m e ez)) = (Zpos m * 2 ^ (e - ez))%Z /\
  snd (shl_align m e ez) = ez.
Proof.
  intros H. unfold shl_align.
  destruct (ez - e)%Z as [|d|d] eqn:E; cbn [fst snd]; try lia.
  - replace (e - ez)%Z with 0%Z by lia. split; lia.
  - rewrite iter_xO. replace (e - ez)%Z with (Zpos d) by lia. split; lia.
Qed.

Lemma shl_align_id (m : positive) (e e' : Z) :
  (e <= e')%Z -> shl_align m e e' = (m, e).
Proof.
  intros H. unfold shl_align. destruct (e' - e)%Z eqn:E; try reflexivity.
  lia.
Qed.

(** Sum of two positive normal numbers. *)
Lemma add_rel (x y : spec_float) :
  fin false x -> fin false y ->
  / big <= mag x + mag y <= big ->
  fin false (PyFloat.add x y) /\
  (mag x + mag y) * (1 - u) <= mag (PyFloat.add x y)
                            <= (mag x + mag y) * (1 + u).
Proof.
  intros (m1 & e1 & -> & Hm1 & He1) (m2 & e2 & -> & Hm2 & He2) Hr.
  cbn [mag] in *. unfold PyFloat.add, PyFloat.prec, PyFloat.emax.
  cbn [SFadd cond_Zopp].
  set (ez := Z.min e1 e2).
  destruct (shl_align_m m1 e1 ez ltac:(lia)) as [A1 _].
  destruct (shl_align_m m2 e2 ez ltac:(lia)) as [A2 _].
  set (a1 := fst (shl_align m1 e1 ez)) in *.
  set (a2 := fst (shl_align m2 e2 ez)) in *.
  change (Zpos a1 + Zpos a2)%Z with (Zpos (a1 + a2)).
  cbn [binary_normalize]. unfold binary_round.
  assert (P1 : (1 <= 2 ^ (e1 - ez))%Z)
    by (assert (0 < 2 ^ (e1 - ez))%Z by (apply Z.pow_pos_nonneg; lia); lia).
  assert (P2 : (1 <= 2 ^ (e2 - ez))%Z)
    by (assert (0 < 2 ^ (e2 - ez))%Z by (apply Z.pow_pos_nonneg; lia); lia).
  assert (Hs : (2 ^ 52 <= Zpos (a1 + a2))%Z).
  { rewrite Pos2Z.inj_add, A1, A2. nia. }
  pose proof (digits_ge (a1 + a2) 53 Hs) as Hd.
  rewrite shl_align_id by (rewrite fexp_eq; lia).
  assert (Ht : IZR (Zpos m1) * powerRZ 2 e1 + IZR (Zpos m2) * powerRZ 2 e2 =
               IZR (Zpos (a1 + a2)) * powerRZ 2 ez).
  { rewrite Pos2Z.inj_add, plus_IZR, A1, A2, !mult_IZR.
    rewrite <- !pow2_IZR by lia.
    rewrite Rmult_plus_distr_r, !Rmult_assoc, <- !pow2_add.
    replace (e1 - ez + ez)%Z with e1 by lia.
    replace (e2 - ez + ez)%Z with e2 by lia. reflexivity. }
  rewrite Ht in *.
  pose proof (pow2_pos ez) as Pz.
  assert (Hpos : 4503599627370496 <= IZR (Zpos (a1 + a2)))
    by (apply (IZR_le (2 ^ 52)); exact Hs).
  apply binary_round_aux_rel; [exact Hd| |exact Hr].
  split; [lra|]. apply Rmult_le_compat_r; [lra|]. apply IZR_le. lia.
Qed.

End Operations.

(** ** Conversions between [int] and [float] *)

Section Conversions.

Local Open Scope R_scope.
Local Abbreviation digits p := (Zpos (digits2_pos p)).

Lemma pow2_neg (e : Z) :
  (e < 0)%Z -> powerRZ 2 e = / IZR (2 ^ (- e)).
Proof.
  intros He. rewrite <- (Z.opp_involutive e) at 1.
  rewrite powerRZ_neg', pow2_IZR by lia. reflexivity.
Qed.

(** A number that needs no rounding is returned as it is. *)
Lemma binary_round_aux_exact (s : bool) (m : positive) (e : Z) :
  (2 ^ 52 <= Zpos m < 2 ^ 53)%Z -> (-1074 <= e <= 971)%Z ->
  binary_round_aux 53 1024 s (Zpos m) e loc_Exact = S754_finite s m e.
Proof.
  intros Hm He. pose proof (digits_53 m Hm) as Hd.
  unfold binary_round_aux, shr_fexp. cbn [Zdigits2].
  rewrite Hd, fexp_eq.
  replace (Z.max (53 + e - 53) (-1074) - e)%Z with 0%Z by lia.
  cbn [shr shr_record_of_loc shr_m loc_of_shr_record round_nearest_even
       Zdigits2].
  rewrite Hd, fexp_eq.
  replace (Z.max (53 + e - 53) (-1074) - e)%Z with 0%Z by lia.
  cbn [shr shr_record_of_loc shr_m].
  replace (e <=? 1024 - 53)%Z with true by (symmetry; apply Z.leb_le; lia).
  reflexivity.
Qed.

(** [float(n)] is exact below [2 ^ 53]. *)
Lemma binary_round_int (s : bool) (p : positive) :
  (Zpos p < 2 ^ 53)%Z ->
  fin s (binary_round 53 1024 s p 0) /\
  mag (binary_round 53 1024 s p 0) = IZR (Zpos p).
Proof.
  intros Hp. pose proof (digits2_bounds p) as [Dlo Dhi].
  assert (Hd : (digits p <= 53)%Z).
  { destruct (Z_le_gt_dec (digits p) 53) as [|Hc]; [assumption|exfalso].
    assert (2 ^ 53 <= 2 ^ (digits p - 1))%Z
      by (apply Z.pow_le_mono_r; lia). lia. }
  unfold binary_round. rewrite fexp_eq.
  replace (Z.max (digits p + 0 - 53) (-1074)) with (digits p - 53)%Z by lia.
  destruct (shl_align_m p 0 (digits p - 53) ltac:(lia)) as [A1 A2].
  destruct (shl_align p 0 (digits p - 53)) as [mz ez].
  cbn [fst snd] in A1, A2. subst ez.
  replace (0 - (digits p - 53))%Z with (53 - digits p)%Z in A1 by lia.
  assert (Hmz : (2 ^ 52 <= Zpos mz < 2 ^ 53)%Z).
  { rewrite A1.
    replace (2 ^ 52)%Z with (2 ^ (digits p - 1) * 2 ^ (53 - digits p))%Z
      by (rewrite <- Z.pow_add_r by lia; f_equal; lia).
    replace (2 ^ 53)%Z with (2 ^ digits p * 2 ^ (53 - digits p))%Z
      by (rewrite <- Z.pow_add_r by lia; f_equal; lia).
    assert (0 < 2 ^ (53 - digits p))%Z by (apply Z.pow_pos_nonneg; lia).
    split; [apply Z.mul_le_mono_nonneg_r | apply Z.mul_lt_mono_pos_r]; lia. }
  rewrite binary_round_aux_exact by lia.
  split.
  - exists mz, (digits p - 53)%Z. split; [reflexivity|]. split; lia.
  - cbn [mag]. rewrite A1, mult_IZR, <- pow2_IZR by lia.
    rewrite Rmult_assoc, <- pow2_add.
    replace (53 - digits p + (digits p - 53))%Z with 0%Z by lia.
    cbn [powerRZ]. ring.
Qed.

Lemma of_int_pos (n : Z) :
  (0 < n < 2 ^ 53)%Z ->
  exists x, PyFloat.of_int n = Ok x /\ fin false x /\ mag x = IZR n.
Proof.
  intros Hn. destruct n as [|p|p]; try lia.
  unfold PyFloat.of_int, PyFloat.prec, PyFloat.emax. cbn [binary_normalize].
  destruct (binary_round_int false p ltac:(lia)) as [Hf Hv].
  destruct Hf as (m & e & Hx & Hm & He).
  rewrite Hx in *. exists (S754_finite false m e).
  split; [reflexivity|]. split; [|exact Hv].
  exists m, e. auto.
Qed.

Lemma of_int_zero : PyFloat.of_int 0 = Ok (S754_zero false).
Proof. reflexivity. Qed.

(** [int(x)] on a positive finite number: the integer part. *)
Lemma to_int_pos (m : positive) (e : Z) :
  exists z, PyFloat.to_int (S754_finite false m e) = Ok z /\
            (0 <= z)%Z /\
            IZR z <= mag (S754_finite false m e) < IZR z + 1.
Proof.
  cbn [PyFloat.to_int cond_Zopp mag]. unfold PyFloat.trunc_mag.
  eexists. split; [reflexivity|].
  destruct (Z.leb_spec 0 e) as [He | He].
  - assert (0 < 2 ^ e)%Z by (apply Z.pow_pos_nonneg; lia).
    split; [lia|]. rewrite mult_IZR, pow2_IZR by lia. lra.
  - assert (Hp : (0 < 2 ^ (- e))%Z) by (apply Z.pow_pos_nonneg; lia).
    split; [apply Z.div_pos; lia|].
    pose proof (Z.mul_div_le (Zpos m) (2 ^ (- e)) Hp) as H1.
    pose proof (Z.mul_succ_div_gt (Zpos m) (2 ^ (- e)) Hp) as H2.
    set (q := (Zpos m / 2 ^ (- e))%Z) in *.
    rewrite pow2_neg by lia.
    assert (Hpr : 0 < IZR (2 ^ (- e))) by (apply IZR_lt; exact Hp).
    assert (A1 : IZR (2 ^ (- e)) * IZR q <= IZR (Zpos m))
      by (rewrite <- mult_IZR; apply IZR_le; exact H1).
    assert (A2 : IZR (Zpos m) < IZR (2 ^ (- e)) * (IZR q + 1)).
    { replace (IZR q + 1) with (IZR (Z.succ q))
        by (rewrite succ_IZR; reflexivity).
      rewrite <- mult_IZR. apply IZR_lt. exact H2. }
    split.
    + apply Rmult_le_reg_l with (IZR (2 ^ (- e))); [exact Hpr|].
      replace (IZR (2 ^ (- e)) * (IZR (Zpos m) * / IZR (2 ^ (- e))))
        with (IZR (Zpos m)) by (field; lra). exact A1.
    + apply Rmult_lt_reg_l with (IZR (2 ^ (- e))); [exact Hpr|].
      replace (IZR (2 ^ (- e)) * (IZR (Zpos m) * / IZR (2 ^ (- e))))
        with (IZR (Zpos m)) by (field; lra). exact A2.
Qed.

(** [round(x)] on a positive finite number: within a half. *)
Lemma round_pos (m : positive) (e : Z) :
  exists z, PyFloat.round (S754_finite false m e) = Ok z /\
            (0 <= z)%Z /\
            IZR z - / 2 <= mag (S754_finite false m e) <= IZR z + / 2.
Proof.
  cbn [PyFloat.round cond_Zopp mag]. unfold PyFloat.round_mag.
  eexists. split; [reflexivity|].
  destruct (Z.leb_spec 0 e) as [He | He].
  - assert (0 < 2 ^ e)%Z by (apply Z.pow_pos_nonneg; lia).
    split; [lia|]. rewrite mult_IZR, pow2_IZR by lia. lra.
  - assert (Hp : (0 < 2 ^ (- e))%Z) by (apply Z.pow_pos_nonneg; lia).
    pose proof (Z.div_mod (Zpos m) (2 ^ (- e)) ltac:(lia)) as Hdm.
    pose proof (Z.mod_pos_bound (Zpos m) (2 ^ (- e)) Hp) as Hmod.
    assert (Hq : (0 <= Zpos m / 2 ^ (- e))%Z) by (apply Z.div_pos; lia).
    set (d := (2 ^ (- e))%Z) in *.
    set (q := (Zpos m / d)%Z) in *.
    set (r := (Zpos m mod d)%Z) in *.
    rewrite pow2_neg by lia. fold d.
    assert (Hdr : 0 < IZR d) by (apply IZR_lt; exact Hp).
    assert (Em : IZR (Zpos m) * / IZR d = IZR q + IZR r / IZR d).
    { rewrite Hdm, plus_IZR, mult_IZR. field. lra. }
    rewrite Em.
    assert (Hr0 : 0 <= IZR r / IZR d).
    { apply Rmult_le_pos; [apply IZR_le; lia|].
      apply Rlt_le. apply Rinv_0_lt_compat. exact Hdr. }
    assert (Hr1 : IZR r / IZR d <= 1).
    { apply Rmult_le_reg_r with (IZR d); [exact Hdr|].
      replace (IZR r / IZR d * IZR d) with (IZR r) by (field; lra).
      rewrite Rmult_1_l. apply IZR_le. lia. }
    assert (Half : forall c : comparison, (2 * r ?= d)%Z = c ->
              match c with
              | Lt => IZR r / IZR d <= / 2
              | Eq => IZR r / IZR d = / 2
              | Gt => / 2 <= IZR r / IZR d
              end).
    { intros c Hc. destruct c.
      - apply Z.compare_eq in Hc.
        apply Rmult_eq_reg_r with (2 * IZR d); [|lra].
        replace (IZR r / IZR d * (2 * IZR d)) with (2 * IZR r)
          by (field; lra).
        replace (/ 2 * (2 * IZR d)) with (IZR d) by field.
        rewrite <- Hc, mult_IZR. reflexivity.
      - rewrite Z.compare_lt_iff in Hc.
        apply Rmult_le_reg_r with (2 * IZR d); [lra|].
        replace (IZR r / IZR d * (2 * IZR d)) with (2 * IZR r)
          by (field; lra).
        replace (/ 2 * (2 * IZR d)) with (IZR d) by field.
        rewrite <- (mult_IZR 2). apply IZR_le. lia.
      - rewrite Z.compare_gt_iff in Hc.
        apply Rmult_le_reg_r with (2 * IZR d); [lra|].
        replace (IZR r / IZR d * (2 * IZR d)) with (2 * IZR r)
          by (field; lra).
        replace (/ 2 * (2 * IZR d)) with (IZR d) by field.
        rewrite <- (mult_IZR 2). apply IZR_le. lia. }
    specialize (Half _ eq_refl).
    destruct (2 * r ?= d)%Z.
    + destruct (Z.even q); [split; [lia|lra]|].
      split; [lia|]. rewrite plus_IZR. lra.
    + split; [lia|lra].
    + split; [lia|]. rewrite plus_IZR. lra.
Qed.

End Conversions.

(** ** The step multiplier for an overlap of 0 to 99 percent *)

Section Table.

Lemma cross_koef_table : forallb cross_koef_ok (range 100) = true.
Proof. vm_compute. reflexivity. Qed.

Lemma in_range (n i : Z) : 0 <= i < n -> In i (range n).
Proof.
  intros H. unfold range. apply in_map_iff. exists (Z.to_nat i).
  split; [lia|]. apply in_seq. lia.
Qed.

Lemma range_in (n i : Z) : In i (range n) -> 0 <= i < n.
Proof.
  unfold range. intros H. apply in_map_iff in H.
  destruct H as (k & <- & Hk). apply in_seq in Hk. lia.
Qed.

Lemma cross_koef_valid (o : Z) :
  0 <= o < 100 ->
  exists c, cross_koef o = Ok c /\ fin false c /\
            (/ 128 <= mag c <= 1)%R.
Proof.
  intros Ho.
  pose proof (proj1 (forallb_forall _ _) cross_koef_table o
                (in_range 100 o Ho)) as H.
  unfold cross_koef_ok in H.
  destruct (cross_koef o) as [[| | |[|] m e]|]; try discriminate.
  apply andb_prop in H. destruct H as [H H5].
  apply andb_prop in H. destruct H as [H H4].
  apply andb_prop in H. destruct H as [H H3].
  apply andb_prop in H. destruct H as [H1 H2].
  apply Z.leb_le in H1, H3, H4, H5. apply Z.ltb_lt in H2.
  exists (S754_finite false m e). split; [reflexivity|]. split.
  - exists m, e. split; [reflexivity|]. split; lia.
  - cbn [mag].
    assert (E : powerRZ 2 e = (IZR (2 ^ (e + 59)) * powerRZ 2 (-59))%R).
    { rewrite <- pow2_IZR, <- pow2_add by lia. f_equal. lia. }
    assert (P59 : powerRZ 2 (-59) = (/ 576460752303423488)%R).
    { rewrite pow2_neg by lia. reflexivity. }
    rewrite E, P59, <- Rmult_assoc, <- mult_IZR.
    assert (0 < 2 ^ (e + 59)) by (apply Z.pow_pos_nonneg; lia).
    assert (B1 : (IZR (2 ^ 52) <= IZR (Zpos m * 2 ^ (e + 59)))%R)
      by (apply IZR_le; nia).
    assert (B2 : (IZR (Zpos m * 2 ^ (e + 59)) <= IZR (2 ^ 59))%R)
      by (apply IZR_le; lia).
    change (IZR (2 ^ 52)) with 4503599627370496%R in B1.
    change (IZR (2 ^ 59)) with 576460752303423488%R in B2.
    lra.
Qed.

Lemma cross_koef_near_table :
  forallb cross_koef_near_ok (range 100) = true.
Proof. vm_compute. reflexivity. Qed.

(** The multiplier against its exact value. *)
Lemma cross_koef_near (o : Z) (c : spec_float) :
  0 <= o < 100 -> cross_koef o = Ok c ->
  (IZR (100 - o) - / 50000000000000 <= 100 * mag c
   <= IZR (100 - o) + / 50000000000000)%R.
Proof.
  intros Ho Hc.
  pose proof (proj1 (forallb_forall _ _) cross_koef_near_table o
                (in_range 100 o Ho)) as H.
  unfold cross_koef_near_ok in H. rewrite Hc in H.
  destruct c as [| | |[|] m e]; try discriminate.
  apply andb_prop in H. destruct H as [H1 H2].
  apply Z.leb_le in H1, H2. cbn [mag].
  assert (E : powerRZ 2 e = (IZR (2 ^ (e + 59)) * powerRZ 2 (-59))%R).
  { rewrite <- pow2_IZR, <- pow2_add by lia. f_equal. lia. }
  assert (P59 : powerRZ 2 (-59) = (/ 576460752303423488)%R).
  { rewrite pow2_neg by lia. reflexivity. }
  set (M := Zpos m * 2 ^ (e + 59)) in *.
  assert (EM : (IZR (Zpos m) * powerRZ 2 e
                = IZR M * / 576460752303423488)%R).
  { rewrite E, P59. unfold M. rewrite mult_IZR. ring. }
  rewrite EM.
  assert (B1 : (IZR (100 * M - (100 - o) * 2 ^ 59) <= IZR 6400)%R)
    by (apply IZR_le; lia).
  assert (B2 : (IZR (- 6400) <= IZR (100 * M - (100 - o) * 2 ^ 59))%R)
    by (apply IZR_le; lia).
  rewrite minus_IZR, !mult_IZR in B1, B2.
  change (IZR (2 ^ 59)) with 576460752303423488%R in B1, B2.
  clearbody M. set (a := IZR (100 - o)) in *. clearbody a.
  split; lra.
Qed.

End Table.

(** ** Signs *)

Section Signs.

Lemma binary_round_aux_sign (s : bool) (mx ex : Z) (lx : location) :
  match binary_round_aux 53 1024 s mx ex lx with
  | S754_finite s' _ _ => s' = s
  | _ => True
  end.
Proof.
  unfold binary_round_aux.
  destruct (shr_fexp 53 1024 mx ex lx) as [mrs' e'].
  destruct (shr_fexp 53 1024 _ e' loc_Exact) as [mrs'' e''].
  destruct (shr_m mrs''); try exact I.
  destruct (e'' <=? 1024 - 53); exact I || reflexivity.
Qed.

Lemma of_int_nonneg (n : Z) (x : spec_float) :
  0 <= n -> PyFloat.of_int n = Ok x -> nonneg x.
Proof.
  intros Hn. unfold PyFloat.of_int, PyFloat.prec, PyFloat.emax.
  destruct n as [|p|p]; try lia.
  - cbn. intros [= <-]. exact I.
  - cbn [binary_normalize]. unfold binary_round.
    destruct (shl_align p 0 _) as [mz ez].
    pose proof (binary_round_aux_sign false (Zpos mz) ez loc_Exact) as H.
    destruct (binary_round_aux 53 1024 false (Zpos mz) ez loc_Exact);
      try discriminate; intros [= <-]; cbn; auto.
Qed.

Lemma mul_nonneg (x y : spec_float) :
  nonneg x -> nonneg y -> nonneg (PyFloat.mul x y).
Proof.
  unfold PyFloat.mul, PyFloat.prec, PyFloat.emax.
  destruct x as [sx|sx| |sx mx ex], y as [sy|sy| |sy my ey];
    cbn [nonneg SFmul]; intros Hx Hy; try exact I.
  subst sx sy.
  pose proof (binary_round_aux_sign (xorb false false)
                (Zpos (mx * my)) (ex + ey) loc_Exact) as H.
  destruct (binary_round_aux 53 1024 _ _ _ _); cbn; auto.
Qed.

Lemma to_int_nonneg (x : spec_float) (z : Z) :
  nonneg x -> PyFloat.to_int x = Ok z -> 0 <= z.
Proof.
  destruct x as [s|s| |s m e]; cbn [nonneg PyFloat.to_int];
    intros Hx; try discriminate.
  - intros [= <-]. lia.
  - subst s. intros [= <-]. cbn [cond_Zopp]. unfold PyFloat.trunc_mag.
    destruct (0 <=? e).
    + apply Z.mul_nonneg_nonneg; [lia|]. apply Z.pow_nonneg. lia.
    + apply Z_div_nonneg_nonneg; [lia|]. apply Z.pow_nonneg. lia.
Qed.

End Signs.

(** ** Accumulated rounding error along one axis *)

Section ErrorBudget.

Local Open Scope R_scope.

Lemma mul_le_const (a b A B : R) :
  0 <= a <= A -> b <= B -> 0 <= B -> a * b <= A * B.
Proof.
  intros Ha Hb HB. apply Rle_trans with (a * B).
  - apply Rmult_le_compat_l; lra.
  - apply Rmult_le_compat_r; lra.
Qed.

Lemma prod_nonneg (a b : R) : 0 <= a -> 0 <= b -> 0 <= a * b.
Proof. apply Rmult_le_pos. Qed.

Lemma arith_upper (u D S X P B : R) :
  0 < u < / 1000000000000000 ->
  0 <= D -> 1 <= S -> D + S <= 2147483647 ->
  0 <= X <= D * (1 + u) -> P <= X * (1 + u) -> B <= (P + S) * (1 + u) ->
  B < D + S + / 4.
Proof.
  intros Hu HD HS HDS HX HP HB.
  pose proof (mul_le_const u D (/ 1000000000000000) 2147483647
                ltac:(lra) ltac:(lra) ltac:(lra)) as uD.
  pose proof (mul_le_const u S (/ 1000000000000000) 2147483647
                ltac:(lra) ltac:(lra) ltac:(lra)) as uS.
  assert (X1 : X <= D + / 400000) by lra.
  pose proof (mul_le_const u X (/ 1000000000000000) 2147483648
                ltac:(lra) ltac:(lra) ltac:(lra)) as uX.
  assert (P1 : P <= D + / 100000) by lra.
  pose proof (mul_le_const u P (/ 1000000000000000) 2147483648
                ltac:(lra) ltac:(lra) ltac:(lra)) as uP.
  lra.
Qed.

Lemma arith_lower (u S P B : R) :
  0 < u < / 1000000000000000 ->
  1 <= S <= 2147483647 -> 0 <= P ->
  (P + S) * (1 - u) <= B ->
  S - / 4 < B.
Proof.
  intros Hu HS HP HB.
  pose proof (mul_le_const u S (/ 1000000000000000) 2147483647
                ltac:(lra) ltac:(lra) ltac:(lra)) as uS.
  pose proof (prod_nonneg P (1 - u) HP ltac:(lra)) as HPu.
  lra.
Qed.

Lemma arith_T (u D S C K M : R) :
  0 < u < / 1000000000000000 ->
  0 <= D -> 1 <= S -> D + S <= 2147483647 ->
  / 128 <= C <= 1 -> 0 <= K ->
  S * C * (1 - u) <= M ->
  K * M <= D * (1 + u) ->
  0 <= S * K * C /\ S * K * C * (1 - u) <= K * M /\
  S * K * C <= 2 * D + 1 /\ 0 <= K * M <= D + / 400000.
Proof.
  intros Hu HD HS HDS HC HK HM HKM.
  pose proof (mul_le_const u D (/ 1000000000000000) 2147483647
                ltac:(lra) ltac:(lra) ltac:(lra)) as uD.
  assert (HSC : 0 <= S * C) by (apply Rmult_le_pos; lra).
  assert (HSK : 0 <= S * K) by (apply Rmult_le_pos; lra).
  assert (HT0 : 0 <= S * K * C) by (apply Rmult_le_pos; lra).
  assert (HT1 : S * K * C * (1 - u) <= K * M).
  { replace (S * K * C * (1 - u)) with (K * (S * C * (1 - u))) by ring.
    apply Rmult_le_compat_l; lra. }
  assert (HX0 : 0 <= K * M).
  { apply Rle_trans with (2 := HT1). apply Rmult_le_pos; lra. }
  split; [exact HT0|]. split; [exact HT1|].
  set (T := S * K * C) in *. clearbody T.
  set (X := K * M) in *. clearbody X.
  assert (HTu : T * (1 - u) <= D + / 400000) by lra.
  assert (Hh : T * / 2 <= T * (1 - u)) by (apply Rmult_le_compat_l; lra).
  split; lra.
Qed.

Lemma arith_fit (u D S C K J M Z N : R) :
  0 < u < / 1000000000000000 ->
  0 <= D -> 1 <= S -> D + S <= 2147483647 ->
  / 128 <= C <= 1 ->
  0 <= J <= K ->
  S * C * (1 - u) <= M ->
  K * M <= D * (1 + u) ->
  Z <= S * J * C * (1 + u) ->
  (K * M * (1 - u) + S) * (1 - u) - / 2 <= N ->
  Z + S < N + 1.
Proof.
  intros Hu HD HS HDS HC HJ HM HK HZ HN.
  destruct (arith_T u D S C K M Hu HD HS HDS HC ltac:(lra) HM HK)
    as (HT0 & HT1 & HT3 & HX).
  pose proof (mul_le_const u S (/ 1000000000000000) 2147483647
                ltac:(lra) ltac:(lra) ltac:(lra)) as uS.
  assert (HSC : 0 <= S * C) by (apply Rmult_le_pos; lra).
  assert (HJK : S * J * C <= S * K * C).
  { replace (S * J * C) with (S * C * J) by ring.
    replace (S * K * C) with (S * C * K) by ring.
    apply Rmult_le_compat_l; lra. }
  assert (HZ1 : Z <= S * K * C * (1 + u)).
  { apply Rle_trans with (1 := HZ). apply Rmult_le_compat_r; lra. }
  set (T := S * K * C) in *. clearbody T.
  set (X := K * M) in *. clearbody X.
  clear HJK HZ HM HSC HK.
  pose proof (mul_le_const u T (/ 1000000000000000) 4294967296
                ltac:(lra) ltac:(lra) ltac:(lra)) as uT.
  pose proof (mul_le_const u X (/ 1000000000000000) 4294967296
                ltac:(lra) ltac:(lra) ltac:(lra)) as uX.
  pose proof (prod_nonneg u X ltac:(lra) ltac:(lra)) as uX0.
  pose proof (prod_nonneg u (u * X) ltac:(lra) uX0) as uuX0.
  lra.
Qed.

Lemma arith_index (u D S C K M : R) :
  0 < u < / 1000000000000000 ->
  0 <= D -> 1 <= S -> D + S <= 2147483647 ->
  / 128 <= C <= 1 -> 0 <= K ->
  S * C * (1 - u) <= M ->
  K * M <= D * (1 + u) ->
  S * K <= 1099511627776 /\ S * K * C <= 4294967296.
Proof.
  intros Hu HD HS HDS HC HK HM HKM.
  destruct (arith_T u D S C K M Hu HD HS HDS HC HK HM HKM)
    as (HT0 & HT1 & HT3 & HX).
  assert (HSK : 0 <= S * K) by (apply Rmult_le_pos; lra).
  assert (HC2 : S * K * / 128 <= S * K * C)
    by (apply Rmult_le_compat_l; lra).
  split; lra.
Qed.

Lemma arith_margin (u D S C K M Z N : R) :
  0 < u < / 1000000000000000 ->
  0 <= D -> 1 <= S -> D + S <= 2147483647 ->
  / 128 <= C <= 1 -> 0 <= K ->
  S * C * (1 - u) <= M <= S * C * (1 + u) ->
  K * M <= D * (1 + u) ->
  S * K * C * (1 - u) < Z + 1 ->
  N <= (K * M * (1 + u) + S) * (1 + u) + / 2 ->
  N < Z + S + 2.
Proof.
  intros Hu HD HS HDS HC HK HM HKM HZ HN.
  destruct (arith_T u D S C K M Hu HD HS HDS HC HK (proj1 HM) HKM)
    as (HT0 & HT1 & HT3 & HX).
  assert (HXT : K * M <= S * K * C * (1 + u)).
  { replace (S * K * C * (1 + u)) with (K * (S * C * (1 + u))) by ring.
    apply Rmult_le_compat_l; lra. }
  pose proof (mul_le_const u S (/ 1000000000000000) 2147483647
                ltac:(lra) ltac:(lra) ltac:(lra)) as uS.
  set (T := S * K * C) in *. clearbody T.
  set (X := K * M) in *. clearbody X.
  pose proof (mul_le_const u T (/ 1000000000000000) 4294967296
                ltac:(lra) ltac:(lra) ltac:(lra)) as uT.
  pose proof (mul_le_const u X (/ 1000000000000000) 4294967296
                ltac:(lra) ltac:(lra) ltac:(lra)) as uX.
  pose proof (prod_nonneg u X ltac:(lra) ltac:(lra)) as uX0.
  pose proof (mul_le_const u (u * X) (/ 1000000000000000) 1
                ltac:(lra) ltac:(lra) ltac:(lra)) as uuX.
  lra.
Qed.

Lemma arith_next (u S C A Z Z' : R) :
  0 < u < / 1000000000000000 ->
  1 <= S -> / 128 <= C <= 127 / 128 ->
  0 <= A -> A + S * C <= 4294967296 ->
  Z <= A * (1 + u) -> A * (1 - u) < Z + 1 ->
  Z' <= (A + S * C) * (1 + u) -> (A + S * C) * (1 - u) < Z' + 1 ->
  Z' < Z + S + 1 /\ Z < Z' + 1.
Proof.
  intros Hu HS HC HA HB HZ1 HZ2 HZ3 HZ4.
  assert (HSC1 : S * / 128 <= S * C) by (apply Rmult_le_compat_l; lra).
  assert (HSC2 : S * C <= S * (127 / 128))
    by (apply Rmult_le_compat_l; lra).
  set (P := S * C) in *. clearbody P.
  pose proof (mul_le_const u A (/ 1000000000000000) 4294967296
                ltac:(lra) ltac:(lra) ltac:(lra)) as uA.
  pose proof (mul_le_const u P (/ 1000000000000000) 4294967296
                ltac:(lra) ltac:(lra) ltac:(lra)) as uP.
  pose proof (prod_nonneg u A ltac:(lra) ltac:(lra)) as uA0.
  pose proof (prod_nonneg u P ltac:(lra) ltac:(lra)) as uP0.
  split; lra.
Qed.

(** The step count against the exact quotient: with [K] steps after the
    first, [K * (S * A) <= 100 * D] up to less than one unit, where
    [A / 100] is the exact multiplier and [C] the computed one. *)
Lemma arith_spec_upper (u D S C K M A d : R) :
  0 < u < / 1000000000000000 ->
  0 <= D <= 2147483647 -> 1 <= S -> 0 <= K ->
  S * K <= 1099511627776 -> S * K * C <= 4294967296 ->
  0 <= d <= / 50000000000000 ->
  A - d <= 100 * C -> 0 <= C ->
  S * C * (1 - u) <= M ->
  K * M <= D * (1 + u) ->
  K * (S * A) < 100 * D + 1.
Proof.
  intros Hu HD HS HK HP HT Hd HA HC HM HKM.
  assert (HP0 : 0 <= S * K) by (apply Rmult_le_pos; lra).
  assert (HT0 : 0 <= S * K * C) by (apply Rmult_le_pos; lra).
  assert (H1 : S * K * C * (1 - u) <= D * (1 + u)).
  { apply Rle_trans with (K * M); [|exact HKM].
    replace (S * K * C * (1 - u)) with (K * (S * C * (1 - u))) by ring.
    apply Rmult_le_compat_l; lra. }
  assert (H2 : S * K * (A - d) <= S * K * (100 * C))
    by (apply Rmult_le_compat_l; lra).
  pose proof (mul_le_const u D (/ 1000000000000000) 2147483647
                ltac:(lra) ltac:(lra) ltac:(lra)) as uD.
  pose proof (mul_le_const u (S * K * C) (/ 1000000000000000) 4294967296
                ltac:(lra) ltac:(lra) ltac:(lra)) as uT.
  pose proof (mul_le_const (S * K) d 1099511627776 (/ 50000000000000)
                ltac:(lra) ltac:(lra) ltac:(lra)) as Pd.
  replace (K * (S * A)) with (S * K * A) by ring.
  replace (S * K * (A - d)) with (S * K * A - S * K * d) in H2 by ring.
  replace (S * K * (100 * C)) with (100 * (S * K * C)) in H2 by ring.
  replace (S * K * C * (1 - u)) with (S * K * C - u * (S * K * C)) in H1
    by ring.
  replace (D * (1 + u)) with (D + u * D) in H1 by ring.
  set (T := S * K * C) in *. clearbody T.
  set (PA := S * K * A) in *. clearbody PA.
  set (PD := S * K * d) in *. clearbody PD.
  set (UD := u * D) in *. clearbody UD.
  set (UT := u * T) in *. clearbody UT.
  lra.
Qed.

Lemma arith_spec_lower (u D S C K M A d : R) :
  0 < u < / 1000000000000000 ->
  0 <= D -> 1 <= S -> D + S <= 2147483647 -> 0 <= K ->
  S * K <= 1099511627776 -> S * K * C <= 4294967296 ->
  0 <= d <= / 50000000000000 ->
  100 * C <= A + d -> 0 <= A <= 100 -> 0 <= C <= 1 ->
  M <= S * C * (1 + u) ->
  D * (1 - u) < (K + 1) * M ->
  100 * D - 1 < (K + 1) * (S * A).
Proof.
  intros Hu HD HS HDS HK HP HT Hd HA HA1 HC HM HKM.
  assert (HP0 : 0 <= S * K) by (apply Rmult_le_pos; lra).
  assert (HT0 : 0 <= S * K * C) by (apply Rmult_le_pos; lra).
  assert (HV0 : 0 <= S * C) by (apply Rmult_le_pos; lra).
  assert (HV1 : S * C <= 2147483647).
  { apply Rle_trans with (S * 1); [apply Rmult_le_compat_l; lra|lra]. }
  assert (H1 : D * (1 - u) < (S * K * C + S * C) * (1 + u)).
  { apply Rlt_le_trans with (1 := HKM).
    replace ((S * K * C + S * C) * (1 + u))
      with ((K + 1) * (S * C * (1 + u))) by ring.
    apply Rmult_le_compat_l; lra. }
  assert (H2 : (S * K + S) * (100 * C) <= (S * K + S) * (A + d))
    by (apply Rmult_le_compat_l; lra).
  pose proof (mul_le_const u D (/ 1000000000000000) 2147483647
                ltac:(lra) ltac:(lra) ltac:(lra)) as uD.
  pose proof (mul_le_const u (S * K * C + S * C) (/ 1000000000000000)
                6442450943 ltac:(lra) ltac:(lra) ltac:(lra)) as uW.
  pose proof (mul_le_const (S * K + S) d 1101659111423
                (/ 50000000000000) ltac:(lra) ltac:(lra) ltac:(lra))
    as Qd.
  replace ((K + 1) * (S * A)) with (S * K * A + S * A) by ring.
  replace ((S * K + S) * (100 * C)) with (100 * (S * K * C + S * C)) in H2
    by ring.
  replace ((S * K + S) * (A + d))
    with (S * K * A + S * A + (S * K + S) * d) in H2 by ring.
  replace (D * (1 - u)) with (D - u * D) in H1 by ring.
  replace ((S * K * C + S * C) * (1 + u))
    with (S * K * C + S * C + u * (S * K * C + S * C)) in H1 by ring.
  set (W := S * K * C + S * C) in *. clearbody W.
  set (QA := S * K * A + S * A) in *. clearbody QA.
  set (QD := (S * K + S) * d) in *. clearbody QD.
  set (UD := u * D) in *. clearbody UD.
  set (UW := u * W) in *. clearbody UW.
  lra.
Qed.

End ErrorBudget.

(** ** Multiplication by 1.0 and the multipliers below it *)

Section Exact.

Local Abbreviation digits p := (Zpos (digits2_pos p)).

Lemma cross_koef_0 : cross_koef 0 = Ok one.
Proof. vm_compute. reflexivity. Qed.

Lemma shift_52 (m : positive) :
  SpecFloat.iter_pos shr_1 52
    {| shr_m := Zpos (4503599627370496 * m);
       shr_r := false; shr_s := false |}
  = {| shr_m := Zpos m; shr_r := false; shr_s := false |}.
Proof. reflexivity. Qed.

Lemma digits_shift_52 (m : positive) :
  digits (4503599627370496 * m) = digits m + 52.
Proof. cbn [Pos.mul digits2_pos]. lia. Qed.

(** [x * 1.0] is [x]. *)
Lemma mul_one (s : bool) (x : spec_float) :
  fin s x -> PyFloat.mul x one = x.
Proof.
  intros (m & e & -> & Hm & He).
  unfold PyFloat.mul, PyFloat.prec, PyFloat.emax, one. cbn [SFmul].
  rewrite xorb_false_r, Pos.mul_comm.
  pose proof (digits_53 m Hm) as Hd.
  unfold binary_round_aux, shr_fexp. cbn [Zdigits2].
  rewrite digits_shift_52, Hd, fexp_eq.
  replace (Z.max (53 + 52 + (e + -52) - 53) (-1074) - (e + -52)) with 52
    by lia.
  cbn [shr shr_record_of_loc]. rewrite shift_52.
  cbn [shr_m loc_of_shr_record round_nearest_even Zdigits2].
  rewrite Hd, fexp_eq.
  replace (Z.max (53 + (e + -52 + 52) - 53) (-1074) - (e + -52 + 52))
    with 0 by lia.
  cbn [shr shr_record_of_loc shr_m].
  replace (e + -52 + 52 <=? 1024 - 53) with true
    by (symmetry; apply Z.leb_le; lia).
  f_equal. lia.
Qed.

Lemma cross_koef_gap_table : forallb cross_koef_gap_ok (range 100) = true.
Proof. vm_compute. reflexivity. Qed.

Lemma cross_koef_gap (o : Z) (c : spec_float) :
  0 <= o < 100 -> cross_koef o = Ok c ->
  c = one \/ (mag c <= 127 / 128)%R.
Proof.
  intros Ho Hc.
  pose proof (proj1 (forallb_forall _ _) cross_koef_gap_table o
                (in_range 100 o Ho)) as H.
  unfold cross_koef_gap_ok in H. rewrite Hc in H.
  destruct c as [| | |[|] m e]; try discriminate.
  destruct (o =? 0).
  - apply andb_prop in H. destruct H as [H1 H2].
    apply Z.eqb_eq in H1, H2. left. unfold one. subst e. f_equal.
    apply Pos2Z.inj. exact H1.
  - apply andb_prop in H. destruct H as [H1 H2].
    apply Z.leb_le in H1, H2. right. cbn [mag].
    assert (E : powerRZ 2 e = (IZR (2 ^ (e + 59)) * powerRZ 2 (-59))%R).
    { rewrite <- pow2_IZR, <- pow2_add by lia. f_equal. lia. }
    assert (P59 : powerRZ 2 (-59) = (/ 576460752303423488)%R).
    { rewrite pow2_neg by lia. reflexivity. }
    rewrite E, P59, <- Rmult_assoc, <- mult_IZR.
    assert (B : (IZR (Zpos m * 2 ^ (e + 59) * 128) <= IZR (127 * 2 ^ 59))%R)
      by (apply IZR_le; exact H2).
    rewrite mult_IZR in B.
    change (IZR (127 * 2 ^ 59)) with 73210515542534782976%R in B.
    lra.
Qed.

Lemma mag_one : mag one = 1%R.
Proof.
  unfold one. cbn [mag]. rewrite pow2_neg by lia.
  change (IZR (2 ^ (- -52))) with 4503599627370496%R. field.
Qed.

Lemma fin_one : fin false one.
Proof.
  exists 4503599627370496%positive, (-52). split; [reflexivity|lia].
Qed.

(** [float(n)] with its mantissa and exponent. *)
Lemma of_int_pos_Z (n : Z) :
  0 < n < 2 ^ 53 ->
  exists m e, PyFloat.of_int n = Ok (S754_finite false m e) /\
              2 ^ 52 <= Zpos m < 2 ^ 53 /\ -52 <= e <= 0 /\
              Zpos m = n * 2 ^ (- e).
Proof.
  intros Hn. destruct n as [|p|p]; try lia.
  unfold PyFloat.of_int, PyFloat.prec, PyFloat.emax. cbn [binary_normalize].
  pose proof (digits2_bounds p) as [Dlo Dhi].
  assert (Hd : digits p <= 53).
  { destruct (Z_le_gt_dec (digits p) 53) as [|Hc]; [assumption|exfalso].
    assert (2 ^ 53 <= 2 ^ (digits p - 1))
      by (apply Z.pow_le_mono_r; lia). lia. }
  unfold binary_round. rewrite fexp_eq.
  replace (Z.max (digits p + 0 - 53) (-1074)) with (digits p - 53) by lia.
  destruct (shl_align_m p 0 (digits p - 53) ltac:(lia)) as [A1 A2].
  destruct (shl_align p 0 (digits p - 53)) as [mz ez].
  cbn [fst snd] in A1, A2. subst ez.
  replace (0 - (digits p - 53)) with (53 - digits p) in A1 by lia.
  assert (Hmz : 2 ^ 52 <= Zpos mz < 2 ^ 53).
  { rewrite A1.
    replace (2 ^ 52) with (2 ^ (digits p - 1) * 2 ^ (53 - digits p))
      by (rewrite <- Z.pow_add_r by lia; f_equal; lia).
    replace (2 ^ 53) with (2 ^ digits p * 2 ^ (53 - digits p))
      by (rewrite <- Z.pow_add_r by lia; f_equal; lia).
    assert (0 < 2 ^ (53 - digits p)) by (apply Z.pow_pos_nonneg; lia).
    split; [apply Z.mul_le_mono_nonneg_r | apply Z.mul_lt_mono_pos_r]; lia. }
  rewrite binary_round_aux_exact by lia.
  exists mz, (digits p - 53). split; [reflexivity|]. split; [exact Hmz|].
  split; [lia|]. rewrite A1. f_equal. f_equal. lia.
Qed.

(** A mantissa of 54 bits whose last bit is 0 loses nothing. *)
Lemma binary_round_aux_even (s : bool) (m : positive) (e : Z) :
  2 ^ 52 <= Zpos m < 2 ^ 53 -> -1074 <= e <= 970 ->
  binary_round_aux 53 1024 s (Zpos m~0) e loc_Exact
  = S754_finite s m (e + 1).
Proof.
  intros Hm He. pose proof (digits_53 m Hm) as Hd.
  assert (Hd2 : digits m~0 = 54).
  { cbn [digits2_pos]. rewrite Pos2Z.inj_succ, Hd. reflexivity. }
  unfold binary_round_aux, shr_fexp. cbn [Zdigits2].
  rewrite Hd2, fexp_eq.
  replace (Z.max (54 + e - 53) (-1074) - e) with 1 by lia.
  cbn [shr shr_record_of_loc SpecFloat.iter_pos shr_1 shr_m
       loc_of_shr_record orb round_nearest_even Zdigits2].
  rewrite Hd, fexp_eq.
  replace (Z.max (53 + (e + 1) - 53) (-1074) - (e + 1)) with 0 by lia.
  cbn [shr shr_record_of_loc shr_m].
  replace (e + 1 <=? 1024 - 53) with true by (symmetry; apply Z.leb_le; lia).
  reflexivity.
Qed.

Lemma new_location_0 (n : Z) : new_location n 0 = loc_Exact.
Proof.
  unfold new_location, new_location_even, new_location_odd.
  destruct (Z.even n); reflexivity.
Qed.

(** The quotient of two integers, when it is an integer, is exact. *)
Lemma div_int_exact (k b : Z) (x y : spec_float) :
  1 <= k -> 1 <= b -> k * b < 2 ^ 53 ->
  PyFloat.of_int (k * b) = Ok x -> PyFloat.of_int b = Ok y ->
  PyFloat.to_int (SFdiv 53 1024 x y) = Ok k.
Proof.
  intros Hk Hb Hkb Hx Hy.
  destruct (of_int_pos_Z (k * b) ltac:(nia))
    as (m1 & e1 & Hx' & Hm1 & He1 & E1).
  destruct (of_int_pos_Z b ltac:(nia)) as (m2 & e2 & Hy' & Hm2 & He2 & E2).
  assert (x = S754_finite false m1 e1) by congruence.
  assert (y = S754_finite false m2 e2) by congruence. subst x y.
  clear Hx Hy Hx' Hy'.
  cbn [SFdiv xorb]. unfold SFdiv_core_binary.
  cbn [Zdigits2]. rewrite (digits_53 m1 Hm1), (digits_53 m2 Hm2), fexp_eq.
  assert (P1 : 0 < 2 ^ (- e1)) by (apply Z.pow_pos_nonneg; lia).
  assert (P2 : 0 < 2 ^ (- e2)) by (apply Z.pow_pos_nonneg; lia).
  (* the exponents are ordered as the integers are *)
  assert (He : e2 <= e1).
  { destruct (Z_le_gt_dec e2 e1) as [|Hc]; [assumption|exfalso].
    assert (2 ^ (- e2) * 2 <= 2 ^ (- e1)).
    { replace (- e1) with (- e2 + 1 + (- e1 + e2 - 1)) by lia.
      rewrite !Z.pow_add_r by lia. change (2 ^ 1) with 2.
      assert (1 <= 2 ^ (- e1 + e2 - 1))
        by (apply (Z.pow_le_mono_r 2 0); lia).
      nia. }
    assert (b * 2 ^ (- e2) * 2 <= k * b * 2 ^ (- e1)) by nia.
    lia. }
  replace (Z.min (Z.max (53 + e1 - (53 + e2) - 53) (-1074)) (e1 - e2))
    with (e1 - e2 - 53) by lia.
  replace (e1 - e2 - (e1 - e2 - 53)) with 53 by lia.
  rewrite Z.shiftl_mul_pow2 by lia.
  set (t := 53 - (e1 - e2)).
  assert (Ht : 1 <= t) by (unfold t; lia).
  assert (Hq : Zpos m1 * 2 ^ 53 = k * 2 ^ t * Zpos m2).
  { rewrite E1, E2. unfold t.
    replace (2 ^ 53) with (2 ^ (53 - (e1 - e2)) * 2 ^ (e1 - e2))
      by (rewrite <- Z.pow_add_r by lia; f_equal; lia).
    replace (2 ^ (- e2)) with (2 ^ (e1 - e2) * 2 ^ (- e1))
      by (rewrite <- Z.pow_add_r by lia; f_equal; lia).
    ring. }
  assert (Hdiv : Z.div_eucl (Zpos m1 * 2 ^ 53) (Zpos m2) = (k * 2 ^ t, 0)).
  { pose proof (Z.div_eucl_eq (Zpos m1 * 2 ^ 53) (Zpos m2) ltac:(lia)) as D.
    pose proof (Z.mod_pos_bound (Zpos m1 * 2 ^ 53) (Zpos m2) ltac:(lia))
      as B.
    unfold Z.modulo in B.
    destruct (Z.div_eucl (Zpos m1 * 2 ^ 53) (Zpos m2)) as [q r].
    assert (r = 0 /\ q = k * 2 ^ t).
    { assert (Zpos m2 * (q - k * 2 ^ t) + r = 0) by lia.
      assert (q - k * 2 ^ t = 0) by nia. lia. }
    destruct H as [-> ->]. reflexivity. }
  rewrite Hdiv, new_location_0.
  assert (Pt : 0 < 2 ^ t) by (apply Z.pow_pos_nonneg; lia).
  assert (Hlo : 2 ^ 52 <= k * 2 ^ t).
  { assert (2 ^ 52 * Zpos m2 <= k * 2 ^ t * Zpos m2).
    { rewrite <- Hq. change (2 ^ 53) with (2 * 2 ^ 52). nia. }
    nia. }
  assert (Hhi : k * 2 ^ t < 2 ^ 54).
  { assert (k * 2 ^ t * Zpos m2 < 2 ^ 54 * Zpos m2).
    { rewrite <- Hq. change (2 ^ 54) with (2 * 2 ^ 53). nia. }
    nia. }
  destruct (Z_lt_le_dec (k * 2 ^ t) (2 ^ 53)) as [Hs | Hl].
  - destruct (k * 2 ^ t) as [|pq|pq] eqn:Eq; try lia.
    rewrite binary_round_aux_exact by lia.
    cbn [PyFloat.to_int cond_Zopp]. unfold PyFloat.trunc_mag.
    replace (0 <=? e1 - e2 - 53) with false
      by (symmetry; apply Z.leb_gt; lia).
    f_equal. rewrite <- Eq.
    replace (- (e1 - e2 - 53)) with t by (unfold t; lia).
    apply Z.div_mul. lia.
  - assert (Ev : k * 2 ^ t = 2 * (k * 2 ^ (t - 1))).
    { replace t with (1 + (t - 1)) at 1 by lia.
      rewrite Z.pow_add_r by lia. change (2 ^ 1) with 2. ring. }
    assert (Pt1 : 0 < 2 ^ (t - 1)) by (apply Z.pow_pos_nonneg; lia).
    destruct (k * 2 ^ (t - 1)) as [|ph|ph] eqn:Eh; try lia.
    rewrite Ev. change (2 * Zpos ph) with (Zpos ph~0).
    rewrite binary_round_aux_even by lia.
    cbn [PyFloat.to_int cond_Zopp]. unfold PyFloat.trunc_mag.
    f_equal. rewrite <- Eh.
    destruct (Z.leb_spec 0 (e1 - e2 - 53 + 1)) as [Hge | Hlt].
    + replace (e1 - e2 - 53 + 1) with 0 by lia.
      replace (t - 1) with 0 by (unfold t; lia).
      change (2 ^ 0) with 1. lia.
    + replace (- (e1 - e2 - 53 + 1)) with (t - 1) by (unfold t; lia).
      apply Z.div_mul. lia.
Qed.

End Exact.

(** ** One axis of the grid: an image at least one tile long *)

Section Axis.

Local Open Scope R_scope.

Variables (dim shape : Z) (c : spec_float).
Hypothesis Hc : fin false c.
Hypothesis HC : / 128 <= mag c <= 1.
Hypothesis Hshape : (1 <= shape <= dim)%Z.
Hypothesis Hdim : (dim <= 2147483647)%Z.

Lemma shape_real : 1 <= IZR shape <= 2147483647.
Proof. split; apply IZR_le; lia. Qed.

Lemma rest_real : 0 <= IZR (dim - shape) <= 2147483647.
Proof. split; apply IZR_le; lia. Qed.

Lemma big_inv : / big = / 1152921504606846976.
Proof. reflexivity. Qed.

(** [shape * cross_koef] *)
Lemma stride_ok :
  exists s, PyFloat.int_mul shape c = Ok s /\ fin false s /\
            IZR shape * mag c * (1 - u) <= mag s
                                        <= IZR shape * mag c * (1 + u).
Proof.
  destruct (of_int_pos shape ltac:(lia)) as (x & Hx & Hxf & Hxv).
  unfold PyFloat.int_mul. rewrite Hx. cbn [bind].
  exists (PyFloat.mul x c). split; [reflexivity|].
  rewrite <- Hxv. apply (mul_rel false false); try assumption.
  rewrite Hxv. pose proof shape_real. unfold big. split; [|nra].
  apply Rle_trans with (/ 128); [lra|nra].
Qed.

Section Stride.

Variable s : spec_float.
Hypothesis Hs : PyFloat.int_mul shape c = Ok s.
Hypothesis Hsf : fin false s.
Hypothesis Hsb : IZR shape * mag c * (1 - u) <= mag s
                                             <= IZR shape * mag c * (1 + u).

Lemma stride_range : / 256 <= mag s <= 4294967296.
Proof.
  pose proof shape_real. pose proof u_bounds. split.
  - apply Rle_trans with (2 := proj1 Hsb). nra.
  - apply Rle_trans with (1 := proj2 Hsb). nra.
Qed.

Lemma s_not_zero : PyFloat.is_zero s = false.
Proof. destruct Hsf as (m & e & -> & _). reflexivity. Qed.

(** [int((dim - shape) / (shape * cross_koef)) + 1] *)
Lemma steps_ok :
  exists k, steps dim shape c = Ok (k + 1)%Z /\ (0 <= k)%Z /\
            IZR k * mag s <= IZR (dim - shape) * (1 + u).
Proof.
  unfold steps. rewrite Hs. cbn [bind]. unfold PyFloat.int_div.
  pose proof u_bounds as Hu. pose proof stride_range as Hr.
  pose proof rest_real as Hd.
  destruct (Z.eq_dec dim shape) as [E | E].
  - replace (dim - shape)%Z with 0%Z by lia.
    rewrite of_int_zero. cbn [bind]. unfold PyFloat.div.
    rewrite s_not_zero.
    destruct Hsf as (m & e & -> & _). cbn [SFdiv bind PyFloat.to_int].
    exists 0%Z. split; [reflexivity|]. split; [lia|]. lra.
  - destruct (of_int_pos (dim - shape) ltac:(lia)) as (x & Hx & Hxf & Hxv).
    rewrite Hx. cbn [bind]. unfold PyFloat.div. rewrite s_not_zero.
    cbn [bind]. unfold PyFloat.prec, PyFloat.emax.
    assert (Hd1 : 1 <= IZR (dim - shape)) by (apply IZR_le; lia).
    assert (Hq : / big <= mag x / mag s <= big).
    { rewrite Hxv. unfold big. split.
      - apply Rmult_le_reg_r with (mag s); [lra|].
        replace (IZR (dim - shape) / mag s * mag s)
          with (IZR (dim - shape)) by (field; lra). nra.
      - apply Rmult_le_reg_r with (mag s); [lra|].
        replace (IZR (dim - shape) / mag s * mag s)
          with (IZR (dim - shape)) by (field; lra). nra. }
    destruct (div_rel false false x s Hxf Hsf Hq) as [Hqf [_ Hqb]].
    cbn [xorb] in Hqf.
    destruct Hqf as (m & e & Eq & Hm & He). rewrite Eq in *.
    destruct (to_int_pos m e) as (z & Hz & Hz0 & Hz1 & _).
    rewrite Hz. cbn [bind]. exists z.
    split; [reflexivity|]. split; [exact Hz0|].
    rewrite Hxv in Hqb.
    apply Rle_trans with (mag (S754_finite false m e) * mag s).
    + apply Rmult_le_compat_r; lra.
    + apply Rle_trans
        with (IZR (dim - shape) / mag s * (1 + u) * mag s).
      * apply Rmult_le_compat_r; lra.
      * apply Req_le. field. lra.
Qed.

(** The step count is not too small either. *)
Lemma steps_lower :
  exists k, steps dim shape c = Ok (k + 1)%Z /\ (0 <= k)%Z /\
            IZR (dim - shape) * (1 - u) < (IZR k + 1) * mag s.
Proof.
  unfold steps. rewrite Hs. cbn [bind]. unfold PyFloat.int_div.
  pose proof u_bounds as Hu. pose proof stride_range as Hr.
  pose proof rest_real as Hd.
  destruct (Z.eq_dec dim shape) as [E | E].
  - replace (dim - shape)%Z with 0%Z by lia.
    rewrite of_int_zero. cbn [bind]. unfold PyFloat.div.
    rewrite s_not_zero.
    destruct Hsf as (m & e & -> & _). cbn [SFdiv bind PyFloat.to_int].
    exists 0%Z. split; [reflexivity|]. split; [lia|].
    cbn [mag] in *. lra.
  - destruct (of_int_pos (dim - shape) ltac:(lia)) as (x & Hx & Hxf & Hxv).
    rewrite Hx. cbn [bind]. unfold PyFloat.div. rewrite s_not_zero.
    cbn [bind]. unfold PyFloat.prec, PyFloat.emax.
    assert (Hd1 : 1 <= IZR (dim - shape)) by (apply IZR_le; lia).
    assert (Hq : / big <= mag x / mag s <= big).
    { rewrite Hxv. unfold big. split.
      - apply Rmult_le_reg_r with (mag s); [lra|].
        replace (IZR (dim - shape) / mag s * mag s)
          with (IZR (dim - shape)) by (field; lra). nra.
      - apply Rmult_le_reg_r with (mag s); [lra|].
        replace (IZR (dim - shape) / mag s * mag s)
          with (IZR (dim - shape)) by (field; lra). nra. }
    destruct (div_rel false false x s Hxf Hsf Hq) as [Hqf [Hqa _]].
    cbn [xorb] in Hqf.
    destruct Hqf as (m & e & Eq & Hm & He). rewrite Eq in *.
    destruct (to_int_pos m e) as (z & Hz & Hz0 & _ & Hz2).
    rewrite Hz. cbn [bind]. exists z.
    split; [reflexivity|]. split; [exact Hz0|].
    rewrite Hxv in Hqa.
    apply Rle_lt_trans with (mag (S754_finite false m e) * mag s).
    + apply Rle_trans
        with (IZR (dim - shape) / mag s * (1 - u) * mag s).
      * apply Req_le. field. lra.
      * apply Rmult_le_compat_r; lra.
    + apply Rmult_lt_compat_r; lra.
Qed.

(** With the multiplier 1.0 the step count is the integer quotient
    of the image by the tile. *)
Lemma steps_one : c = one -> steps dim shape c = Ok (dim / shape)%Z.
Proof.
  intros Ec. pose proof u_bounds as Hu. pose proof rest_real as Hd.
  pose proof shape_real as HS.
  destruct steps_ok as (k & Hk & Hk0 & Hkb).
  destruct steps_lower as (k' & Hk' & _ & Hlow).
  assert (k' = k) by (rewrite Hk in Hk'; injection Hk'; lia).
  subst k'.
  destruct (of_int_pos shape ltac:(lia)) as (y & Hy & Hyf & Hyv).
  assert (Ey : s = y).
  { pose proof Hs as Hs'. unfold PyFloat.int_mul in Hs'.
    rewrite Hy in Hs'. cbn [bind] in Hs'.
    rewrite Ec, (mul_one false y Hyf) in Hs'. congruence. }
  assert (Es : mag s = IZR shape) by (rewrite Ey; exact Hyv).
  rewrite Es in Hkb, Hlow.
  pose proof (mul_le_const u (IZR (dim - shape))
                (/ 1000000000000000) 2147483647
                ltac:(lra) ltac:(lra) ltac:(lra)) as uD.
  assert (B1 : (k * shape < dim - shape + 1)%Z).
  { apply lt_IZR. rewrite plus_IZR, mult_IZR. lra. }
  assert (B2 : (dim - shape - 1 < (k + 1) * shape)%Z).
  { apply lt_IZR. rewrite minus_IZR, mult_IZR, plus_IZR. lra. }
  destruct (Z.eq_dec (dim - shape) ((k + 1) * shape)) as [E | E].
  - exfalso.
    destruct (of_int_pos (dim - shape) ltac:(nia)) as (x & Hx & _ & _).
    assert (Hex : PyFloat.to_int (SFdiv 53 1024 x y) = Ok (k + 1)%Z).
    { apply (div_int_exact (k + 1) shape x y); try lia.
      - rewrite <- E. exact Hx.
      - exact Hy. }
    unfold steps in Hk. rewrite Hs in Hk. cbn [bind] in Hk.
    unfold PyFloat.int_div in Hk. rewrite Hx in Hk. cbn [bind] in Hk.
    unfold PyFloat.div in Hk. rewrite s_not_zero in Hk.
    cbn [bind] in Hk. unfold PyFloat.prec, PyFloat.emax in Hk.
    rewrite Ey, Hex in Hk. cbn [bind] in Hk. injection Hk. lia.
  - rewrite Hk. f_equal.
    apply (Z.div_unique_pos dim shape (k + 1) (dim - (k + 1) * shape));
      lia.
Qed.

Section Count.

Variable k : Z.
Hypothesis Hk0 : (0 <= k)%Z.
Hypothesis Hkb : IZR k * mag s <= IZR (dim - shape) * (1 + u).

Lemma axis_sum : IZR (dim - shape) + IZR shape <= 2147483647.
Proof. rewrite <- plus_IZR. apply IZR_le. lia. Qed.

Lemma count_real : 0 <= IZR k.
Proof. apply IZR_le. exact Hk0. Qed.

Lemma index_range :
  IZR shape * IZR k <= 1099511627776 /\
  IZR shape * IZR k * mag c <= 4294967296.
Proof.
  apply (arith_index u (IZR (dim - shape)) (IZR shape) (mag c)
           (IZR k) (mag s)); try assumption.
  - exact u_bounds.
  - exact (proj1 rest_real).
  - exact (proj1 shape_real).
  - exact axis_sum.
  - exact count_real.
  - exact (proj1 Hsb).
Qed.

Lemma count_small : (k < 2 ^ 53)%Z.
Proof.
  apply lt_IZR. pose proof index_range as [H _].
  pose proof shape_real as [HS _]. pose proof count_real as HK.
  assert (IZR k <= IZR shape * IZR k).
  { rewrite <- (Rmult_1_l (IZR k)) at 1.
    apply Rmult_le_compat_r; lra. }
  change (IZR (2 ^ 53)) with 9007199254740992. lra.
Qed.

(** [round((steps - 1) * (shape * cross_koef) + shape)] *)
Lemma new_size_ok :
  exists new, new_size (k + 1) shape c = Ok new /\
              (shape <= new <= dim)%Z /\
              (IZR k * mag s * (1 - u) + IZR shape) * (1 - u) - / 2
              <= IZR new.
Proof.
  unfold new_size. rewrite Hs. cbn [bind].
  replace (k + 1 - 1)%Z with k by lia.
  pose proof u_bounds as Hu. pose proof stride_range as Hr.
  pose proof rest_real as Hd. pose proof shape_real as HS.
  pose proof axis_sum as Hsum. pose proof count_real as HK.
  destruct (of_int_pos shape ltac:(lia)) as (x & Hx & Hxf & Hxv).
  unfold PyFloat.int_mul, PyFloat.add_int. rewrite Hx.
  destruct (Z.eq_dec k 0) as [E | E].
  - subst k. rewrite of_int_zero. cbn [bind].
    destruct Hsf as (ms & es & -> & _).
    destruct Hxf as (mx & ex & -> & _).
    unfold PyFloat.mul, PyFloat.add. cbn [SFmul xorb SFadd].
    destruct (round_pos mx ex) as (z & Hz & Hz0 & Hz1 & Hz2).
    rewrite Hz. exists z. split; [reflexivity|].
    rewrite Hxv in Hz1, Hz2.
    assert (Ez : z = shape).
    { assert (z < shape + 1)%Z
        by (apply lt_IZR; rewrite plus_IZR; lra).
      assert (shape < z + 1)%Z
        by (apply lt_IZR; rewrite plus_IZR; lra).
      lia. }
    subst z. split; [lia|].
    pose proof (prod_nonneg u (IZR shape) ltac:(lra) ltac:(lra)).
    cbn [mag] in *. lra.
  - destruct (of_int_pos k ltac:(pose proof count_small; lia))
      as (xk & Hxk & Hxkf & Hxkv).
    rewrite Hxk. cbn [bind].
    assert (Hk1 : 1 <= IZR k) by (apply IZR_le; lia).
    assert (HX0 : / 256 <= IZR k * mag s).
    { apply Rle_trans with (1 * mag s); [lra|].
      apply Rmult_le_compat_r; lra. }
    pose proof (mul_le_const u (IZR (dim - shape))
                  (/ 1000000000000000) 2147483647
                  ltac:(lra) ltac:(lra) ltac:(lra)) as uD.
    assert (Hq : / big <= mag xk * mag s <= big).
    { rewrite Hxkv. unfold big. split; lra. }
    destruct (mul_rel false false xk s Hxkf Hsf Hq) as [Hpf Hpb].
    cbn [xorb] in Hpf. rewrite Hxkv in Hpb.
    set (p := PyFloat.mul xk s) in *.
    set (X := IZR k * mag s) in *.
    pose proof (mul_le_const u X (/ 1000000000000000) 2147483648
                  ltac:(lra) ltac:(lra) ltac:(lra)) as uX.
    pose proof (prod_nonneg u X ltac:(lra) ltac:(lra)) as uX0.
    assert (Hp0 : 0 <= mag p) by lra.
    assert (Ha : / big <= mag p + mag x <= big).
    { rewrite Hxv. unfold big. split; lra. }
    destruct (add_rel p x Hpf Hxf Ha) as [Hbf Hbb].
    rewrite Hxv in Hbb.
    destruct Hbf as (mb & eb & Eb & _).
    destruct (round_pos mb eb) as (z & Hz & Hz0 & Hz1 & Hz2).
    rewrite Eb in *. rewrite Hz. exists z. split; [reflexivity|].
    set (B := mag (S754_finite false mb eb)) in *.
    assert (Hup : B < IZR (dim - shape) + IZR shape + / 4).
    { apply (arith_upper u (IZR (dim - shape)) (IZR shape) X (mag p) B);
        try assumption; lra. }
    assert (Hlo : IZR shape - / 4 < B).
    { apply (arith_lower u (IZR shape) (mag p) B); try assumption.
      lra. }
    rewrite <- plus_IZR in Hup.
    replace (dim - shape + shape)%Z with dim in Hup by lia.
    split.
    + split.
      * assert (shape < z + 1)%Z
          by (apply lt_IZR; rewrite plus_IZR; lra). lia.
      * assert (z < dim + 1)%Z
          by (apply lt_IZR; rewrite plus_IZR; lra). lia.
    + apply Rle_trans with (B - / 2); [|lra].
      apply Rplus_le_compat_r.
      apply Rle_trans with (2 := proj1 Hbb).
      apply Rmult_le_compat_r; lra.
Qed.

(** [int(shape * idx * cross_koef)] for an index up to the last. *)
Lemma start_ok (new j : Z) :
  (shape <= new)%Z ->
  (IZR k * mag s * (1 - u) + IZR shape) * (1 - u) - / 2 <= IZR new ->
  (0 <= j <= k)%Z ->
  exists st, start shape j c = Ok st /\
             (0 <= st)%Z /\ (st + shape <= new)%Z.
Proof.
  intros Hnew Hnb Hj. unfold start, PyFloat.int_mul.
  pose proof u_bounds as Hu. pose proof shape_real as HS.
  pose proof axis_sum as Hsum. pose proof count_real as HK.
  pose proof rest_real as Hd.
  destruct (Z.eq_dec j 0) as [E | E].
  - subst j. rewrite Z.mul_0_r, of_int_zero. cbn [bind].
    destruct Hc as (mc & ec & -> & _).
    unfold PyFloat.mul. cbn [SFmul xorb PyFloat.to_int].
    exists 0%Z. split; [reflexivity|]. lia.
  - assert (Hj1 : 1 <= IZR j) by (apply IZR_le; lia).
    assert (Hjk : IZR j <= IZR k) by (apply IZR_le; lia).
    pose proof index_range as [I1 I2].
    assert (Hsj : IZR shape * IZR j <= IZR shape * IZR k)
      by (apply Rmult_le_compat_l; lra).
    assert (Hsj1 : 1 <= IZR shape * IZR j).
    { apply Rle_trans with (1 * IZR j); [lra|].
      apply Rmult_le_compat_r; lra. }
    assert (Hsmall : (0 < shape * j < 2 ^ 53)%Z).
    { split; [nia|]. apply lt_IZR. rewrite mult_IZR.
      change (IZR (2 ^ 53)) with 9007199254740992. lra. }
    destruct (of_int_pos (shape * j) Hsmall) as (x & Hx & Hxf & Hxv).
    rewrite Hx. cbn [bind]. rewrite mult_IZR in Hxv.
    assert (HSC : 0 <= IZR shape * mag c)
      by (apply Rmult_le_pos; lra).
    assert (Hjc : IZR shape * IZR j * mag c
                  <= IZR shape * IZR k * mag c).
    { apply Rmult_le_compat_r; lra. }
    assert (Hjc1 : / 128 <= IZR shape * IZR j * mag c).
    { apply Rle_trans with (1 * mag c); [lra|].
      apply Rmult_le_compat_r; lra. }
    assert (Hq : / big <= mag x * mag c <= big).
    { rewrite Hxv. unfold big. split; lra. }
    destruct (mul_rel false false x c Hxf Hc Hq) as [Haf [_ Hab]].
    cbn [xorb] in Haf. rewrite Hxv in Hab.
    destruct Haf as (ma & ea & Ea & _). rewrite Ea in *.
    destruct (to_int_pos ma ea) as (z & Hz & Hz0 & Hz1 & _).
    rewrite Hz. exists z. split; [reflexivity|]. split; [exact Hz0|].
    assert (Hfit : IZR z + IZR shape < IZR new + 1).
    { apply (arith_fit u (IZR (dim - shape)) (IZR shape) (mag c)
               (IZR k) (IZR j) (mag s)); try assumption; lra. }
    assert (z + shape < new + 1)%Z
      by (apply lt_IZR; rewrite !plus_IZR; lra).
    lia.
Qed.

(** The origin of tile [j], within one unit of its real value. *)
Lemma start_bounds (j : Z) :
  (0 <= j <= k)%Z ->
  exists z, start shape j c = Ok z /\ (0 <= z)%Z /\
            IZR z <= IZR shape * IZR j * mag c * (1 + u) /\
            IZR shape * IZR j * mag c * (1 - u) < IZR z + 1.
Proof.
  intros Hj. unfold start, PyFloat.int_mul.
  pose proof u_bounds as Hu. pose proof shape_real as HS.
  pose proof axis_sum as Hsum. pose proof count_real as HK.
  pose proof rest_real as Hd.
  destruct (Z.eq_dec j 0) as [E | E].
  - subst j. rewrite Z.mul_0_r, of_int_zero. cbn [bind].
    destruct Hc as (mc & ec & -> & _).
    unfold PyFloat.mul. cbn [SFmul xorb PyFloat.to_int].
    exists 0%Z. split; [reflexivity|]. split; [lia|].
    rewrite !Rmult_0_r, !Rmult_0_l. lra.
  - assert (Hj1 : 1 <= IZR j) by (apply IZR_le; lia).
    assert (Hjk : IZR j <= IZR k) by (apply IZR_le; lia).
    pose proof index_range as [I1 I2].
    assert (Hsj : IZR shape * IZR j <= IZR shape * IZR k)
      by (apply Rmult_le_compat_l; lra).
    assert (Hsj1 : 1 <= IZR shape * IZR j).
    { apply Rle_trans with (1 * IZR j); [lra|].
      apply Rmult_le_compat_r; lra. }
    assert (Hsmall : (0 < shape * j < 2 ^ 53)%Z).
    { split; [nia|]. apply lt_IZR. rewrite mult_IZR.
      change (IZR (2 ^ 53)) with 9007199254740992. lra. }
    destruct (of_int_pos (shape * j) Hsmall) as (x & Hx & Hxf & Hxv).
    rewrite Hx. cbn [bind]. rewrite mult_IZR in Hxv.
    assert (Hjc : IZR shape * IZR j * mag c
                  <= IZR shape * IZR k * mag c).
    { apply Rmult_le_compat_r; lra. }
    assert (Hjc1 : / 128 <= IZR shape * IZR j * mag c).
    { apply Rle_trans with (1 * mag c); [lra|].
      apply Rmult_le_compat_r; lra. }
    assert (Hq : / big <= mag x * mag c <= big).
    { rewrite Hxv. unfold big. split; lra. }
    destruct (mul_rel false false x c Hxf Hc Hq) as [Haf Hab].
    cbn [xorb] in Haf. rewrite Hxv in Hab.
    destruct Haf as (ma & ea & Ea & _). rewrite Ea in *.
    destruct (to_int_pos ma ea) as (z & Hz & Hz0 & Hz1).
    rewrite Hz. exists z. split; [reflexivity|]. split; [exact Hz0|].
    split; lra.
Qed.

(** The canvas is not longer than its real value and a half. *)
Lemma new_size_upper :
  exists new, new_size (k + 1) shape c = Ok new /\
              IZR new
              <= (IZR k * mag s * (1 + u) + IZR shape) * (1 + u) + / 2.
Proof.
  unfold new_size. rewrite Hs. cbn [bind].
  replace (k + 1 - 1)%Z with k by lia.
  pose proof u_bounds as Hu. pose proof stride_range as Hr.
  pose proof rest_real as Hd. pose proof shape_real as HS.
  pose proof axis_sum as Hsum. pose proof count_real as HK.
  destruct (of_int_pos shape ltac:(lia)) as (x & Hx & Hxf & Hxv).
  unfold PyFloat.int_mul, PyFloat.add_int. rewrite Hx.
  destruct (Z.eq_dec k 0) as [E | E].
  - subst k. rewrite of_int_zero. cbn [bind].
    destruct Hsf as (ms & es & -> & _).
    destruct Hxf as (mx & ex & -> & _).
    unfold PyFloat.mul, PyFloat.add. cbn [SFmul xorb SFadd].
    destruct (round_pos mx ex) as (z & Hz & Hz0 & Hz1 & Hz2).
    rewrite Hz. exists z. split; [reflexivity|].
    rewrite Hxv in Hz1, Hz2.
    pose proof (prod_nonneg u (IZR shape) ltac:(lra) ltac:(lra)).
    cbn [mag] in *. lra.
  - destruct (of_int_pos k ltac:(pose proof count_small; lia))
      as (xk & Hxk & Hxkf & Hxkv).
    rewrite Hxk. cbn [bind].
    assert (Hk1 : 1 <= IZR k) by (apply IZR_le; lia).
    assert (HX0 : / 256 <= IZR k * mag s).
    { apply Rle_trans with (1 * mag s); [lra|].
      apply Rmult_le_compat_r; lra. }
    pose proof (mul_le_const u (IZR (dim - shape))
                  (/ 1000000000000000) 2147483647
                  ltac:(lra) ltac:(lra) ltac:(lra)) as uD.
    assert (Hq : / big <= mag xk * mag s <= big).
    { rewrite Hxkv. unfold big. split; lra. }
    destruct (mul_rel false false xk s Hxkf Hsf Hq) as [Hpf Hpb].
    cbn [xorb] in Hpf. rewrite Hxkv in Hpb.
    set (p := PyFloat.mul xk s) in *.
    set (X := IZR k * mag s) in *.
    pose proof (mul_le_const u X (/ 1000000000000000) 2147483648
                  ltac:(lra) ltac:(lra) ltac:(lra)) as uX.
    pose proof (prod_nonneg u X ltac:(lra) ltac:(lra)) as uX0.
    assert (Hp0 : 0 <= mag p) by lra.
    assert (Ha : / big <= mag p + mag x <= big).
    { rewrite Hxv. unfold big. split; lra. }
    destruct (add_rel p x Hpf Hxf Ha) as [Hbf Hbb].
    rewrite Hxv in Hbb.
    destruct Hbf as (mb & eb & Eb & _).
    destruct (round_pos mb eb) as (z & Hz & Hz0 & Hz1 & Hz2).
    rewrite Eb in *. rewrite Hz. exists z. split; [reflexivity|].
    set (B := mag (S754_finite false mb eb)) in *.
    apply Rle_trans with (B + / 2); [lra|].
    apply Rplus_le_compat_r.
    apply Rle_trans with (1 := proj2 Hbb).
    apply Rmult_le_compat_r; lra.
Qed.

(** With the multiplier 1.0 the origins are the multiples of the
    tile. *)
Lemma start_one (j : Z) :
  c = one -> (0 <= j <= k)%Z -> start shape j c = Ok (shape * j)%Z.
Proof.
  intros Ec Hj. unfold start, PyFloat.int_mul.
  pose proof shape_real as HS. pose proof count_real as HK.
  destruct (Z.eq_dec j 0) as [E | E].
  - subst j. rewrite Z.mul_0_r, of_int_zero. cbn [bind].
    rewrite Ec. reflexivity.
  - assert (Hj1 : 1 <= IZR j) by (apply IZR_le; lia).
    assert (Hjk : IZR j <= IZR k) by (apply IZR_le; lia).
    pose proof index_range as [I1 I2].
    assert (Hsj : IZR shape * IZR j <= IZR shape * IZR k)
      by (apply Rmult_le_compat_l; lra).
    assert (Hsmall : (0 < shape * j < 2 ^ 53)%Z).
    { split; [nia|]. apply lt_IZR. rewrite mult_IZR.
      change (IZR (2 ^ 53)) with 9007199254740992. lra. }
    destruct (of_int_pos (shape * j) Hsmall) as (x & Hx & Hxf & Hxv).
    rewrite Hx. cbn [bind]. rewrite Ec, (mul_one false x Hxf).
    destruct Hxf as (mx & ex & -> & _).
    destruct (to_int_pos mx ex) as (z & Hz & Hz0 & Hz1).
    rewrite Hz. f_equal. rewrite Hxv in Hz1.
    assert (z < shape * j + 1)%Z
      by (apply lt_IZR; rewrite plus_IZR; lra).
    assert (shape * j < z + 1)%Z
      by (apply lt_IZR; rewrite plus_IZR; lra).
    lia.
Qed.

(** With the multiplier 1.0 the canvas is a whole number of tiles. *)
Lemma new_size_one :
  c = one -> new_size (k + 1) shape c = Ok ((k + 1) * shape)%Z.
Proof.
  intros Ec.
  pose proof u_bounds as Hu. pose proof shape_real as HS.
  pose proof count_real as HK. pose proof rest_real as Hd.
  pose proof axis_sum as Hsum.
  destruct new_size_ok as (new & Hn & _ & Hlo).
  destruct new_size_upper as (new' & Hn' & Hup).
  assert (new' = new) by congruence. subst new'.
  rewrite Hn. f_equal.
  assert (Es : mag s = IZR shape).
  { destruct (of_int_pos shape ltac:(lia)) as (y & Hy & Hyf & Hyv).
    pose proof Hs as Hs'. unfold PyFloat.int_mul in Hs'.
    rewrite Hy in Hs'. cbn [bind] in Hs'.
    rewrite Ec, (mul_one false y Hyf) in Hs'. injection Hs' as <-.
    exact Hyv. }
  rewrite Es in Hlo, Hup. pose proof Hkb as Hkb'. rewrite Es in Hkb'.
  pose proof (mul_le_const u (IZR (dim - shape))
                (/ 1000000000000000) 2147483647
                ltac:(lra) ltac:(lra) ltac:(lra)) as uD.
  pose proof (mul_le_const u (IZR shape) (/ 1000000000000000)
                2147483647 ltac:(lra) ltac:(lra) ltac:(lra)) as uS.
  assert (HX0 : 0 <= IZR k * IZR shape) by (apply Rmult_le_pos; lra).
  set (X := IZR k * IZR shape) in *.
  pose proof (mul_le_const u X (/ 1000000000000000) 2147483648
                ltac:(lra) ltac:(lra) ltac:(lra)) as uX.
  pose proof (prod_nonneg u X ltac:(lra) ltac:(lra)) as uX0.
  pose proof (mul_le_const u (u * X) (/ 1000000000000000) 1
                ltac:(lra) ltac:(lra) ltac:(lra)) as uuX.
  pose proof (prod_nonneg u (u * X) ltac:(lra) uX0) as uuX0.
  assert (N1 : IZR new < X + IZR shape + 1) by lra.
  assert (N2 : X + IZR shape - 1 < IZR new) by lra.
  unfold X in N1, N2.
  assert (new < k * shape + shape + 1)%Z
    by (apply lt_IZR; rewrite !plus_IZR, mult_IZR; exact N1).
  assert (k * shape + shape - 1 < new)%Z
    by (apply lt_IZR; rewrite minus_IZR, plus_IZR, mult_IZR;
        exact N2).
  lia.
Qed.

(** Two tiles in a row: the second starts where the first starts or
    further, and not beyond the end of the first. *)
Lemma start_next (j a b : Z) :
  c = one \/ mag c <= 127 / 128 ->
  (0 <= j)%Z -> (j + 1 <= k)%Z ->
  start shape j c = Ok a -> start shape (j + 1) c = Ok b ->
  (a <= b <= a + shape)%Z.
Proof.
  intros [Ec | Hgap] Hj0 Hj1 Ha Hb.
  - rewrite (start_one j Ec) in Ha by lia.
    rewrite (start_one (j + 1) Ec) in Hb by lia.
    injection Ha as <-. injection Hb as <-. nia.
  - pose proof u_bounds as Hu. pose proof shape_real as HS.
    pose proof count_real as HK.
    destruct (start_bounds j ltac:(lia)) as (z & Ez & _ & Z1 & Z2).
    destruct (start_bounds (j + 1) ltac:(lia))
      as (z' & Ez' & _ & Z3 & Z4).
    assert (z = a) by congruence. assert (z' = b) by congruence.
    subst z z'.
    assert (Hj : 0 <= IZR j) by (apply IZR_le; lia).
    assert (Hjk : IZR (j + 1) <= IZR k) by (apply IZR_le; lia).
    rewrite plus_IZR in Z3, Z4, Hjk.
    pose proof index_range as [I1 I2].
    assert (HSC : 0 <= IZR shape * mag c)
      by (apply Rmult_le_pos; lra).
    assert (HA : 0 <= IZR shape * IZR j * mag c).
    { apply Rmult_le_pos; [apply Rmult_le_pos|]; lra. }
    assert (HB : IZR shape * IZR j * mag c + IZR shape * mag c
                 <= 4294967296).
    { apply Rle_trans with (2 := I2).
      replace (IZR shape * IZR j * mag c + IZR shape * mag c)
        with (IZR shape * mag c * (IZR j + 1)) by ring.
      replace (IZR shape * IZR k * mag c)
        with (IZR shape * mag c * IZR k) by ring.
      apply Rmult_le_compat_l; lra. }
    replace (IZR shape * (IZR j + 1) * mag c)
      with (IZR shape * IZR j * mag c + IZR shape * mag c)
      in Z3, Z4 by ring.
    destruct (arith_next u (IZR shape) (mag c)
                (IZR shape * IZR j * mag c) (IZR a) (IZR b)
                Hu (proj1 HS) (conj (proj1 HC) Hgap) HA HB
                Z1 Z2 Z3 Z4) as [N1 N2].
    assert (b < a + shape + 1)%Z
      by (apply lt_IZR; rewrite !plus_IZR; lra).
    assert (a < b + 1)%Z
      by (apply lt_IZR; rewrite !plus_IZR; lra).
    lia.
Qed.

(** The last tile ends on the last pixel of the canvas or on the one
    before it. *)
Lemma last_margin (new z : Z) :
  new_size (k + 1) shape c = Ok new ->
  start shape k c = Ok z ->
  (new <= z + shape + 1)%Z.
Proof.
  intros Hn Hz.
  pose proof u_bounds as Hu. pose proof shape_real as HS.
  pose proof count_real as HK. pose proof rest_real as Hd.
  pose proof axis_sum as Hsum.
  destruct new_size_upper as (new' & Hn' & Hup).
  assert (new' = new) by congruence. subst new'.
  destruct (start_bounds k ltac:(lia)) as (z' & Ez & _ & _ & Hlo).
  assert (z' = z) by congruence. subst z'.
  assert (N : IZR new < IZR z + IZR shape + 2).
  { apply (arith_margin u (IZR (dim - shape)) (IZR shape) (mag c)
             (IZR k) (mag s)); try assumption; lra. }
  assert (new < z + shape + 2)%Z
    by (apply lt_IZR; rewrite !plus_IZR; exact N).
  lia.
Qed.

End Count.

End Stride.

(** The whole axis: step count, canvas extent and every tile origin. *)
Lemma axis_ok :
  exists n new,
    steps dim shape c = Ok n /\ (1 <= n)%Z /\
    new_size n shape c = Ok new /\ (shape <= new <= dim)%Z /\
    forall j, (0 <= j < n)%Z ->
      exists st, start shape j c = Ok st /\
                 (0 <= st)%Z /\ (st + shape <= new)%Z.
Proof.
  destruct stride_ok as (s & Hs & Hsf & Hsb).
  destruct (steps_ok s Hs Hsf Hsb) as (k & Hk & Hk0 & Hkb).
  destruct (new_size_ok s Hs Hsf Hsb k Hk0 Hkb) as (new & Hn & Hnr & Hnb).
  exists (k + 1)%Z, new.
  split; [exact Hk|]. split; [lia|]. split; [exact Hn|].
  split; [exact Hnr|].
  intros j Hj.
  apply (start_ok s Hs Hsb k Hk0 Hkb new j); [lia|exact Hnb|lia].
Qed.

(** The step count against the exact quotient of the formula, [a / 100]
    being the exact multiplier: with [k] steps after the first,
    [k * d <= y <= (k + 1) * d] for [y = 100 * (dim - shape)] and
    [d = shape * a]. *)
Lemma axis_exact (a : Z) :
  (1 <= a <= 100)%Z ->
  IZR a - / 50000000000000 <= 100 * mag c <= IZR a + / 50000000000000 ->
  exists k, steps dim shape c = Ok (k + 1)%Z /\ (0 <= k)%Z /\
            (k * (shape * a) <= 100 * (dim - shape))%Z /\
            (100 * (dim - shape) <= (k + 1) * (shape * a))%Z.
Proof.
  intros Ha Hn.
  destruct stride_ok as (s & Hs & Hsf & Hsb).
  destruct (steps_ok s Hs Hsf Hsb) as (k & Hk & Hk0 & Hkb).
  destruct (steps_lower s Hs Hsf Hsb) as (k' & Hk' & _ & Hlow).
  assert (k' = k) by (rewrite Hk in Hk'; injection Hk'; lia). subst k'.
  destruct (index_range s Hsb k Hk0 Hkb) as [HP HT].
  pose proof u_bounds as Hu. pose proof rest_real as HD.
  pose proof shape_real as HS. pose proof (count_real k Hk0) as HK.
  pose proof axis_sum as HDS.
  assert (HA : 1 <= IZR a <= 100) by (split; apply IZR_le; lia).
  exists k. split; [exact Hk|]. split; [exact Hk0|]. split.
  - assert (H : IZR k * (IZR shape * IZR a) < 100 * IZR (dim - shape) + 1).
    { apply (arith_spec_upper u (IZR (dim - shape)) (IZR shape) (mag c)
               (IZR k) (mag s) (IZR a) (/ 50000000000000)); lra. }
    apply Z.lt_succ_r. apply lt_IZR.
    rewrite succ_IZR, !mult_IZR. lra.
  - assert (H : 100 * IZR (dim - shape) - 1
                < (IZR k + 1) * (IZR shape * IZR a)).
    { apply (arith_spec_lower u (IZR (dim - shape)) (IZR shape) (mag c)
               (IZR k) (mag s) (IZR a) (/ 50000000000000)); lra. }
    apply Z.lt_pred_le. apply lt_IZR. unfold Z.pred.
    rewrite !plus_IZR, !mult_IZR, plus_IZR. lra.
Qed.

(** The tiles of an axis follow one another without a gap, and the last
    one ends within a pixel of the end of the canvas. *)
Lemma axis_cover :
  c = one \/ mag c <= 127 / 128 ->
  exists n new,
    steps dim shape c = Ok n /\ (1 <= n)%Z /\
    new_size n shape c = Ok new /\ (shape <= new <= dim)%Z /\
    start shape 0 c = Ok 0%Z /\
    (forall j, (0 <= j < n)%Z ->
       exists a, start shape j c = Ok a /\ (0 <= a)%Z /\
                 (a + shape <= new)%Z) /\
    (forall j a b, (0 <= j)%Z -> (j + 1 < n)%Z ->
       start shape j c = Ok a -> start shape (j + 1) c = Ok b ->
       (a <= b <= a + shape)%Z) /\
    (forall z, start shape (n - 1) c = Ok z ->
               (new - 1 <= z + shape <= new)%Z).
Proof.
  intros Hgap.
  destruct stride_ok as (s & Hs & Hsf & Hsb).
  destruct (steps_ok s Hs Hsf Hsb) as (k & Hk & Hk0 & Hkb).
  destruct (new_size_ok s Hs Hsf Hsb k Hk0 Hkb) as (new & Hn & Hnr & Hnb).
  assert (Hall : forall j, (0 <= j < k + 1)%Z ->
            exists a, start shape j c = Ok a /\ (0 <= a)%Z /\
                      (a + shape <= new)%Z).
  { intros j Hj.
    apply (start_ok s Hs Hsb k Hk0 Hkb new j); [lia|exact Hnb|lia]. }
  exists (k + 1)%Z, new.
  split; [exact Hk|]. split; [lia|]. split; [exact Hn|].
  split; [exact Hnr|]. split.
  { destruct (Hall 0%Z ltac:(lia)) as (a & Ea & _).
    destruct (start_bounds s Hs Hsb k Hk0 Hkb 0 ltac:(lia))
      as (z & Ez & Hz0 & Hz1 & _).
    rewrite Ez. f_equal.
    rewrite !Rmult_0_r, !Rmult_0_l in Hz1.
    assert (z <= 0)%Z by (apply le_IZR; exact Hz1). lia. }
  split; [exact Hall|]. split.
  - intros j a b Hj0 Hj1.
    apply (start_next s Hs Hsb k Hk0 Hkb j a b Hgap); lia.
  - intros z Hz. replace (k + 1 - 1)%Z with k in Hz by lia.
    destruct (Hall k ltac:(lia)) as (a & Ea & _ & Hfit).
    assert (a = z) by congruence. subst a.
    pose proof (last_margin s Hs Hsf Hsb k Hk0 Hkb new z Hn Hz). lia.
Qed.

(** With one step the canvas is one tile and the tile starts at 0. *)
Lemma first_tile :
  new_size 1 shape c = Ok shape /\ start shape 0 c = Ok 0%Z.
Proof.
  destruct stride_ok as (s & Hs & Hsf & Hsb).
  destruct (of_int_pos shape ltac:(lia)) as (x & Hx & Hxf & Hxv).
  split.
  - unfold new_size. rewrite Hs. cbn [bind].
    change (1 - 1)%Z with 0%Z.
    unfold PyFloat.int_mul, PyFloat.add_int.
    rewrite of_int_zero, Hx. cbn [bind].
    destruct Hsf as (ms & es & -> & _).
    destruct Hxf as (mx & ex & -> & _).
    unfold PyFloat.mul, PyFloat.add. cbn [SFmul xorb SFadd].
    destruct (round_pos mx ex) as (z & Hz & Hz0 & Hz1 & Hz2).
    rewrite Hz. rewrite Hxv in Hz1, Hz2. f_equal.
    assert (z < shape + 1)%Z by (apply lt_IZR; rewrite plus_IZR; lra).
    assert (shape < z + 1)%Z by (apply lt_IZR; rewrite plus_IZR; lra).
    lia.
  - unfold start, PyFloat.int_mul. rewrite Z.mul_0_r, of_int_zero.
    cbn [bind]. destruct Hc as (mc & ec & -> & _). reflexivity.
Qed.

End Axis.

(** ** The loops of [get_crops_xy] *)

Section Loops.

Lemma for_app {S : Type} (l1 l2 : list Z) (body : Z -> S -> result S)
    (s : S) :
  for_ (l1 ++ l2) body s = (s' <- for_ l1 body s ;; for_ l2 body s').
Proof.
  revert s. induction l1 as [|i l1 IH]; intros s; cbn [app for_ bind].
  - reflexivity.
  - destruct (body i s) as [s1|e]; cbn [bind]; [apply IH|reflexivity].
Qed.

Lemma range_succ (n : Z) : 0 <= n -> range (n + 1) = range n ++ [n].
Proof.
  intros Hn. unfold range.
  replace (Z.to_nat (n + 1)) with (Z.to_nat n + 1)%nat by lia.
  rewrite seq_app, map_app. cbn [seq map]. f_equal. f_equal. lia.
Qed.

Lemma range_nonpos (n : Z) : n <= 0 -> range n = [].
Proof.
  intros Hn. unfold range. replace (Z.to_nat n) with 0%nat by lia.
  reflexivity.
Qed.

Lemma range_length (n : Z) : 0 <= n -> Z.of_nat (List.length (range n)) = n.
Proof.
  intros Hn. unfold range. rewrite length_map, length_seq. lia.
Qed.

Lemma range_add (a b : Z) :
  0 <= a -> 0 <= b ->
  range (a + b) = range a ++ map (fun j => a + j) (range b).
Proof.
  intros Ha Hb. pattern b. apply natlike_ind; [| |exact Hb].
  - rewrite Z.add_0_r. cbn. rewrite app_nil_r. reflexivity.
  - intros x Hx IH. change (Z.succ x) with (x + 1).
    replace (a + (x + 1)) with (a + x + 1) by lia.
    rewrite range_succ, IH, (range_succ x) by lia.
    rewrite map_app, app_assoc. reflexivity.
Qed.

(** A loop keeps what each turn keeps. *)
Lemma for_inv {S : Type} (P : S -> Prop) (l : list Z)
    (body : Z -> S -> result S) :
  (forall i s s', In i l -> P s -> body i s = Ok s' -> P s') ->
  forall s s', P s -> for_ l body s = Ok s' -> P s'.
Proof.
  induction l as [|i l IH]; intros Hb s s' Hs; cbn [for_].
  - intros [= <-]. exact Hs.
  - destruct (body i s) as [s1|e] eqn:E; cbn [bind]; [|discriminate].
    apply IH.
    + intros j t t' Hj. apply Hb. right. exact Hj.
    + apply (Hb i s s1); [left; reflexivity|exact Hs|exact E].
Qed.

Variables image_innitial image_full : ndarray.
Variables shape_x shape_y : Z.
Variable g : grid.

Lemma tile_body_fit (i j : Z) (st : loop_state) (xs ys : Z) :
  start shape_x j (cross_koef_x g) = Ok xs ->
  xs + shape_x <= n_cols image_full ->
  start shape_y i (cross_koef_y g) = Ok ys ->
  ys + shape_y <= n_rows image_full ->
  tile_body image_innitial image_full shape_x shape_y
    (cross_koef_x g) (cross_koef_y g) i j st =
  Ok (fst st + 1,
      snd st ++ [crop_at image_innitial image_full shape_x shape_y g
                   (fst st + 1) i j]).
Proof.
  intros Hx Hxf Hy Hyf. unfold tile_body, crop_at, start_of.
  rewrite Hx, Hy. cbn [bind].
  replace (n_cols image_full <? xs + shape_x) with false
    by (symmetry; apply Z.ltb_ge; lia).
  replace (n_rows image_full <? ys + shape_y) with false
    by (symmetry; apply Z.ltb_ge; lia).
  reflexivity.
Qed.

Hypothesis Hfit : cells_fit image_full shape_x shape_y g.

(** One row: every cell of it is appended. *)
Lemma inner_loop_full (i : Z) (n : Z) :
  0 <= i < y_steps g -> 0 <= n <= x_steps g ->
  forall cnt acc,
    for_ (range n)
      (tile_body image_innitial image_full shape_x shape_y
         (cross_koef_x g) (cross_koef_y g) i) (cnt, acc) =
    Ok (cnt + n,
        acc ++ map (fun j => crop_at image_innitial image_full
                               shape_x shape_y g (cnt + j + 1) i j)
                   (range n)).
Proof.
  intros Hi Hn. destruct Hn as [Hn0 Hn1]. revert Hn1.
  pattern n. apply natlike_ind; [| |exact Hn0].
  - intros _ cnt acc. cbn. rewrite Z.add_0_r, app_nil_r. reflexivity.
  - intros x Hx IH Hx1 cnt acc. change (Z.succ x) with (x + 1).
    rewrite range_succ, for_app, IH by lia. cbn [bind for_].
    destruct Hfit as [Hcols Hrows].
    destruct (Hcols x ltac:(lia)) as (xs & Hxs & Hxf).
    destruct (Hrows i Hi) as (ys & Hys & Hyf).
    rewrite (tile_body_fit i x _ xs ys Hxs Hxf Hys Hyf). cbn [bind fst snd].
    rewrite map_app, <- app_assoc. cbn [map app].
    f_equal. f_equal. lia.
Qed.

(** All rows. *)
Lemma outer_loop_full (m : Z) :
  0 <= m <= y_steps g -> 0 <= x_steps g ->
  for_ (range m)
    (fun i st =>
       for_ (range (x_steps g))
         (tile_body image_innitial image_full shape_x shape_y
            (cross_koef_x g) (cross_koef_y g) i) st)
    (0, []) =
  Ok (m * x_steps g,
      flat_map (row_at image_innitial image_full shape_x shape_y g)
               (range m)).
Proof.
  intros [Hm0 Hm1] Hx. revert Hm1.
  pattern m. apply natlike_ind; [| |exact Hm0].
  - intros _. reflexivity.
  - intros r Hr IH Hr1. change (Z.succ r) with (r + 1).
    rewrite range_succ, for_app, IH by lia. cbn [bind for_].
    rewrite (inner_loop_full r (x_steps g)) by lia. cbn [bind].
    rewrite flat_map_app. cbn [flat_map]. rewrite app_nil_r.
    unfold row_at. f_equal. f_equal. lia.
Qed.

Lemma tile_loop_full :
  0 <= x_steps g -> 0 <= y_steps g ->
  tile_loop image_innitial image_full shape_x shape_y g =
  Ok (y_steps g * x_steps g,
      all_cells image_innitial image_full shape_x shape_y g).
Proof.
  intros Hx Hy. unfold tile_loop, all_cells.
  apply outer_loop_full; lia.
Qed.

(** The cells are numbered from 1 in the order of the loops. *)
Lemma all_cells_numbers :
  0 <= x_steps g -> 0 <= y_steps g ->
  map number_of_crop
      (all_cells image_innitial image_full shape_x shape_y g) =
  map (fun n => n + 1) (range (y_steps g * x_steps g)).
Proof.
  intros Hx Hy. unfold all_cells.
  pattern (y_steps g). apply natlike_ind; [| |exact Hy].
  - reflexivity.
  - intros r Hr IH. change (Z.succ r) with (r + 1).
    rewrite range_succ, flat_map_app, map_app, IH by lia.
    cbn [flat_map]. rewrite app_nil_r.
    replace ((r + 1) * x_steps g) with (r * x_steps g + x_steps g) by lia.
    rewrite range_add, map_app by nia. f_equal.
    unfold row_at. rewrite !map_map. apply map_ext.
    intros j. reflexivity.
Qed.

Lemma all_cells_length :
  0 <= x_steps g -> 0 <= y_steps g ->
  Z.of_nat (List.length
              (all_cells image_innitial image_full shape_x shape_y g)) =
  x_steps g * y_steps g.
Proof.
  intros Hx Hy.
  rewrite <- (length_map number_of_crop), all_cells_numbers by assumption.
  rewrite length_map, range_length by nia. lia.
Qed.

End Loops.

(** ** What every emitted record satisfies *)

Section Records.

Variables image_innitial image_full : ndarray.
Variables shape_x shape_y : Z.
Variable g : grid.

Lemma tile_body_cases (i j : Z) (st st' : loop_state) :
  tile_body image_innitial image_full shape_x shape_y
    (cross_koef_x g) (cross_koef_y g) i j st = Ok st' ->
  st' = st \/
  exists xs ys,
    start shape_x j (cross_koef_x g) = Ok xs /\
    start shape_y i (cross_koef_y g) = Ok ys /\
    xs + shape_x <= n_cols image_full /\
    ys + shape_y <= n_rows image_full /\
    st' = (fst st + 1,
           snd st ++ [{| source_image := image_innitial;
                         source_image_resized := image_full;
                         crop := view image_full ys (ys + shape_y)
                                   xs (xs + shape_x);
                         number_of_crop := fst st + 1;
                         x_start := xs;
                         y_start := ys |}]).
Proof.
  unfold tile_body.
  destruct (start shape_x j (cross_koef_x g)) as [xs|e]; [|discriminate].
  destruct (start shape_y i (cross_koef_y g)) as [ys|e]; [|discriminate].
  cbn [bind].
  destruct (Z.ltb_spec (n_cols image_full) (xs + shape_x)) as [H1|H1].
  { intros [= <-]. left. reflexivity. }
  destruct (Z.ltb_spec (n_rows image_full) (ys + shape_y)) as [H2|H2].
  { intros [= <-]. left. reflexivity. }
  intros [= <-]. right. exists xs, ys. repeat split; auto.
Qed.

(** An invariant of the state that each appended record keeps is an
    invariant of both loops. *)
Lemma tile_loop_inv (P : loop_state -> Prop) :
  P (0, []) ->
  (forall i j st st',
      0 <= i < y_steps g -> 0 <= j < x_steps g -> P st ->
      tile_body image_innitial image_full shape_x shape_y
        (cross_koef_x g) (cross_koef_y g) i j st = Ok st' -> P st') ->
  forall st, tile_loop image_innitial image_full shape_x shape_y g = Ok st ->
             P st.
Proof.
  intros H0 Hstep st. unfold tile_loop.
  apply (for_inv P); [|exact H0].
  intros i s s' Hi Hs. apply (for_inv P); [|exact Hs].
  intros j t t' Hj Ht. apply Hstep; auto using range_in.
Qed.

Lemma tile_loop_placed (st : loop_state) :
  tile_loop image_innitial image_full shape_x shape_y g = Ok st ->
  Forall (placed image_innitial image_full shape_x shape_y) (snd st).
Proof.
  apply (tile_loop_inv
           (fun st => Forall (placed image_innitial image_full
                                shape_x shape_y) (snd st))).
  - constructor.
  - intros i j s s' _ _ Hs Hb.
    destruct (tile_body_cases i j s s' Hb)
      as [-> | (xs & ys & _ & _ & Hx & Hy & ->)]; [exact Hs|].
    cbn [snd]. apply Forall_app. split; [exact Hs|].
    constructor; [|constructor]. unfold placed. cbn. auto.
Qed.

Lemma tile_loop_numbered (st : loop_state) :
  tile_loop image_innitial image_full shape_x shape_y g = Ok st ->
  numbered st.
Proof.
  apply (tile_loop_inv numbered).
  - split; reflexivity.
  - intros i j s s' _ _ [Hc Hn] Hb.
    destruct (tile_body_cases i j s s' Hb)
      as [-> | (xs & ys & _ & _ & _ & _ & ->)]; [split; assumption|].
    unfold numbered. cbn [fst snd]. split.
    + rewrite length_app. cbn [List.length]. lia.
    + rewrite map_app, Hn, range_succ by lia.
      rewrite map_app. reflexivity.
Qed.

Lemma start_nonneg (shape idx v : Z) (c : spec_float) :
  0 <= shape -> 0 <= idx -> nonneg c ->
  start shape idx c = Ok v -> 0 <= v.
Proof.
  intros Hs Hi Hc. unfold start, PyFloat.int_mul.
  destruct (PyFloat.of_int (shape * idx)) as [x|e] eqn:E; [|discriminate].
  cbn [bind]. apply to_int_nonneg. apply mul_nonneg; [|exact Hc].
  apply (of_int_nonneg (shape * idx)); [nia|exact E].
Qed.

Lemma tile_loop_origins (st : loop_state) :
  0 <= shape_x -> 0 <= shape_y ->
  nonneg (cross_koef_x g) -> nonneg (cross_koef_y g) ->
  tile_loop image_innitial image_full shape_x shape_y g = Ok st ->
  Forall (fun c => 0 <= x_start c /\ 0 <= y_start c) (snd st).
Proof.
  intros Hsx Hsy Hcx Hcy.
  apply (tile_loop_inv
           (fun st => Forall (fun c => 0 <= x_start c /\ 0 <= y_start c)
                             (snd st))).
  - constructor.
  - intros i j s s' Hi Hj Hs Hb.
    destruct (tile_body_cases i j s s' Hb)
      as [-> | (xs & ys & Hxs & Hys & _ & _ & ->)]; [exact Hs|].
    cbn [snd]. apply Forall_app. split; [exact Hs|].
    constructor; [|constructor]. cbn. split.
    + apply (start_nonneg shape_x j xs (cross_koef_x g)); auto; lia.
    + apply (start_nonneg shape_y i ys (cross_koef_y g)); auto; lia.
Qed.

End Records.

Section Slices.

Lemma slice_inside (n a len : Z) :
  0 <= a -> 0 <= len -> a + len <= n ->
  slice_indices n a (a + len) = (a, len).
Proof.
  intros Ha Hl Hn. unfold slice_indices, slice_adjust.
  destruct (Z.ltb_spec a 0); [lia|].
  destruct (Z.ltb_spec (a + len) 0); [lia|].
  f_equal; lia.
Qed.

(** A tile that lies on the canvas is cut whole. *)
Lemma view_inside (a : ndarray) (r c h w : Z) :
  0 <= r -> 0 <= h -> r + h <= n_rows a ->
  0 <= c -> 0 <= w -> c + w <= n_cols a ->
  view a r (r + h) c (c + w) =
  {| base := base a; off_r := off_r a + r; off_c := off_c a + c;
     n_rows := h; n_cols := w |}.
Proof.
  intros. unfold view. rewrite !slice_inside by assumption. reflexivity.
Qed.

End Slices.

(** ** The loops with and without their display *)

Section Showing.

Variable pixel : Type.
Variable bgr2rgb :
  (Z -> Z -> option pixel) -> Z -> Z -> option (Z -> Z -> option pixel).
Variable plt : pyplot pixel.

(** A loop whose body leaves the store alone. *)
Lemma for_each_eval {S : Type} (l : list Z)
    (body : Z -> S -> stmt (store pixel) S) (pbody : Z -> S -> result S) :
  (forall i s st, body i s st = (pbody i s, st)) ->
  forall s st, for_each l body s st = (for_ l pbody s, st).
Proof.
  intros Hb. induction l as [|i l IH]; intros s st; cbn [for_each for_].
  - reflexivity.
  - unfold then_. rewrite Hb.
    destruct (pbody i s); cbn [bind]; [apply IH|reflexivity].
Qed.

(** A loop whose body extends the store by [c] buffers for each unit it
    adds to a measure [f] of the state, and raises what the body without
    display raises or an exception of the display. *)
Lemma for_each_run {S : Type} (f : S -> Z) (c : Z) (E : exn -> Prop)
    (l : list Z) (body : Z -> S -> stmt (store pixel) S)
    (pbody : Z -> S -> result S) :
  (forall i s st r st',
      body i s st = (r, st') ->
      exists extra,
        st' = st ++ extra /\
        match r with
        | Ok s' => pbody i s = Ok s' /\
                   Z.of_nat (List.length extra) = c * (f s' - f s)
        | Raise e => pbody i s = Raise e \/ E e
        end) ->
  forall s st r st',
    for_each l body s st = (r, st') ->
    exists extra,
      st' = st ++ extra /\
      match r with
      | Ok s' => for_ l pbody s = Ok s' /\
                 Z.of_nat (List.length extra) = c * (f s' - f s)
      | Raise e => for_ l pbody s = Raise e \/ E e
      end.
Proof.
  intros Hb. induction l as [|i l IH]; intros s st r st';
    cbn [for_each for_].
  - intros [= <- <-]. exists []. rewrite app_nil_r.
    split; [reflexivity|]. split; [reflexivity|].
      cbn [List.length Z.of_nat]. lia.
  - unfold then_. destruct (body i s st) as [[s1|e1] st1] eqn:Eb.
    + destruct (Hb i s st _ _ Eb) as (x1 & -> & Hp & Hl1).
      rewrite Hp. cbn [bind]. intros Hrest.
      destruct (IH s1 _ r st' Hrest) as (x2 & -> & Hr).
      exists (x1 ++ x2). split; [symmetry; apply app_assoc|].
      destruct r as [s'|e].
      * destruct Hr as [Hr Hl2]. split; [exact Hr|].
        rewrite length_app, Nat2Z.inj_add, Hl1, Hl2. ring.
      * exact Hr.
    + intros [= <- <-].
      destruct (Hb i s st _ _ Eb) as (x1 & -> & [Hp | He]).
      * exists x1. split; [reflexivity|]. left. rewrite Hp. reflexivity.
      * exists x1. split; [reflexivity|]. right. exact He.
Qed.

(** The display of one crop: two arrays, the copy and the converted
    one, unless a call raises. *)
Lemma show_crop_run (g : grid) (i j : Z) (a : ndarray)
    (st st' : store pixel) (r : result unit) :
  show_crop bgr2rgb plt g i j a st = (r, st') ->
  exists extra,
    st' = st ++ extra /\
    match r with
    | Ok _ => List.length extra = 2%nat
    | Raise e => e = cv2_error \/ pyplot_raises plt e
    end.
Proof.
  unfold show_crop, then_, call, new, np_copy, alloc, cv2_cvtColor.
  destruct (plt_subplot plt _ _ _ st) as [[]|e1] eqn:E1.
  2:{ intros [= <- <-]. exists []. rewrite app_nil_r.
      split; [reflexivity|]. right. right. left. eauto. }
  destruct (bgr2rgb _ _ _) as [px|].
  2:{ intros [= <- <-]. eexists. split; [reflexivity|]. left. reflexivity. }
  unfold alloc.
  destruct (plt_imshow plt _ _) as [[]|e2] eqn:E2.
  2:{ intros [= <- <-]. eexists. split; [symmetry; apply app_assoc|].
      right. right. right. left. eauto. }
  destruct (plt_axis plt _ _) as [[]|e3] eqn:E3; intros [= <- <-];
    (eexists; split; [symmetry; apply app_assoc|]).
  - reflexivity.
  - right. do 3 right. left. eauto.
Qed.

Variables image_innitial image_full : ndarray.
Variables shape_x shape_y : Z.
Variable g : grid.

(** Without display the body leaves the store alone. *)
Lemma inner_body_quiet (i j : Z) (s : loop_state) (st : store pixel) :
  inner_body bgr2rgb plt false image_innitial image_full
    shape_x shape_y g i j s st =
  (tile_body image_innitial image_full shape_x shape_y
     (cross_koef_x g) (cross_koef_y g) i j s, st).
Proof.
  unfold inner_body, tile_body, then_, eval, ret.
  destruct (start shape_x j (cross_koef_x g)); cbn [bind]; [|reflexivity].
  destruct (start shape_y i (cross_koef_y g)); cbn [bind]; [|reflexivity].
  destruct (n_cols image_full <? _); [reflexivity|].
  destruct (n_rows image_full <? _); reflexivity.
Qed.

Lemma crop_loop_quiet (st : store pixel) :
  crop_loop bgr2rgb plt false image_innitial image_full
    shape_x shape_y g st =
  (tile_loop image_innitial image_full shape_x shape_y g, st).
Proof.
  unfold crop_loop, tile_loop. apply for_each_eval.
  intros i s st0. apply for_each_eval.
  intros j t st1. apply inner_body_quiet.
Qed.

(** The body with or without display: the same change of [count] and
    [data_all_crops], and two arrays for a crop that is displayed. *)
Lemma inner_body_run (show : bool) (i j : Z) (s : loop_state)
    (st st' : store pixel) (r : result loop_state) :
  inner_body bgr2rgb plt show image_innitial image_full
    shape_x shape_y g i j s st = (r, st') ->
  exists extra,
    st' = st ++ extra /\
    match r with
    | Ok s' =>
        tile_body image_innitial image_full shape_x shape_y
          (cross_koef_x g) (cross_koef_y g) i j s = Ok s' /\
        Z.of_nat (List.length extra)
        = (if show then 2 else 0) * (fst s' - fst s)
    | Raise e =>
        tile_body image_innitial image_full shape_x shape_y
          (cross_koef_x g) (cross_koef_y g) i j s = Raise e \/
        (show = true /\ (e = cv2_error \/ pyplot_raises plt e))
    end.
Proof.
  destruct show.
  - unfold inner_body, tile_body, then_, eval, ret.
    destruct (start shape_x j (cross_koef_x g)) as [xs|e1]; cbn [bind].
    2:{ intros [= <- <-]. exists []. rewrite app_nil_r. auto. }
    destruct (start shape_y i (cross_koef_y g)) as [ys|e2]; cbn [bind].
    2:{ intros [= <- <-]. exists []. rewrite app_nil_r. auto. }
    destruct (n_cols image_full <? _).
    { intros [= <- <-]. exists []. rewrite app_nil_r.
      split; [reflexivity|]. split; [reflexivity|].
      cbn [List.length Z.of_nat]. lia. }
    destruct (n_rows image_full <? _).
    { intros [= <- <-]. exists []. rewrite app_nil_r.
      split; [reflexivity|]. split; [reflexivity|].
      cbn [List.length Z.of_nat]. lia. }
    destruct (show_crop bgr2rgb plt g i j _ st) as [[[]|e] st1] eqn:Es;
      intros [= <- <-];
      destruct (show_crop_run _ _ _ _ _ _ _ Es) as (extra & -> & Hx);
      exists extra; (split; [reflexivity|]).
    + split; [reflexivity|]. cbn [fst]. rewrite Hx. lia.
    + right. auto.
  - rewrite inner_body_quiet. intros [= <- <-].
    exists []. rewrite app_nil_r. split; [reflexivity|].
    destruct (tile_body _ _ _ _ _ _ _ _ _); [|auto].
    split; [reflexivity|]. cbn [List.length Z.of_nat]. lia.
Qed.

(** Both loops with or without display. *)
Lemma crop_loop_run (show : bool) (st st' : store pixel)
    (r : result loop_state) :
  crop_loop bgr2rgb plt show image_innitial image_full
    shape_x shape_y g st = (r, st') ->
  exists extra,
    st' = st ++ extra /\
    match r with
    | Ok s' =>
        tile_loop image_innitial image_full shape_x shape_y g = Ok s' /\
        Z.of_nat (List.length extra) = (if show then 2 else 0) * fst s'
    | Raise e =>
        tile_loop image_innitial image_full shape_x shape_y g = Raise e \/
        (show = true /\ (e = cv2_error \/ pyplot_raises plt e))
    end.
Proof.
  unfold crop_loop, tile_loop. intros H.
  apply (for_each_run fst (if show then 2 else 0)
           (fun e => show = true /\ (e = cv2_error \/ pyplot_raises plt e))
           _ _
           (fun i s =>
              for_ (range (x_steps g))
                (tile_body image_innitial image_full shape_x shape_y
                   (cross_koef_x g) (cross_koef_y g) i) s)) in H.
  - destruct H as (extra & -> & Hr). exists extra.
    split; [reflexivity|]. destruct r as [s'|e]; [|exact Hr].
    cbn [fst] in Hr. rewrite Z.sub_0_r in Hr. exact Hr.
  - intros i s st0 r0 st1.
    apply (for_each_run fst (if show then 2 else 0)
             (fun e => show = true /\
                       (e = cv2_error \/ pyplot_raises plt e))).
    intros j t st2 r2 st3. apply inner_body_run.
Qed.

End Showing.

(** ** The store *)

Section StoreFacts.

Variable pixel : Type.

Lemma update_length (st : store pixel) (n : nat) (f : buffer pixel -> buffer pixel) :
  List.length (update pixel st n f) = List.length st.
Proof.
  revert n. induction st as [|b st IH]; intros [|n]; cbn; auto.
Qed.

Lemma update_other (st : store pixel) (n k : nat) (f : buffer pixel -> buffer pixel) :
  n <> k -> nth_error (update pixel st n f) k = nth_error st k.
Proof.
  revert n k. induction st as [|b st IH]; intros [|n] [|k] H; cbn; auto.
  - congruence.
Qed.

Lemma update_same (st : store pixel) (n : nat) (f : buffer pixel -> buffer pixel) :
  nth_error (update pixel st n f) n = option_map f (nth_error st n).
Proof.
  revert n. induction st as [|b st IH]; intros [|n]; cbn; auto.
Qed.

(** Writing through one array is not seen through an array on another
    buffer. *)
Lemma get_set_other (st : store pixel) (a b : ndarray) (r c r' c' : Z)
    (v : pixel) :
  base a <> base b ->
  get_px (set_px st a r c v) b r' c' = get_px st b r' c'.
Proof.
  intros H. unfold get_px, set_px.
  destruct (in_window b r' c'); [|reflexivity].
  destruct (in_window a r c); [|reflexivity].
  rewrite update_other by exact H. reflexivity.
Qed.

(** Writing through an array is seen through every array on the same
    buffer that covers the cell. *)
Lemma get_set_same (st : store pixel) (a b : ndarray) (r c r' c' : Z)
    (v : pixel) :
  base a = base b -> (base a < List.length st)%nat ->
  in_window a r c = true -> in_window b r' c' = true ->
  off_r a + r = off_r b + r' -> off_c a + c = off_c b + c' ->
  get_px (set_px st a r c v) b r' c' = Some v.
Proof.
  intros Hb Hl Ha Hw Hr Hc. unfold get_px, set_px.
  rewrite Hw, Ha, <- Hb, update_same.
  destruct (nth_error st (base a)) as [buf|] eqn:E.
  - cbn [option_map poke b_px]. rewrite <- Hr, <- Hc, !Z.eqb_refl.
    reflexivity.
  - apply nth_error_None in E. lia.
Qed.

(** Allocation does not change what an array shows. *)
Lemma get_px_app (st extra : store pixel) (a : ndarray) (r c : Z) :
  (base a < List.length st)%nat ->
  get_px (st ++ extra) a r c = get_px st a r c.
Proof.
  intros H. unfold get_px. rewrite nth_error_app1 by exact H.
  reflexivity.
Qed.

Lemma in_window_spec (a : ndarray) (r c : Z) :
  in_window a r c = true <-> 0 <= r < n_rows a /\ 0 <= c < n_cols a.
Proof.
  unfold in_window. rewrite !andb_true_iff, !Z.leb_le, !Z.ltb_lt. lia.
Qed.

End StoreFacts.

Section GetCropsFacts.

Variable pixel : Type.
Variable interpolate :
  (Z -> Z -> option pixel) -> Z -> Z -> Z -> Z -> Z -> Z -> option pixel.
Variable bgr2rgb :
  (Z -> Z -> option pixel) -> Z -> Z -> option (Z -> Z -> option pixel).
Variable plt : pyplot pixel.

(** [plt.figure(figsize=[x_steps*0.9, y_steps*0.9])] under [if show:]
    allocates nothing. *)
Lemma figure_run (show : bool) (g : grid) (st : store pixel) :
  exists r,
    (if show
     then
       width <~ eval (PyFloat.int_mul (x_steps g) nine_tenths) ;;
       height <~ eval (PyFloat.int_mul (y_steps g) nine_tenths) ;;
       call (plt_figure plt width height)
     else ret tt) st = (r, st) /\
    forall e, r = Raise e ->
              show = true /\ (e = OverflowError \/ pyplot_raises plt e).
Proof.
  destruct show.
  - unfold then_, eval, call.
    destruct (PyFloat.int_mul (x_steps g) nine_tenths) as [w|e1] eqn:E1.
    2:{ eexists. split; [reflexivity|]. intros e [= <-].
        split; [reflexivity|]. left.
        unfold PyFloat.int_mul in E1.
        destruct (PyFloat.of_int (x_steps g)) as [x|e0] eqn:E0;
          [discriminate|].
        injection E1 as <-. unfold PyFloat.of_int in E0.
        destruct (binary_normalize _ _ _ _ _); congruence. }
    destruct (PyFloat.int_mul (y_steps g) nine_tenths) as [h|e2] eqn:E2.
    2:{ eexists. split; [reflexivity|]. intros e [= <-].
        split; [reflexivity|]. left.
        unfold PyFloat.int_mul in E2.
        destruct (PyFloat.of_int (y_steps g)) as [x|e0] eqn:E0;
          [discriminate|].
        injection E2 as <-. unfold PyFloat.of_int in E0.
        destruct (binary_normalize _ _ _ _ _); congruence. }
    eexists. split; [reflexivity|]. intros e He.
    split; [reflexivity|]. right. left. eauto.
  - eexists. split; [reflexivity|]. discriminate.
Qed.

(** The call up to the loops, when the grid exists and OpenCV accepts
    the sizes. *)
Lemma get_crops_xy_unfold (img : ndarray) (st : store pixel)
    (sx sy ox oy : Z) (show : bool) (g : grid) :
  make_grid (n_rows img) (n_cols img) sx sy ox oy = Ok g ->
  0 < n_rows img -> 0 < n_cols img ->
  0 < x_new g <= INT_MAX -> 0 < y_new g <= INT_MAX ->
  get_crops_xy interpolate bgr2rgb plt img sx sy ox oy show st =
  ((if show
    then
      width <~ eval (PyFloat.int_mul (x_steps g) nine_tenths) ;;
      height <~ eval (PyFloat.int_mul (y_steps g) nine_tenths) ;;
      call (plt_figure plt width height)
    else ret tt) ;;;
   s <~ crop_loop bgr2rgb plt show (copy_of pixel img st)
          (canvas_of pixel g st) sx sy g ;;
   (if show then call (plt_show plt) else ret tt) ;;;
   ret (snd s))
    (store_after pixel interpolate img g st).
Proof.
  intros Hg Hr Hc Hx Hy. unfold get_crops_xy.
  unfold then_ at 1. unfold eval at 1. rewrite Hg.
  unfold then_ at 1. unfold new, np_copy, alloc.
  unfold then_ at 1. unfold cv2_resize.
  replace (n_rows img <=? 0) with false by (symmetry; apply Z.leb_gt; lia).
  replace (n_cols img <=? 0) with false by (symmetry; apply Z.leb_gt; lia).
  replace (x_new g <=? 0) with false by (symmetry; apply Z.leb_gt; lia).
  replace (y_new g <=? 0) with false by (symmetry; apply Z.leb_gt; lia).
  replace (INT_MAX <? x_new g) with false by (symmetry; apply Z.ltb_ge; lia).
  replace (INT_MAX <? y_new g) with false by (symmetry; apply Z.ltb_ge; lia).
  cbn [orb]. unfold alloc. cbn [b_rows b_cols].
  unfold copy_of, canvas_of, store_after.
  rewrite length_app. cbn [List.length]. rewrite Nat.add_1_r.
  reflexivity.
Qed.

(** The call without display. *)
Lemma get_crops_xy_eq (img : ndarray) (st : store pixel)
    (sx sy ox oy : Z) (g : grid) :
  make_grid (n_rows img) (n_cols img) sx sy ox oy = Ok g ->
  0 < n_rows img -> 0 < n_cols img ->
  0 < x_new g <= INT_MAX -> 0 < y_new g <= INT_MAX ->
  get_crops_xy interpolate bgr2rgb plt img sx sy ox oy false st =
  (s <- tile_loop (copy_of pixel img st) (canvas_of pixel g st) sx sy g ;;
   Ok (snd s),
   store_after pixel interpolate img g st).
Proof.
  intros Hg Hr Hc Hx Hy.
  rewrite (get_crops_xy_unfold img st sx sy ox oy false g Hg Hr Hc Hx Hy).
  unfold then_, ret. rewrite crop_loop_quiet.
  destruct (tile_loop _ _ sx sy g) as [[? ?]|]; reflexivity.
Qed.

(** What a normal return of [get_crops_xy] went through. *)
Lemma get_crops_xy_inv (img : ndarray) (st st' : store pixel)
    (sx sy ox oy : Z) (show : bool) (cs : list CropElement) :
  get_crops_xy interpolate bgr2rgb plt img sx sy ox oy show st
  = (Ok cs, st') ->
  exists g n,
    make_grid (n_rows img) (n_cols img) sx sy ox oy = Ok g /\
    0 < n_rows img /\ 0 < n_cols img /\
    0 < x_new g <= INT_MAX /\ 0 < y_new g <= INT_MAX /\
    (exists shown,
        st' = store_after pixel interpolate img g st ++ shown /\
        Z.of_nat (List.length shown) = (if show then 2 else 0) * n) /\
    tile_loop (copy_of pixel img st) (canvas_of pixel g st) sx sy g
    = Ok (n, cs).
Proof.
  intros H.
  destruct (make_grid (n_rows img) (n_cols img) sx sy ox oy) as [g|e] eqn:Hg.
  2:{ unfold get_crops_xy, then_, eval in H. rewrite Hg in H.
      discriminate. }
  assert (Hdims : 0 < n_rows img /\ 0 < n_cols img /\
                  0 < x_new g <= INT_MAX /\ 0 < y_new g <= INT_MAX).
  { unfold get_crops_xy in H.
    unfold then_ at 1 in H. unfold eval at 1 in H. rewrite Hg in H.
    unfold then_ at 1 in H. unfold new, np_copy, alloc in H.
    unfold then_ at 1 in H. unfold cv2_resize in H.
    destruct (Z.leb_spec (n_rows img) 0); [discriminate|].
    destruct (Z.leb_spec (n_cols img) 0); [discriminate|].
    destruct (Z.leb_spec (x_new g) 0); [discriminate|].
    destruct (Z.leb_spec (y_new g) 0); [discriminate|].
    destruct (Z.ltb_spec INT_MAX (x_new g)); [discriminate|].
    destruct (Z.ltb_spec INT_MAX (y_new g)); [discriminate|].
    lia. }
  destruct Hdims as (H1 & H2 & H3 & H4).
  rewrite (get_crops_xy_unfold img st sx sy ox oy show g Hg H1 H2 H3 H4)
    in H.
  set (st2 := store_after pixel interpolate img g st) in *.
  unfold then_ at 1 in H.
  destruct (figure_run show g st2) as (r0 & Hfig & _).
  rewrite Hfig in H.
  destruct r0 as [[]|e0]; [|discriminate].
  unfold then_ at 1 in H.
  destruct (crop_loop bgr2rgb plt show _ _ sx sy g st2)
    as [[[n l]|e] st3] eqn:Hl; [|discriminate].
  destruct (crop_loop_run _ _ _ _ _ _ _ _ _ _ _ _ Hl)
    as (shown & -> & Hloop & Hlen).
  cbn [fst] in Hlen.
  assert (Hend : (Ok cs, st') = (Ok l, st2 ++ shown)).
  { unfold then_, ret, call in H. destruct show.
    - destruct (plt_show plt (st2 ++ shown)) as [[]|e];
        [symmetry; exact H|discriminate H].
    - symmetry. exact H. }
  injection Hend as -> ->.
  exists g, n. split; [reflexivity|]. split; [exact H1|]. split; [exact H2|].
  split; [exact H3|]. split; [exact H4|]. split; [|exact Hloop].
  exists shown. split; [reflexivity|exact Hlen].
Qed.

(** The display changes no record: a call that returns, with or without
    display, returns the records of the call without display. *)
Lemma get_crops_xy_shown (img : ndarray) (st st0 st' : store pixel)
    (sx sy ox oy : Z) (show : bool) (cs0 cs : list CropElement) :
  get_crops_xy interpolate bgr2rgb plt img sx sy ox oy false st
  = (Ok cs0, st0) ->
  get_crops_xy interpolate bgr2rgb plt img sx sy ox oy show st
  = (Ok cs, st') ->
  cs = cs0.
Proof.
  intros H0 H.
  destruct (get_crops_xy_inv img st st0 sx sy ox oy false cs0 H0)
    as (g0 & n0 & Hg0 & _ & _ & _ & _ & _ & L0).
  destruct (get_crops_xy_inv img st st' sx sy ox oy show cs H)
    as (g & n & Hg & _ & _ & _ & _ & _ & L).
  assert (g = g0) by congruence. subst g. congruence.
Qed.

(** Whatever happens, the call only allocates. *)
Lemma get_crops_xy_grows (img : ndarray) (st st' : store pixel)
    (sx sy ox oy : Z) (show : bool) (r : result (list CropElement)) :
  get_crops_xy interpolate bgr2rgb plt img sx sy ox oy show st = (r, st') ->
  exists extra, st' = st ++ extra.
Proof.
  unfold get_crops_xy.
  unfold then_ at 1. unfold eval at 1.
  destruct (make_grid _ _ sx sy ox oy) as [g|e].
  2:{ intros [= <- <-]. exists []. symmetry. apply app_nil_r. }
  unfold then_ at 1. unfold new, np_copy, alloc.
  set (st1 := st ++ _).
  unfold then_ at 1. unfold cv2_resize.
  destruct ((n_rows img <=? 0) || (n_cols img <=? 0)).
  { intros [= <- <-]. eexists. reflexivity. }
  destruct ((x_new g <=? 0) || (y_new g <=? 0) || (INT_MAX <? x_new g)
            || (INT_MAX <? y_new g)).
  { intros [= <- <-]. eexists. reflexivity. }
  unfold alloc. set (st2 := st1 ++ _).
  assert (E2 : exists x, st2 = st ++ x).
  { unfold st2, st1. rewrite <- app_assoc. eexists. reflexivity. }
  destruct E2 as (x2 & E2).
  unfold then_ at 1.
  destruct (figure_run show g st2) as (r0 & -> & _).
  destruct r0 as [[]|e0].
  2:{ intros [= <- <-]. exists x2. exact E2. }
  unfold then_ at 1.
  destruct (crop_loop bgr2rgb plt show _ _ sx sy g st2)
    as [[s|e] st3] eqn:Hl;
    destruct (crop_loop_run _ _ _ _ _ _ _ _ _ _ _ _ Hl) as (x3 & -> & _).
  2:{ intros [= <- <-]. exists (x2 ++ x3). rewrite E2.
      symmetry. apply app_assoc. }
  unfold then_, ret, call. intros H.
  assert (st' = st2 ++ x3).
  { destruct show.
    - destruct (plt_show plt (st2 ++ x3)) as [[]|e];
        injection H as _ <-; reflexivity.
    - injection H as _ <-. reflexivity. }
  subst st'. exists (x2 ++ x3). rewrite E2. symmetry. apply app_assoc.
Qed.

(** Whatever happens, the buffers that exist at the call are left as
    they are. *)
Lemma get_crops_xy_frame (img : ndarray) (st st' : store pixel)
    (sx sy ox oy : Z) (show : bool) (r : result (list CropElement)) :
  get_crops_xy interpolate bgr2rgb plt img sx sy ox oy show st = (r, st') ->
  forall n b, nth_error st n = Some b -> nth_error st' n = Some b.
Proof.
  intros H n b Hn.
  destruct (get_crops_xy_grows img st st' sx sy ox oy show r H)
    as (extra & ->).
  rewrite nth_error_app1; [exact Hn|].
  apply nth_error_Some. congruence.
Qed.

Lemma store_after_length (img : ndarray) (g : grid) (st : store pixel) :
  List.length (store_after pixel interpolate img g st)
  = S (S (List.length st)).
Proof. unfold store_after. rewrite !length_app. cbn. lia. Qed.

(** The copy holds the pixels the input had at the call. *)
Lemma copy_content (img : ndarray) (g : grid) (st : store pixel) (r c : Z) :
  get_px (store_after pixel interpolate img g st) (copy_of pixel img st) r c
  = get_px st img r c.
Proof.
  unfold get_px at 1, copy_of, store_after, in_window.
  cbn [base off_r off_c n_rows n_cols].
  rewrite nth_error_app1 by (rewrite length_app; cbn; lia).
  rewrite nth_error_app2, Nat.sub_diag by lia. cbn [nth_error b_px].
  fold (in_window img r c).
  destruct (in_window img r c) eqn:E; [reflexivity|].
  unfold get_px. rewrite E. reflexivity.
Qed.

End GetCropsFacts.

(** ** The grid of a valid call *)

Section Grid.

Lemma make_grid_inv (H W sx sy ox oy : Z) (g : grid) :
  make_grid H W sx sy ox oy = Ok g ->
  cross_koef ox = Ok (cross_koef_x g) /\
  cross_koef oy = Ok (cross_koef_y g) /\
  steps H sy (cross_koef_y g) = Ok (y_steps g) /\
  steps W sx (cross_koef_x g) = Ok (x_steps g) /\
  new_size (y_steps g) sy (cross_koef_y g) = Ok (y_new g) /\
  new_size (x_steps g) sx (cross_koef_x g) = Ok (x_new g).
Proof.
  unfold make_grid.
  destruct (cross_koef ox) as [cx|] eqn:E1; [|discriminate].
  destruct (cross_koef oy) as [cy|] eqn:E2; [|discriminate].
  cbn [bind].
  destruct (steps H sy cy) as [ys|] eqn:E3; [|discriminate].
  destruct (steps W sx cx) as [xs|] eqn:E4; [|discriminate].
  cbn [bind].
  destruct (new_size ys sy cy) as [yn|] eqn:E5; [|discriminate].
  destruct (new_size xs sx cx) as [xn|] eqn:E6; [|discriminate].
  cbn [bind]. intros [= <-]. cbn. auto 10.
Qed.

Lemma make_grid_intro (H W sx sy ox oy : Z) (cx cy : PyFloat.float)
    (ys xs yn xn : Z) :
  cross_koef ox = Ok cx -> cross_koef oy = Ok cy ->
  steps H sy cy = Ok ys -> steps W sx cx = Ok xs ->
  new_size ys sy cy = Ok yn -> new_size xs sx cx = Ok xn ->
  make_grid H W sx sy ox oy =
  Ok {| cross_koef_x := cx; cross_koef_y := cy;
        y_steps := ys; x_steps := xs; y_new := yn; x_new := xn |}.
Proof.
  intros E1 E2 E3 E4 E5 E6. unfold make_grid.
  rewrite E1, E2. cbn [bind]. rewrite E3, E4. cbn [bind].
  rewrite E5, E6. reflexivity.
Qed.

Lemma fin_nonneg (x : spec_float) : fin false x -> nonneg x.
Proof. intros (m & e & -> & _). reflexivity. Qed.

(** An image at least one tile in each dimension: the grid exists, has
    at least one step per axis, a canvas between the tile and the image,
    and room for every cell. *)
Lemma make_grid_valid (H W sx sy ox oy : Z) :
  1 <= sx <= W -> W <= 2147483647 ->
  1 <= sy <= H -> H <= 2147483647 ->
  0 <= ox < 100 -> 0 <= oy < 100 ->
  exists g,
    make_grid H W sx sy ox oy = Ok g /\
    1 <= x_steps g /\ 1 <= y_steps g /\
    sx <= x_new g <= W /\ sy <= y_new g <= H /\
    (forall j, 0 <= j < x_steps g ->
       exists xs, start sx j (cross_koef_x g) = Ok xs /\
                  0 <= xs /\ xs + sx <= x_new g) /\
    (forall i, 0 <= i < y_steps g ->
       exists ys, start sy i (cross_koef_y g) = Ok ys /\
                  0 <= ys /\ ys + sy <= y_new g).
Proof.
  intros Hsx HW Hsy HH Hox Hoy.
  destruct (cross_koef_valid ox Hox) as (cx & Ecx & Fcx & Bcx).
  destruct (cross_koef_valid oy Hoy) as (cy & Ecy & Fcy & Bcy).
  destruct (axis_ok W sx cx Fcx Bcx Hsx HW)
    as (nx & xn & Enx & Hnx & Exn & Hxn & Hxs).
  destruct (axis_ok H sy cy Fcy Bcy Hsy HH)
    as (ny & yn & Eny & Hny & Eyn & Hyn & Hys).
  eexists. split.
  - apply (make_grid_intro H W sx sy ox oy cx cy ny nx yn xn);
      assumption.
  - cbn. auto 10.
Qed.

End Grid.

(** ** The computed step count and the formula of the specification *)

Section Formula.

Lemma spec_quotient_eq (dim shape o : Z) :
  0 < shape -> o < 100 ->
  (spec_quotient dim shape o ==
   inject_Z (100 * (dim - shape)) / inject_Z (shape * (100 - o)))%Q.
Proof.
  intros Hs Ho. unfold spec_quotient, spec_cross.
  rewrite !inject_Z_mult. unfold Z.sub.
  rewrite !inject_Z_plus, !inject_Z_opp.
  assert (~ inject_Z shape == 0)%Q.
  { intros E. unfold Qeq in E. cbn [inject_Z Qnum Qden] in E. lia. }
  assert (~ (inject_Z 100 + - inject_Z o) == 0)%Q.
  { rewrite <- inject_Z_opp, <- inject_Z_plus.
    intros E. unfold Qeq in E. cbn [inject_Z Qnum Qden] in E. lia. }
  change (inject_Z 100) with 100%Q in *.
  field. split; [|assumption].
  intros E. apply H0. rewrite <- E. field.
Qed.

Lemma spec_steps_eq (dim shape o : Z) :
  0 < shape -> o < 100 ->
  spec_steps dim shape o = 100 * (dim - shape) / (shape * (100 - o)) + 1.
Proof.
  intros Hs Ho. unfold spec_steps.
  rewrite (Qfloor_comp _ _ (spec_quotient_eq dim shape o Hs Ho)).
  rewrite <- Zdiv_Qdiv. reflexivity.
Qed.

Lemma spec_whole_intro (dim shape o : Z) :
  0 < shape -> o < 100 ->
  (100 * (dim - shape)) mod (shape * (100 - o)) = 0 ->
  spec_whole dim shape o.
Proof.
  intros Hs Ho Hm. unfold spec_whole.
  rewrite (Qfloor_comp _ _ (spec_quotient_eq dim shape o Hs Ho)).
  rewrite (spec_quotient_eq dim shape o Hs Ho).
  rewrite <- Zdiv_Qdiv.
  assert (Hd : 0 < shape * (100 - o)) by nia.
  set (d := shape * (100 - o)) in *. set (y := 100 * (dim - shape)) in *.
  assert (E : y = d * (y / d)).
  { pose proof (Z.div_mod y d ltac:(lia)). lia. }
  rewrite E at 2. rewrite inject_Z_mult.
  field. intros E0. unfold Qeq in E0. cbn [inject_Z Qnum Qden] in E0. lia.
Qed.

(** The computed step count is the value of the formula, or one less
    when the quotient of the formula is a whole number. *)
Lemma steps_exact (dim shape o : Z) (c : spec_float) :
  1 <= shape <= dim -> dim <= 2147483647 -> 0 <= o < 100 ->
  cross_koef o = Ok c ->
  exists n, steps dim shape c = Ok n /\
            (n = spec_steps dim shape o \/
             (spec_whole dim shape o /\ n = spec_steps dim shape o - 1)).
Proof.
  intros Hs Hd Ho Hc.
  destruct (cross_koef_valid o Ho) as (c' & Hc' & Fc & Bc).
  assert (c' = c) by congruence. subst c'.
  pose proof (cross_koef_near o c Ho Hc) as Hn.
  destruct (axis_exact dim shape c Fc Bc Hs Hd (100 - o) ltac:(lia) Hn)
    as (k & Hk & Hk0 & Hup & Hlow).
  exists (k + 1). split; [exact Hk|].
  rewrite (spec_steps_eq dim shape o) by lia.
  assert (Hpos : 0 < shape * (100 - o)) by nia.
  set (d := shape * (100 - o)) in *. set (y := 100 * (dim - shape)) in *.
  pose proof (Z.div_mod y d ltac:(lia)) as Hdm.
  pose proof (Z.mod_pos_bound y d Hpos) as Hmb.
  destruct (Z.eq_dec (y mod d) 0) as [E | E].
  - assert (k = y / d \/ k = y / d - 1) by nia.
    destruct H as [-> | ->]; [left; reflexivity|].
    right. split; [|lia].
    apply spec_whole_intro; try lia. exact E.
  - left. f_equal. nia.
Qed.

End Formula.

(** ** Tiling: counts, extents and origins *)

Section Tiling.

Variable pixel : Type.
Variable interpolate :
  (Z -> Z -> option pixel) -> Z -> Z -> Z -> Z -> Z -> Z -> option pixel.
Variable bgr2rgb :
  (Z -> Z -> option pixel) -> Z -> Z -> option (Z -> Z -> option pixel).
Variable plt : pyplot pixel.

Lemma valid_cells_fit (img : ndarray) (st : store pixel)
    (sx sy : Z) (g : grid) :
  (forall j, 0 <= j < x_steps g ->
     exists xs, start sx j (cross_koef_x g) = Ok xs /\
                0 <= xs /\ xs + sx <= x_new g) ->
  (forall i, 0 <= i < y_steps g ->
     exists ys, start sy i (cross_koef_y g) = Ok ys /\
                0 <= ys /\ ys + sy <= y_new g) ->
  cells_fit (canvas_of pixel g st) sx sy g.
Proof.
  intros Hx Hy. split.
  - intros j Hj. destruct (Hx j Hj) as (xs & E & _ & F). eauto.
  - intros i Hi. destruct (Hy i Hi) as (ys & E & _ & F). eauto.
Qed.

(** The call on a grid all of whose cells fit: without display it returns
    every cell, and so does every call with display that returns. *)
Lemma get_crops_xy_full (img : ndarray) (st : store pixel)
    (sx sy ox oy : Z) (g : grid) :
  make_grid (n_rows img) (n_cols img) sx sy ox oy = Ok g ->
  0 < n_rows img -> 0 < n_cols img ->
  0 < x_new g <= INT_MAX -> 0 < y_new g <= INT_MAX ->
  0 <= x_steps g -> 0 <= y_steps g ->
  cells_fit (canvas_of pixel g st) sx sy g ->
  get_crops_xy interpolate bgr2rgb plt img sx sy ox oy false st
  = (Ok (all_cells (copy_of pixel img st) (canvas_of pixel g st) sx sy g),
     store_after pixel interpolate img g st) /\
  forall show cs' st'',
    get_crops_xy interpolate bgr2rgb plt img sx sy ox oy show st
    = (Ok cs', st'') ->
    cs' = all_cells (copy_of pixel img st) (canvas_of pixel g st) sx sy g.
Proof.
  intros Hg Hr Hc Hx Hy Hnx Hny Hfit.
  assert (Hcall : get_crops_xy interpolate bgr2rgb plt img sx sy ox oy
                    false st
                  = (Ok (all_cells (copy_of pixel img st)
                           (canvas_of pixel g st) sx sy g),
                     store_after pixel interpolate img g st)).
  { rewrite (get_crops_xy_eq pixel interpolate bgr2rgb plt img st
               sx sy ox oy g Hg Hr Hc Hx Hy).
    rewrite (tile_loop_full _ _ sx sy g Hfit Hnx Hny). reflexivity. }
  split; [exact Hcall|].
  intros show cs' st'' H'.
  exact (get_crops_xy_shown pixel interpolate bgr2rgb plt img st
           _ st'' sx sy ox oy show _ cs' Hcall H').
Qed.

(** The call on an image at least one tile in each dimension. *)
Lemma get_crops_xy_valid (img : ndarray) (st : store pixel)
    (sx sy ox oy : Z) :
  1 <= sx <= n_cols img -> n_cols img <= INT_MAX ->
  1 <= sy <= n_rows img -> n_rows img <= INT_MAX ->
  0 <= ox < 100 -> 0 <= oy < 100 ->
  exists g,
    make_grid (n_rows img) (n_cols img) sx sy ox oy = Ok g /\
    1 <= x_steps g /\ 1 <= y_steps g /\
    sx <= x_new g <= n_cols img /\ sy <= y_new g <= n_rows img /\
    get_crops_xy interpolate bgr2rgb plt img sx sy ox oy false st =
    (Ok (all_cells (copy_of pixel img st) (canvas_of pixel g st) sx sy g),
     store_after pixel interpolate img g st).
Proof.
  intros Hsx HW Hsy HH Hox Hoy. unfold INT_MAX in *.
  destruct (make_grid_valid (n_rows img) (n_cols img) sx sy ox oy
              Hsx HW Hsy HH Hox Hoy)
    as (g & Hg & Hnx & Hny & Hxn & Hyn & Hxs & Hys).
  exists g. split; [exact Hg|]. repeat (split; [assumption|]).
  rewrite (get_crops_xy_eq pixel interpolate bgr2rgb plt img st
             sx sy ox oy g Hg)
    by (unfold INT_MAX; lia).
  rewrite (tile_loop_full _ _ sx sy g
             (valid_cells_fit img st sx sy g Hxs Hys)) by lia.
  reflexivity.
Qed.

(** C5 (amended). For a valid configuration (positive tile, overlaps from
    0 to 99 percent) and an image at least one tile in each dimension (its
    sides within the range of a C [int]), the call without display returns
    exactly [x_steps * y_steps] records, and a call with display that
    returns returns the same records: no cell of the grid is skipped, and
    the records are numbered 1, 2, ... in the order they are generated.
    The step counts are computed in binary64, and along each
    axis the count is the value of the formula over exact numbers,
    [floor((dim - shape) / (shape * cross)) + 1] with [cross = 1 - overlap
    / 100], or one less than that value, which can happen only when the
    quotient of the formula is a whole number. *)
Theorem tile_count_and_numbering (img : ndarray) (st : store pixel)
    (sx sy ox oy : Z) :
  1 <= sx <= n_cols img -> n_cols img <= INT_MAX ->
  1 <= sy <= n_rows img -> n_rows img <= INT_MAX ->
  0 <= ox < 100 -> 0 <= oy < 100 ->
  exists g cs st',
    make_grid (n_rows img) (n_cols img) sx sy ox oy = Ok g /\
    (x_steps g = spec_steps (n_cols img) sx ox \/
     (spec_whole (n_cols img) sx ox /\
      x_steps g = spec_steps (n_cols img) sx ox - 1)) /\
    (y_steps g = spec_steps (n_rows img) sy oy \/
     (spec_whole (n_rows img) sy oy /\
      y_steps g = spec_steps (n_rows img) sy oy - 1)) /\
    get_crops_xy interpolate bgr2rgb plt img sx sy ox oy false st
    = (Ok cs, st') /\
    (forall show cs' st'',
        get_crops_xy interpolate bgr2rgb plt img sx sy ox oy show st
        = (Ok cs', st'') -> cs' = cs) /\
    cs = all_cells (copy_of pixel img st) (canvas_of pixel g st) sx sy g /\
    Z.of_nat (List.length cs) = x_steps g * y_steps g /\
    map number_of_crop cs =
    map (fun n => n + 1) (range (x_steps g * y_steps g)).
Proof.
  intros Hsx HW Hsy HH Hox Hoy.
  destruct (get_crops_xy_valid img st sx sy ox oy Hsx HW Hsy HH Hox Hoy)
    as (g & Hg & Hnx & Hny & _ & _ & Hcall).
  destruct (make_grid_inv _ _ _ _ _ _ g Hg) as (Ecx & Ecy & Ey & Ex & _ & _).
  unfold INT_MAX in HW, HH.
  destruct (steps_exact (n_cols img) sx ox (cross_koef_x g) Hsx HW Hox Ecx)
    as (nx & Enx & Hx).
  destruct (steps_exact (n_rows img) sy oy (cross_koef_y g) Hsy HH Hoy Ecy)
    as (ny & Eny & Hy).
  assert (nx = x_steps g) by congruence.
  assert (ny = y_steps g) by congruence. subst nx ny.
  exists g. eexists. eexists.
  split; [exact Hg|]. split; [exact Hx|]. split; [exact Hy|].
  split; [exact Hcall|].
  split; [intros show cs' st'' H';
          exact (get_crops_xy_shown pixel interpolate bgr2rgb plt img st
                   _ st'' sx sy ox oy show _ cs' Hcall H')|].
  split; [reflexivity|]. split.
  - apply all_cells_length; lia.
  - rewrite all_cells_numbers by lia. f_equal. f_equal. lia.
Qed.

(** C6 (amended). Every record [get_crops_xy] returns, with or without
    display, has [x_start + shape_x] and [y_start + shape_y] within the
    width and the height of the resized image, whatever the configuration.
    The crop is exactly [shape_y] rows by [shape_x] columns for a valid
    configuration (positive tile, overlaps from 0 to 99 percent), where
    the origin is not negative; it need not be otherwise. *)
Theorem tiles_inside_canvas (img : ndarray) (st st' : store pixel)
    (sx sy ox oy : Z) (show : bool) (cs : list CropElement) :
  get_crops_xy interpolate bgr2rgb plt img sx sy ox oy show st
  = (Ok cs, st') ->
  Forall (fun c =>
            x_start c + sx <= n_cols (source_image_resized c) /\
            y_start c + sy <= n_rows (source_image_resized c)) cs /\
  (0 < sx -> 0 < sy -> 0 <= ox < 100 -> 0 <= oy < 100 ->
   Forall (fun c =>
             0 <= x_start c /\ 0 <= y_start c /\
             n_rows (crop c) = sy /\ n_cols (crop c) = sx) cs).
Proof.
  intros Hcall.
  destruct (get_crops_xy_inv pixel interpolate bgr2rgb plt img st st'
              sx sy ox oy show cs Hcall)
    as (g & n & Hg & _ & _ & _ & _ & _ & Hloop).
  pose proof (tile_loop_placed _ _ sx sy g _ Hloop) as Hp.
  cbn [snd] in Hp. split.
  - rewrite Forall_forall in *. intros c Hc.
    destruct (Hp c Hc) as (_ & Hres & _ & Hx & Hy).
    rewrite Hres. auto.
  - intros Hsx Hsy Hox Hoy.
    destruct (make_grid_inv _ _ _ _ _ _ g Hg) as (Ecx & Ecy & _).
    destruct (cross_koef_valid ox Hox) as (cx & Ecx' & Fcx & _).
    destruct (cross_koef_valid oy Hoy) as (cy & Ecy' & Fcy & _).
    assert (cx = cross_koef_x g) by congruence.
    assert (cy = cross_koef_y g) by congruence. subst cx cy.
    pose proof (tile_loop_origins _ _ sx sy g _ ltac:(lia) ltac:(lia)
                  (fin_nonneg _ Fcx) (fin_nonneg _ Fcy) Hloop) as Ho.
    cbn [snd] in Ho.
    rewrite Forall_forall in *. intros c Hc.
    destruct (Hp c Hc) as (_ & Hres & Hcrop & Hx & Hy).
    destruct (Ho c Hc) as (Hx0 & Hy0).
    rewrite Hcrop.
    rewrite view_inside by lia. cbn. auto.
Qed.

(** C7. A 1000 by 1000 image with 500 by 500 tiles and no overlap: two
    steps per axis, a canvas of 1000 by 1000, and four tiles whose origins
    are (0,0), (500,0), (0,500), (500,500) in that order. These are the
    records of the call without display, and of every call with display
    that returns. *)
Theorem scenario_1000_by_500 (img : ndarray) (st : store pixel) :
  n_rows img = 1000 -> n_cols img = 1000 ->
  exists g cs st',
    make_grid (n_rows img) (n_cols img) 500 500 0 0 = Ok g /\
    x_steps g = 2 /\ y_steps g = 2 /\ x_new g = 1000 /\ y_new g = 1000 /\
    get_crops_xy interpolate bgr2rgb plt img 500 500 0 0 false st
    = (Ok cs, st') /\
    (forall show cs' st'',
        get_crops_xy interpolate bgr2rgb plt img 500 500 0 0 show st
        = (Ok cs', st'') -> cs' = cs) /\
    List.length cs = 4%nat /\
    origins cs = [(0, 0); (500, 0); (0, 500); (500, 500)] /\
    Forall (fun c => n_rows (source_image_resized c) = 1000 /\
                     n_cols (source_image_resized c) = 1000) cs.
Proof.
  intros Hr Hc.
  assert (Hg : make_grid (n_rows img) (n_cols img) 500 500 0 0
               = Ok grid_1000_500)
    by (rewrite Hr, Hc; vm_compute; reflexivity).
  assert (Hl : tile_loop (copy_of pixel img st)
                 (canvas_of pixel grid_1000_500 st) 500 500 grid_1000_500
               = Ok (4, all_cells (copy_of pixel img st)
                          (canvas_of pixel grid_1000_500 st) 500 500
                          grid_1000_500))
    by (vm_compute; reflexivity).
  assert (Hcall : get_crops_xy interpolate bgr2rgb plt img 500 500 0 0
                    false st
                  = (Ok (all_cells (copy_of pixel img st)
                           (canvas_of pixel grid_1000_500 st) 500 500
                           grid_1000_500),
                     store_after pixel interpolate img grid_1000_500 st)).
  { rewrite (get_crops_xy_eq pixel interpolate bgr2rgb plt img st
               500 500 0 0 _ Hg)
      by (rewrite ?Hr, ?Hc; unfold INT_MAX; cbn; lia).
    rewrite Hl. reflexivity. }
  exists grid_1000_500. eexists. eexists.
  split; [exact Hg|]. do 4 (split; [reflexivity|]).
  split; [exact Hcall|].
  split; [intros show cs' st'' H';
          exact (get_crops_xy_shown pixel interpolate bgr2rgb plt img st
                   _ st'' 500 500 0 0 show _ cs' Hcall H')|].
  split; [vm_compute; reflexivity|].
  split; [vm_compute; reflexivity|].
  repeat constructor.
Qed.



Lemma for_skip {S : Type} (l : list Z) (s : S) :
  for_ l (fun _ st => Ok st) s = Ok s.
Proof. induction l as [|i l IH]; cbn [for_ bind]; auto. Qed.

Lemma tile_loop_empty (ini res : ndarray) (sx sy : Z) (g : grid) :
  x_steps g <= 0 \/ y_steps g <= 0 ->
  tile_loop ini res sx sy g = Ok (0, []).
Proof.
  unfold tile_loop. intros [H | H].
  - rewrite (range_nonpos (x_steps g)) by exact H. cbn [for_].
    apply for_skip.
  - rewrite (range_nonpos (y_steps g)) by exact H. reflexivity.
Qed.

(** C2 (amended). The step counts are not clamped. For a non-empty image
    and a valid configuration, when both computed step counts are 1 the
    call without display, and every call with display that returns,
    returns exactly one tile, at origin (0, 0) and equal to the whole
    canvas of [shape_y] rows by [shape_x] columns; when a computed step count is 0 or less the call, with or without
    display, returns no tile at all. *)
Theorem one_tile_or_none (img : ndarray) (st : store pixel)
    (sx sy ox oy : Z) (g : grid) :
  0 < n_rows img -> 0 < n_cols img ->
  1 <= sx <= INT_MAX -> 1 <= sy <= INT_MAX ->
  0 <= ox < 100 -> 0 <= oy < 100 ->
  make_grid (n_rows img) (n_cols img) sx sy ox oy = Ok g ->
  (x_steps g = 1 -> y_steps g = 1 ->
   x_new g = sx /\ y_new g = sy /\
   exists c st',
     get_crops_xy interpolate bgr2rgb plt img sx sy ox oy false st
     = (Ok [c], st') /\
     (forall show cs' st'',
         get_crops_xy interpolate bgr2rgb plt img sx sy ox oy show st
         = (Ok cs', st'') -> cs' = [c]) /\
     number_of_crop c = 1 /\ x_start c = 0 /\ y_start c = 0 /\
     crop c = source_image_resized c /\
     n_rows (crop c) = sy /\ n_cols (crop c) = sx) /\
  (x_steps g <= 0 \/ y_steps g <= 0 ->
   forall show r st',
     get_crops_xy interpolate bgr2rgb plt img sx sy ox oy show st
     = (r, st') ->
     r = Ok [] \/ exists e, r = Raise e).
Proof.
  intros Hr Hc Hsx Hsy Hox Hoy Hg. unfold INT_MAX in *.
  destruct (make_grid_inv _ _ _ _ _ _ g Hg)
    as (Ecx & Ecy & _ & _ & Eyn & Exn).
  destruct (cross_koef_valid ox Hox) as (cx & Ecx' & Fcx & Bcx).
  destruct (cross_koef_valid oy Hoy) as (cy & Ecy' & Fcy & Bcy).
  assert (cx = cross_koef_x g) by congruence.
  assert (cy = cross_koef_y g) by congruence. subst cx cy.
  split.
  - intros Hx1 Hy1.
    destruct (first_tile sx sx (cross_koef_x g) Fcx Bcx
                ltac:(lia) ltac:(lia)) as [Nx Sx].
    destruct (first_tile sy sy (cross_koef_y g) Fcy Bcy
                ltac:(lia) ltac:(lia)) as [Ny Sy].
    rewrite Hx1 in Exn. rewrite Hy1 in Eyn.
    assert (Hxn : x_new g = sx) by congruence.
    assert (Hyn : y_new g = sy) by congruence.
    split; [exact Hxn|]. split; [exact Hyn|].
    assert (Hfit : cells_fit (canvas_of pixel g st) sx sy g).
    { split.
      - intros j Hj. assert (j = 0) by lia. subst j.
        exists 0. split; [exact Sx|]. cbn. lia.
      - intros i Hi. assert (i = 0) by lia. subst i.
        exists 0. split; [exact Sy|]. cbn. lia. }
    assert (Hcall : get_crops_xy interpolate bgr2rgb plt img sx sy ox oy
                      false st
                    = (Ok (all_cells (copy_of pixel img st)
                             (canvas_of pixel g st) sx sy g),
                       store_after pixel interpolate img g st)).
    { rewrite (get_crops_xy_eq pixel interpolate bgr2rgb plt img st
                 sx sy ox oy g Hg)
        by (unfold INT_MAX; lia).
      rewrite (tile_loop_full _ _ sx sy g Hfit) by lia. reflexivity. }
    revert Hcall. unfold all_cells, row_at. rewrite Hx1, Hy1.
    change (range 1) with [0]. cbn [map flat_map app]. intros Hcall.
    eexists. eexists. split; [exact Hcall|].
    split; [intros show cs' st'' H';
            exact (get_crops_xy_shown pixel interpolate bgr2rgb plt img st
                     _ st'' sx sy ox oy show _ cs' Hcall H')|].
    unfold crop_at, start_of. rewrite Sx, Sy.
    cbn [number_of_crop x_start y_start crop source_image_resized].
    split; [reflexivity|]. split; [reflexivity|]. split; [reflexivity|].
    rewrite (view_inside (canvas_of pixel g st) 0 0 sy sx)
      by (cbn; lia).
    unfold canvas_of. cbn [base off_r off_c n_rows n_cols Z.add].
    rewrite Hxn, Hyn. auto.
  - intros Hempty show r st' Hcall.
    destruct r as [cs|e]; [left|right; eauto].
    destruct (get_crops_xy_inv pixel interpolate bgr2rgb plt img st st'
                sx sy ox oy show cs Hcall)
      as (g' & n & Hg' & _ & _ & _ & _ & _ & Hloop).
    assert (g' = g) by congruence. subst g'.
    rewrite (tile_loop_empty _ _ sx sy g Hempty) in Hloop.
    congruence.
Qed.

End Tiling.

Section TilingExamples.


(** C2 (counterexample). A 100 by 100 image with 700 by 700 tiles and 50
    percent overlap: both step counts are 0 and the call returns the empty
    sequence. *)
Lemma small_image_no_tile :
  exists g st',
    make_grid 100 100 700 700 50 50 = Ok g /\
    x_steps g = 0 /\ y_steps g = 0 /\
    get_crops_xy nearest toy_bgr2rgb toy_plt (whole 100 100)
      700 700 50 50 false (blank 100 100)
    = (Ok [], st').
Proof.
  eexists. eexists. split; [vm_compute; reflexivity|].
  split; [reflexivity|]. split; [reflexivity|].
  vm_compute. reflexivity.
Qed.

(** C5 (counterexample). A 155 by 155 image with 100 by 100 tiles and 45
    percent overlap: over exact numbers (155 - 100) / (100 * 0.55) is 1,
    so that the formula gives 2 steps per axis and 4 tiles; in binary64
    the quotient is below 1, and the call computes 1 step per axis and
    returns 1 tile. *)
Lemma fewer_tiles_than_formula :
  spec_steps 155 100 45 = 2 /\
  exists g c st',
    make_grid 155 155 100 100 45 45 = Ok g /\
    x_steps g = 1 /\ y_steps g = 1 /\
    get_crops_xy nearest toy_bgr2rgb toy_plt (whole 155 155)
      100 100 45 45 false (blank 155 155)
    = (Ok [c], st') /\
    Z.of_nat (List.length [c])
    <> spec_steps 155 100 45 * spec_steps 155 100 45.
Proof.
  split; [vm_compute; reflexivity|].
  eexists. eexists. eexists. split; [vm_compute; reflexivity|].
  split; [reflexivity|]. split; [reflexivity|].
  split; [vm_compute; reflexivity|].
  vm_compute. discriminate.
Qed.

(** C6 (counterexample). A 100 by 100 image with 500 by 500 tiles and
    overlaps of 150 percent: the one record has its origin at (-250, -250)
    on a resized image of 250 by 250, so that both bounds hold, and its
    crop, the slice [-250:250] of each axis, is 250 by 250 and not 500 by
    500. *)
Lemma crop_smaller_than_tile :
  exists c st',
    get_crops_xy nearest toy_bgr2rgb toy_plt (whole 100 100)
      500 500 150 150 false (blank 100 100)
    = (Ok [c], st') /\
    x_start c = -250 /\ y_start c = -250 /\
    x_start c + 500 <= n_cols (source_image_resized c) /\
    y_start c + 500 <= n_rows (source_image_resized c) /\
    n_rows (crop c) = 250 /\ n_cols (crop c) = 250.
Proof.
  eexists. eexists. split; [vm_compute; reflexivity|].
  cbn. repeat split; lia.
Qed.

Lemma tile_count_and_numbering_witness :
  exists g cs st',
    make_grid 4 4 2 2 50 50 = Ok g /\
    (x_steps g = spec_steps 4 2 50 \/
     (spec_whole 4 2 50 /\ x_steps g = spec_steps 4 2 50 - 1)) /\
    (y_steps g = spec_steps 4 2 50 \/
     (spec_whole 4 2 50 /\ y_steps g = spec_steps 4 2 50 - 1)) /\
    get_crops_xy nearest toy_bgr2rgb toy_plt (whole 4 4) 2 2 50 50 false
      (blank 4 4)
    = (Ok cs, st') /\
    (forall show cs' st'',
        get_crops_xy nearest toy_bgr2rgb toy_plt (whole 4 4) 2 2 50 50 show
          (blank 4 4)
        = (Ok cs', st'') -> cs' = cs) /\
    cs = all_cells (copy_of Z (whole 4 4) (blank 4 4))
           (canvas_of Z g (blank 4 4)) 2 2 g /\
    Z.of_nat (List.length cs) = x_steps g * y_steps g /\
    map number_of_crop cs =
    map (fun n => n + 1) (range (x_steps g * y_steps g)).
Proof.
  apply (tile_count_and_numbering Z nearest toy_bgr2rgb toy_plt
           (whole 4 4) (blank 4 4) 2 2 50 50); cbn; unfold INT_MAX; lia.
Defined.

Lemma tiles_inside_canvas_witness :
  Forall (fun c =>
            x_start c + 2 <= n_cols (source_image_resized c) /\
            y_start c + 2 <= n_rows (source_image_resized c))
         (crops_of (get_crops_xy nearest toy_bgr2rgb toy_plt (whole 4 4)
                      2 2 50 50 true (blank 4 4))) /\
  (0 < 2 -> 0 < 2 -> 0 <= 50 < 100 -> 0 <= 50 < 100 ->
   Forall (fun c =>
             0 <= x_start c /\ 0 <= y_start c /\
             n_rows (crop c) = 2 /\ n_cols (crop c) = 2)
          (crops_of (get_crops_xy nearest toy_bgr2rgb toy_plt (whole 4 4)
                       2 2 50 50 true (blank 4 4)))).
Proof.
  apply (tiles_inside_canvas Z nearest toy_bgr2rgb toy_plt
           (whole 4 4) (blank 4 4)
           (snd (get_crops_xy nearest toy_bgr2rgb toy_plt (whole 4 4)
                   2 2 50 50 true (blank 4 4)))
           2 2 50 50 true).
  vm_compute. reflexivity.
Defined.

Lemma scenario_1000_by_500_witness :
  exists g cs st',
    make_grid 1000 1000 500 500 0 0 = Ok g /\
    x_steps g = 2 /\ y_steps g = 2 /\ x_new g = 1000 /\ y_new g = 1000 /\
    get_crops_xy nearest toy_bgr2rgb toy_plt (whole 1000 1000)
      500 500 0 0 false (blank 1000 1000)
    = (Ok cs, st') /\
    (forall show cs' st'',
        get_crops_xy nearest toy_bgr2rgb toy_plt (whole 1000 1000)
          500 500 0 0 show (blank 1000 1000)
        = (Ok cs', st'') -> cs' = cs) /\
    List.length cs = 4%nat /\
    origins cs = [(0, 0); (500, 0); (0, 500); (500, 500)] /\
    Forall (fun c => n_rows (source_image_resized c) = 1000 /\
                     n_cols (source_image_resized c) = 1000) cs.
Proof.
  apply (scenario_1000_by_500 Z nearest toy_bgr2rgb toy_plt (whole 1000 1000)
           (blank 1000 1000)); reflexivity.
Defined.


Lemma one_tile_or_none_witness :
  (x_steps grid_100_700 = 1 -> y_steps grid_100_700 = 1 ->
   x_new grid_100_700 = 700 /\ y_new grid_100_700 = 700 /\
   exists c st',
     get_crops_xy nearest toy_bgr2rgb toy_plt (whole 100 100)
       700 700 0 0 false (blank 100 100)
     = (Ok [c], st') /\
     (forall show cs' st'',
         get_crops_xy nearest toy_bgr2rgb toy_plt (whole 100 100)
           700 700 0 0 show (blank 100 100)
         = (Ok cs', st'') -> cs' = [c]) /\
     number_of_crop c = 1 /\ x_start c = 0 /\ y_start c = 0 /\
     crop c = source_image_resized c /\
     n_rows (crop c) = 700 /\ n_cols (crop c) = 700) /\
  (x_steps grid_100_700 <= 0 \/ y_steps grid_100_700 <= 0 ->
   forall show r st',
     get_crops_xy nearest toy_bgr2rgb toy_plt (whole 100 100)
       700 700 0 0 show (blank 100 100)
     = (r, st') ->
     r = Ok [] \/ exists e, r = Raise e).
Proof.
  apply (one_tile_or_none Z nearest toy_bgr2rgb toy_plt
           (whole 100 100) (blank 100 100)
           700 700 0 0 grid_100_700);
    [reflexivity | reflexivity | unfold INT_MAX; lia | unfold INT_MAX; lia
    | lia | lia |].
  vm_compute. reflexivity.
Defined.

End TilingExamples.

(** ** Who shares pixels with whom *)

Section Aliasing.

Variable pixel : Type.
Variable interpolate :
  (Z -> Z -> option pixel) -> Z -> Z -> Z -> Z -> Z -> Z -> option pixel.
Variable bgr2rgb :
  (Z -> Z -> option pixel) -> Z -> Z -> option (Z -> Z -> option pixel).
Variable plt : pyplot pixel.

Lemma view_base (a : ndarray) (r0 r1 c0 c1 : Z) :
  base (view a r0 r1 c0 c1) = base a.
Proof.
  unfold view. destruct (slice_indices (n_rows a) r0 r1).
  destruct (slice_indices (n_cols a) c0 c1). reflexivity.
Qed.

(** C10. [get_crops_xy], with or without display, writes to no array that
    exists when it is called, the caller's image among them: it stores a
    copy taken before the resize, every record's [source_image] is that
    one copy, and the resized image and the crops are on a buffer
    allocated by the call; so a later write to any array the caller holds
    changes no pixel seen through a record. *)
Theorem input_left_alone (img : ndarray) (st st' : store pixel)
    (sx sy ox oy : Z) (show : bool) (r : result (list CropElement)) :
  get_crops_xy interpolate bgr2rgb plt img sx sy ox oy show st = (r, st') ->
  (forall n b, nth_error st n = Some b -> nth_error st' n = Some b) /\
  (forall cs, r = Ok cs ->
     Forall (fun c =>
               source_image c = copy_of pixel img st /\
               base (source_image c) = List.length st /\
               base (source_image_resized c) = S (List.length st) /\
               base (crop c) = S (List.length st) /\
               forall i j, get_px st' (source_image c) i j
                           = get_px st img i j) cs /\
     forall (a : ndarray) (i j : Z) (v : pixel),
       (base a < List.length st)%nat ->
       Forall (fun c =>
                 forall i' j',
                   get_px (set_px st' a i j v) (source_image c) i' j'
                   = get_px st' (source_image c) i' j' /\
                   get_px (set_px st' a i j v) (source_image_resized c)
                     i' j'
                   = get_px st' (source_image_resized c) i' j' /\
                   get_px (set_px st' a i j v) (crop c) i' j'
                   = get_px st' (crop c) i' j') cs).
Proof.
  intros Hcall. split.
  - exact (get_crops_xy_frame pixel interpolate bgr2rgb plt img st st'
             sx sy ox oy show r Hcall).
  - intros cs ->.
    destruct (get_crops_xy_inv pixel interpolate bgr2rgb plt img st st'
                sx sy ox oy show cs Hcall)
      as (g & n & _ & _ & _ & _ & _ & (shown & -> & _) & Hloop).
    pose proof (tile_loop_placed _ _ sx sy g _ Hloop) as Hp.
    cbn [snd] in Hp.
    assert (Hb : Forall (fun c =>
              source_image c = copy_of pixel img st /\
              base (source_image c) = List.length st /\
              base (source_image_resized c) = S (List.length st) /\
              base (crop c) = S (List.length st)) cs).
    { apply Forall_forall. intros c Hc.
      rewrite Forall_forall in Hp.
      destruct (Hp c Hc) as (H1 & H2 & H3 & _).
      rewrite H1, H3, view_base, H2. cbn. auto. }
    split.
    + apply Forall_forall. intros c Hc. rewrite Forall_forall in Hb.
      destruct (Hb c Hc) as (H1 & H2 & H3 & H4).
      repeat (split; [assumption|]).
      intros i j. rewrite H1.
      rewrite get_px_app by (cbn; rewrite store_after_length; lia).
      apply copy_content.
    + intros a i j v Ha. apply Forall_forall. intros c Hc.
      rewrite Forall_forall in Hb.
      destruct (Hb c Hc) as (H1 & H2 & H3 & H4).
      intros i' j'. repeat split; apply get_set_other; lia.
Qed.

(** C9 (amended). For a valid configuration, the crop of every record
    returned, with or without display, is a window on the resized image,
    not a copy: pixel ([r], [c]) of the crop is pixel ([y_start + r],
    [x_start + c]) of the resized image, a write to one is a write to the
    other, and only the stored copy of the input is out of reach of such a
    write. *)
Theorem crop_shares_canvas (img : ndarray) (st st' : store pixel)
    (sx sy ox oy : Z) (show : bool) (cs : list CropElement) :
  0 < sx -> 0 < sy -> 0 <= ox < 100 -> 0 <= oy < 100 ->
  get_crops_xy interpolate bgr2rgb plt img sx sy ox oy show st
  = (Ok cs, st') ->
  Forall (fun c =>
            base (crop c) = base (source_image_resized c) /\
            base (crop c) <> base (source_image c) /\
            forall r c0,
              in_window (crop c) r c0 = true ->
              (forall s : store pixel,
                  get_px s (crop c) r c0 =
                  get_px s (source_image_resized c)
                    (y_start c + r) (x_start c + c0)) /\
              (forall (s : store pixel) v,
                  set_px s (crop c) r c0 v =
                  set_px s (source_image_resized c)
                    (y_start c + r) (x_start c + c0) v) /\
              (forall v,
                  get_px (set_px st' (crop c) r c0 v)
                    (source_image_resized c)
                    (y_start c + r) (x_start c + c0) = Some v) /\
              (forall v i j,
                  get_px (set_px st' (crop c) r c0 v) (source_image c) i j
                  = get_px st' (source_image c) i j)) cs.
Proof.
  intros Hsx Hsy Hox Hoy Hcall.
  destruct (get_crops_xy_inv pixel interpolate bgr2rgb plt img st st'
              sx sy ox oy show cs Hcall)
    as (g & n & Hg & _ & _ & _ & _ & (shown & -> & _) & Hloop).
  destruct (make_grid_inv _ _ _ _ _ _ g Hg) as (Ecx & Ecy & _).
  destruct (cross_koef_valid ox Hox) as (cx & Ecx' & Fcx & _).
  destruct (cross_koef_valid oy Hoy) as (cy & Ecy' & Fcy & _).
  assert (cx = cross_koef_x g) by congruence.
  assert (cy = cross_koef_y g) by congruence. subst cx cy.
  pose proof (tile_loop_placed _ _ sx sy g _ Hloop) as Hp.
  pose proof (tile_loop_origins _ _ sx sy g _ ltac:(lia) ltac:(lia)
                (fin_nonneg _ Fcx) (fin_nonneg _ Fcy) Hloop) as Ho.
  cbn [snd] in Hp, Ho.
  rewrite Forall_forall in *. intros c Hc.
  destruct (Hp c Hc) as (Hini & Hres & Hcrop & Hx & Hy).
  destruct (Ho c Hc) as (Hx0 & Hy0).
  assert (Ecrop : crop c =
            {| base := S (List.length st);
               off_r := y_start c; off_c := x_start c;
               n_rows := sy; n_cols := sx |}).
  { rewrite Hcrop, view_inside by lia. reflexivity. }
  rewrite Ecrop, Hres, Hini.
  set (tile := {| base := S (List.length st);
                  off_r := y_start c; off_c := x_start c;
                  n_rows := sy; n_cols := sx |}).
  split; [reflexivity|]. split; [cbn; lia|].
  intros r c0 Hw. pose proof Hw as Hw1. apply in_window_spec in Hw.
  cbn [n_rows n_cols tile] in Hw.
  assert (Hw2 : in_window (canvas_of pixel g st)
                  (y_start c + r) (x_start c + c0) = true).
  { apply in_window_spec. cbn in *. lia. }
  split; [|split; [|split]].
  - intros s. unfold get_px. rewrite Hw1, Hw2. cbn. reflexivity.
  - intros s v. unfold set_px. rewrite Hw1, Hw2. cbn. reflexivity.
  - intros v. apply get_set_same; try assumption; try reflexivity.
    cbn. rewrite length_app, store_after_length. lia.
  - intros v i j. apply get_set_other. cbn. lia.
Qed.

End Aliasing.

Section AliasingExamples.

(** C9 (counterexample). A 4 by 4 image with 2 by 2 tiles and 50 percent
    overlap: writing 7 at pixel (0, 1) of the first crop shows at pixel
    (0, 1) of the resized image and at pixel (0, 0) of the second crop.
    *)
Lemma crop_write_reaches_neighbour :
  exists c1 c2 rest st',
    get_crops_xy nearest toy_bgr2rgb toy_plt (whole 4 4)
      2 2 50 50 false (blank 4 4)
    = (Ok (c1 :: c2 :: rest), st') /\
    get_px st' (source_image_resized c1) 0 1 = Some 0 /\
    get_px st' (crop c2) 0 0 = Some 0 /\
    get_px (set_px st' (crop c1) 0 1 7) (source_image_resized c1) 0 1
    = Some 7 /\
    get_px (set_px st' (crop c1) 0 1 7) (crop c2) 0 0 = Some 7.
Proof.
  do 4 eexists. split; [vm_compute; reflexivity|].
  repeat split; vm_compute; reflexivity.
Qed.

Lemma input_left_alone_witness :
  (forall n b,
      nth_error (blank 4 4) n = Some b ->
      nth_error (snd (get_crops_xy nearest toy_bgr2rgb toy_plt (whole 4 4)
                        2 2 50 50 true (blank 4 4))) n = Some b) /\
  Forall (fun c => source_image c = copy_of Z (whole 4 4) (blank 4 4) /\
                   base (source_image_resized c) = 2%nat /\
                   base (crop c) = 2%nat)
         (crops_of (get_crops_xy nearest toy_bgr2rgb toy_plt (whole 4 4)
                      2 2 50 50 true (blank 4 4))).
Proof.
  destruct (input_left_alone Z nearest toy_bgr2rgb toy_plt
              (whole 4 4) (blank 4 4)
              (snd (get_crops_xy nearest toy_bgr2rgb toy_plt (whole 4 4)
                      2 2 50 50 true (blank 4 4)))
              2 2 50 50 true
              (fst (get_crops_xy nearest toy_bgr2rgb toy_plt (whole 4 4)
                      2 2 50 50 true (blank 4 4)))) as [Hframe Hrec].
  - vm_compute. reflexivity.
  - split; [exact Hframe|].
    destruct (Hrec (crops_of (get_crops_xy nearest toy_bgr2rgb toy_plt
                                (whole 4 4) 2 2 50 50 true (blank 4 4))))
      as [Hsrc _]; [vm_compute; reflexivity|].
    eapply Forall_impl; [|exact Hsrc].
    intros c (H1 & _ & H3 & H4 & _). auto.
Defined.

Lemma crop_shares_canvas_witness :
  Forall (fun c => base (crop c) = base (source_image_resized c))
         (crops_of (get_crops_xy nearest toy_bgr2rgb toy_plt (whole 4 4)
                      2 2 50 50 false (blank 4 4))).
Proof.
  eapply Forall_impl;
    [|apply (crop_shares_canvas Z nearest toy_bgr2rgb toy_plt
               (whole 4 4) (blank 4 4)
               (snd (get_crops_xy nearest toy_bgr2rgb toy_plt (whole 4 4)
                       2 2 50 50 false (blank 4 4)))
               2 2 50 50 false);
      [lia | lia | lia | lia | vm_compute; reflexivity]].
  intros c H. exact (proj1 H).
Defined.

End AliasingExamples.

(** ** Detection on the crops *)

Section Detection.

Variable pixel : Type.
Variable interpolate :
  (Z -> Z -> option pixel) -> Z -> Z -> Z -> Z -> Z -> Z -> option pixel.
Variable bgr2rgb :
  (Z -> Z -> option pixel) -> Z -> Z -> option (Z -> Z -> option pixel).
Variable plt : pyplot pixel.
Variables Model ClassNames : Type.
Variable YOLO : string -> result Model.
Variable names : Model -> ClassNames.
Variable Detections : Type.
Variable no_detections : Detections.
Variable calculate_inference :
  Model -> Z -> PyFloat.float -> PyFloat.float -> bool ->
  store pixel -> CropElement -> Detections -> result Detections.
Variable calculate_real_values :
  store pixel -> CropElement -> Detections -> result Detections.
Variable CropElement_resize_results :
  store pixel -> CropElement -> Detections -> result Detections.

Local Abbreviation self_type :=
  (MakeCropsDetectThem Model ClassNames Detections).
Local Abbreviation detect_crop' :=
  (detect_crop calculate_inference calculate_real_values
     CropElement_resize_results).
Local Abbreviation detect_loop' :=
  (detect_loop calculate_inference calculate_real_values
     CropElement_resize_results).
Local Abbreviation detect_objects' :=
  (_detect_objects calculate_inference calculate_real_values
     CropElement_resize_results).
Local Abbreviation processed' :=
  (processed calculate_inference calculate_real_values
     CropElement_resize_results).
Local Abbreviation infer self st c d :=
  (calculate_inference (model self) (imgsz self) (conf self) (iou self)
     (segment self) st c d).

Lemma detect_crop_events (self : self_type) (st : store pixel)
    (c c' : crop_object Detections) (ev : list event) (r : option exn) :
  detect_crop' self st c = (c', ev, r) ->
  let n := number_of_crop (fst c) in
  (forall k, In (ResizeResults k) ev ->
             resize_results self = true /\ k = n /\
             ev = [Inference n; RealValues n] ++ [ResizeResults n]) /\
  (r = None -> processed' self st c c' /\
               (resize_results self = true -> In (ResizeResults n) ev) /\
               In (Inference n) ev /\ In (RealValues n) ev).
Proof.
  destruct c as [ce d]. unfold detect_crop. cbn [fst snd].
  unfold processed. cbn [fst snd].
  destruct (calculate_inference _ _ _ _ _ st ce d) as [d1|e1] eqn:E1.
  2:{ intros [= <- <- <-]. split.
      - intros k [H|[]]; discriminate.
      - discriminate. }
  destruct (calculate_real_values st ce d1) as [d2|e2] eqn:E2.
  2:{ intros [= <- <- <-]. split.
      - intros k [H|[H|[]]]; discriminate.
      - discriminate. }
  destruct (resize_results self) eqn:F.
  - destruct (CropElement_resize_results st ce d2) as [d3|e3] eqn:E3;
      intros [= <- <- <-]; (split; [|try discriminate]).
    + intros k [H|[H|[H|[]]]]; try discriminate.
      injection H as <-. auto.
    + intros _. cbn [fst snd]. split.
      * split; [reflexivity|]. exists d1, d2. auto.
      * cbn. auto 10.
    + intros k [H|[H|[H|[]]]]; try discriminate.
      injection H as <-. auto.
  - intros [= <- <- <-]. split.
    + intros k [H|[H|[]]]; discriminate.
    + intros _. cbn [fst snd]. split.
      * split; [reflexivity|]. exists d1, d2. auto.
      * cbn. split; [discriminate|]. auto.
Qed.

Lemma before_app_r (a b : event) (l ev : list event) :
  before a b ev -> before a b (l ++ ev).
Proof.
  intros (l1 & l2 & -> & H). exists (l ++ l1), l2.
  split; [apply app_assoc|]. apply in_or_app. right. exact H.
Qed.

Lemma before_app_l (a b : event) (l ev : list event) :
  before a b ev -> before a b (ev ++ l).
Proof.
  intros (l1 & l2 & -> & H). exists l1, (l2 ++ l).
  split; [|exact H]. rewrite <- app_assoc. reflexivity.
Qed.

Lemma detect_loop_spec (self : self_type) (st : store pixel)
    (cs : list (crop_object Detections)) :
  forall cs' ev r,
    detect_loop' self st cs = (cs', ev, r) ->
    (forall n, In (ResizeResults n) ev ->
               resize_results self = true /\
               before (RealValues n) (ResizeResults n) ev) /\
    (r = None ->
     Forall2 (processed' self st) cs cs' /\
     forall c, In c cs ->
               In (Inference (number_of_crop (fst c))) ev /\
               In (RealValues (number_of_crop (fst c))) ev /\
               (resize_results self = true ->
                In (ResizeResults (number_of_crop (fst c))) ev)).
Proof.
  induction cs as [|c rest IH]; intros cs' ev r; cbn [detect_loop].
  - intros [= <- <- <-]. split.
    + intros n [].
    + intros _. split; [constructor|]. intros c [].
  - destruct (detect_crop' self st c) as [[c1 ev1] r1] eqn:Ec.
    destruct (detect_crop_events self st c c1 ev1 r1 Ec) as [Hz Hok].
    assert (Hz' : forall n, In (ResizeResults n) ev1 ->
              resize_results self = true /\
              before (RealValues n) (ResizeResults n) ev1).
    { intros n Hn. destruct (Hz n Hn) as (Hf & -> & Hev).
      split; [exact Hf|].
      exists [Inference (number_of_crop (fst c));
              RealValues (number_of_crop (fst c))], [].
      split; [exact Hev|]. right. left. reflexivity. }
    destruct r1 as [e|].
    + intros [= <- <- <-]. split; [exact Hz'|discriminate].
    + destruct (detect_loop' self st rest) as [[rest' ev'] r'] eqn:El.
      destruct (IH rest' ev' r' eq_refl) as [IHz IHok].
      intros [= <- <- <-]. split.
      * intros n Hn. apply in_app_or in Hn. destruct Hn as [Hn|Hn].
        -- destruct (Hz' n Hn) as [Hf Hb]. split; [exact Hf|].
           apply before_app_l. exact Hb.
        -- destruct (IHz n Hn) as [Hf Hb]. split; [exact Hf|].
           apply before_app_r. exact Hb.
      * intros ->. destruct (Hok eq_refl) as (Hp & Hr & Hi & Hv).
        destruct (IHok eq_refl) as [IHp IHin].
        split; [constructor; assumption|].
        intros c0 [<-|Hc0].
        -- repeat split; try (apply in_or_app; left; assumption).
           intros Hf. apply in_or_app. left. apply Hr. exact Hf.
        -- destruct (IHin c0 Hc0) as (H1 & H2 & H3).
           repeat split; try (apply in_or_app; right; assumption).
           intros Hf. apply in_or_app. right. apply H3. exact Hf.
Qed.

(** C8. In every run of [_detect_objects], [resize_results] is called
    on a crop only when the flag [resize_results] is set, and then after
    [calculate_real_values] on that crop; when the run completes with
    the flag set it was called on every crop; and each crop ends as
    [calculate_real_values] left it when the flag is not set, as
    [resize_results] left it when it is. *)
Theorem rescale_iff_flag (self : self_type) (st : store pixel)
    (self' : self_type) (ev : list event) (r : option exn) :
  detect_objects' self st = (self', ev, r) ->
  (forall n, In (ResizeResults n) ev ->
             resize_results self = true /\
             before (RealValues n) (ResizeResults n) ev) /\
  (r = None ->
   Forall2 (processed' self st) (crops self) (crops self') /\
   forall c, In c (crops self) ->
             In (Inference (number_of_crop (fst c))) ev /\
             In (RealValues (number_of_crop (fst c))) ev /\
             (In (ResizeResults (number_of_crop (fst c))) ev <->
              resize_results self = true)).
Proof.
  unfold _detect_objects.
  destruct (detect_loop' self st (crops self)) as [[cs' ev'] r'] eqn:El.
  intros [= <- <- <-].
  destruct (detect_loop_spec self st (crops self) cs' ev' r' El)
    as [Hz Hok].
  split; [exact Hz|]. intros Hr. destruct (Hok Hr) as [Hp Hin].
  split; [exact Hp|]. intros c Hc.
  destruct (Hin c Hc) as (H1 & H2 & H3).
  split; [exact H1|]. split; [exact H2|]. split; [|exact H3].
  intros H. exact (proj1 (Hz _ H)).
Qed.



(** The exception leaves the constructor. *)
Lemma init_raises (img : ndarray) (path : string) (sz : Z)
    (cf io : PyFloat.float) (seg : bool) (sx sy ox oy : Z)
    (show rr : bool) (st st1 : store pixel) (m : Model)
    (cs : list CropElement) (self' : self_type) (ev : list event)
    (e : exn) :
  YOLO path = Ok m ->
  get_crops_xy interpolate bgr2rgb plt img sx sy ox oy show st
  = (Ok cs, st1) ->
  detect_objects'
    {| model := m; image := img; imgsz := sz; conf := cf; iou := io;
       segment := seg; shape_x := sx; shape_y := sy;
       overlap_x := ox; overlap_y := oy;
       crops := map (fun c => (c, no_detections)) cs;
       show_crops := show; resize_results := rr;
       class_names_dict := names m |} st1 = (self', ev, Some e) ->
  __init__ interpolate bgr2rgb plt YOLO names no_detections
    calculate_inference calculate_real_values CropElement_resize_results
    img path sz cf io seg sx sy ox oy show rr st
  = (Raise e, st1, ev).
Proof.
  intros Hm Hc Hd. unfold __init__. rewrite Hm, Hc, Hd. reflexivity.
Qed.

End Detection.

(** ** Degenerate configurations *)

Section Errors.

Lemma of_int_error (n : Z) (e : exn) :
  PyFloat.of_int n = Raise e -> e = OverflowError.
Proof.
  unfold PyFloat.of_int.
  destruct (binary_normalize _ _ _ _ _); intros H; congruence.
Qed.

Lemma to_int_error (x : spec_float) (e : exn) :
  PyFloat.to_int x = Raise e -> arithmetic_error e.
Proof.
  unfold arithmetic_error.
  destruct x; cbn; intros H; try discriminate;
    injection H as <-; auto.
Qed.

Lemma round_error (x : spec_float) (e : exn) :
  PyFloat.round x = Raise e -> arithmetic_error e.
Proof.
  unfold arithmetic_error.
  destruct x; cbn; intros H; try discriminate;
    injection H as <-; auto.
Qed.

Lemma int_mul_error (n : Z) (y : spec_float) (e : exn) :
  PyFloat.int_mul n y = Raise e -> arithmetic_error e.
Proof.
  unfold PyFloat.int_mul, arithmetic_error.
  destruct (PyFloat.of_int n) eqn:E; cbn [bind]; [discriminate|].
  intros [= <-]. rewrite (of_int_error n e0 E). auto.
Qed.

Lemma add_int_error (x : spec_float) (n : Z) (e : exn) :
  PyFloat.add_int x n = Raise e -> arithmetic_error e.
Proof.
  unfold PyFloat.add_int, arithmetic_error.
  destruct (PyFloat.of_int n) eqn:E; cbn [bind]; [discriminate|].
  intros [= <-]. rewrite (of_int_error n e0 E). auto.
Qed.

Lemma int_div_error (n : Z) (y : spec_float) (e : exn) :
  PyFloat.int_div n y = Raise e -> arithmetic_error e.
Proof.
  unfold PyFloat.int_div, PyFloat.div, arithmetic_error.
  destruct (PyFloat.of_int n) eqn:E; cbn [bind].
  - destruct (PyFloat.is_zero y); [|discriminate].
    intros [= <-]. auto.
  - intros [= <-]. rewrite (of_int_error n e0 E). auto.
Qed.

Lemma cross_koef_error (o : Z) (e : exn) :
  cross_koef o = Raise e -> arithmetic_error e.
Proof.
  unfold cross_koef, PyFloat.int_truediv, PyFloat.int_sub, arithmetic_error.
  change (100 =? 0) with false. cbv iota.
  destruct (SFdiv _ _ _ _); cbn [bind];
    try (intros [= <-]; auto);
    destruct (PyFloat.of_int 1) eqn:E; cbn [bind]; try discriminate;
    intros [= <-]; rewrite (of_int_error 1 e0 E); auto.
Qed.

Lemma steps_error (dim shape : Z) (c : spec_float) (e : exn) :
  steps dim shape c = Raise e -> arithmetic_error e.
Proof.
  unfold steps.
  destruct (PyFloat.int_mul shape c) as [d|e1] eqn:E1; cbn [bind].
  2:{ intros [= <-]. exact (int_mul_error _ _ _ E1). }
  destruct (PyFloat.int_div (dim - shape) d) as [q|e2] eqn:E2; cbn [bind].
  2:{ intros [= <-]. exact (int_div_error _ _ _ E2). }
  destruct (PyFloat.to_int q) as [n|e3] eqn:E3; cbn [bind].
  - discriminate.
  - intros [= <-]. exact (to_int_error _ _ E3).
Qed.

Lemma new_size_error (n shape : Z) (c : spec_float) (e : exn) :
  new_size n shape c = Raise e -> arithmetic_error e.
Proof.
  unfold new_size.
  destruct (PyFloat.int_mul shape c) as [d|e1] eqn:E1; cbn [bind].
  2:{ intros [= <-]. exact (int_mul_error _ _ _ E1). }
  destruct (PyFloat.int_mul (n - 1) d) as [p|e2] eqn:E2; cbn [bind].
  2:{ intros [= <-]. exact (int_mul_error _ _ _ E2). }
  destruct (PyFloat.add_int p shape) as [s|e3] eqn:E3; cbn [bind].
  - apply round_error.
  - intros [= <-]. exact (add_int_error _ _ _ E3).
Qed.

(** Whatever [make_grid] raises comes from the arithmetic. *)
Lemma make_grid_error (H W sx sy ox oy : Z) (e : exn) :
  make_grid H W sx sy ox oy = Raise e -> arithmetic_error e.
Proof.
  unfold make_grid.
  destruct (cross_koef ox) as [ckx|e1] eqn:E1; cbn [bind].
  2:{ intros [= <-]. exact (cross_koef_error _ _ E1). }
  destruct (cross_koef oy) as [cky|e2] eqn:E2; cbn [bind].
  2:{ intros [= <-]. exact (cross_koef_error _ _ E2). }
  destruct (steps H sy cky) as [ys|e3] eqn:E3; cbn [bind].
  2:{ intros [= <-]. exact (steps_error _ _ _ _ E3). }
  destruct (steps W sx ckx) as [xs|e4] eqn:E4; cbn [bind].
  2:{ intros [= <-]. exact (steps_error _ _ _ _ E4). }
  destruct (new_size ys sy cky) as [yn|e5] eqn:E5; cbn [bind].
  2:{ intros [= <-]. exact (new_size_error _ _ _ _ E5). }
  destruct (new_size xs sx ckx) as [xn|e6] eqn:E6; cbn [bind].
  - discriminate.
  - intros [= <-]. exact (new_size_error _ _ _ _ E6).
Qed.






End Errors.

Section Configuration.

Variable pixel : Type.
Variable interpolate :
  (Z -> Z -> option pixel) -> Z -> Z -> Z -> Z -> Z -> Z -> option pixel.
Variable bgr2rgb :
  (Z -> Z -> option pixel) -> Z -> Z -> option (Z -> Z -> option pixel).
Variable plt : pyplot pixel.
Variables Model ClassNames : Type.
Variable YOLO : string -> result Model.
Variable names : Model -> ClassNames.
Variable Detections : Type.
Variable no_detections : Detections.
Variable calculate_inference :
  Model -> Z -> PyFloat.float -> PyFloat.float -> bool ->
  store pixel -> CropElement -> Detections -> result Detections.
Variable calculate_real_values :
  store pixel -> CropElement -> Detections -> result Detections.
Variable CropElement_resize_results :
  store pixel -> CropElement -> Detections -> result Detections.



End Configuration.

Section DetectionExamples.



Lemma rescale_iff_flag_witness :
  let self := toy_self (whole 2 6) 2 2 0 0 true (blank 2 6) in
  let st := toy_store (whole 2 6) 2 2 0 0 (blank 2 6) in
  let self' :=
    set_crops self [toy_crop 1 [1; 2; 3]; toy_crop 2 [1; 2; 3];
                    toy_crop 3 [1; 2; 3]] in
  let ev := [Inference 1; RealValues 1; ResizeResults 1;
             Inference 2; RealValues 2; ResizeResults 2;
             Inference 3; RealValues 3; ResizeResults 3] in
  (forall n, In (ResizeResults n) ev ->
             resize_results self = true /\
             before (RealValues n) (ResizeResults n) ev) /\
  (@None exn = None ->
   Forall2 (processed (toy_inference 0) toy_real_values toy_resize self st)
     (crops self) (crops self') /\
   forall c, In c (crops self) ->
             In (Inference (number_of_crop (fst c))) ev /\
             In (RealValues (number_of_crop (fst c))) ev /\
             (In (ResizeResults (number_of_crop (fst c))) ev <->
              resize_results self = true)).
Proof.
  intros self st self' ev.
  apply (rescale_iff_flag Z unit unit (list Z)
           (toy_inference 0) toy_real_values toy_resize
           self st self' ev None).
  vm_compute. reflexivity.
Defined.



End DetectionExamples.

(** ** The run of [_detect_objects] as a whole *)

Section Calls.

(** The calls depend on the numbers of the crops alone. *)
Lemma calls_on_fst {D1 D2 : Type} (flag : bool)
    (a : list (CropElement * D1)) (b : list (CropElement * D2)) :
  map fst a = map fst b -> calls_on flag a = calls_on flag b.
Proof.
  revert b. induction a as [|x a IH]; intros [|y b]; cbn [map];
    try discriminate; [reflexivity|].
  intros [= Hx Hab]. unfold calls_on in *. cbn [flat_map].
  rewrite Hx, (IH b Hab). reflexivity.
Qed.

End Calls.

Section Runs.

Variable pixel : Type.
Variables Model ClassNames Detections : Type.
Variable calculate_inference :
  Model -> Z -> PyFloat.float -> PyFloat.float -> bool ->
  store pixel -> CropElement -> Detections -> result Detections.
Variable calculate_real_values :
  store pixel -> CropElement -> Detections -> result Detections.
Variable CropElement_resize_results :
  store pixel -> CropElement -> Detections -> result Detections.

Local Abbreviation self_type :=
  (MakeCropsDetectThem Model ClassNames Detections).
Local Abbreviation detect_crop' :=
  (detect_crop calculate_inference calculate_real_values
     CropElement_resize_results).
Local Abbreviation detect_loop' :=
  (detect_loop calculate_inference calculate_real_values
     CropElement_resize_results).
Local Abbreviation detect_objects' :=
  (_detect_objects calculate_inference calculate_real_values
     CropElement_resize_results).

(** The body on one crop: the calls it makes are the calls of a whole
    turn, or a part of them that is not empty when a method raises. *)
Lemma detect_crop_trace (self : self_type) (st : store pixel)
    (c c' : crop_object Detections) (ev : list event) (r : option exn) :
  detect_crop' self st c = (c', ev, r) ->
  fst c' = fst c /\
  match r with
  | None => ev = calls_of (resize_results self) (number_of_crop (fst c))
  | Some _ =>
      ev <> [] /\
      exists tl, calls_of (resize_results self) (number_of_crop (fst c))
                 = ev ++ tl
  end.
Proof.
  destruct c as [ce d]. unfold detect_crop, calls_of. cbn [fst snd].
  destruct (calculate_inference _ _ _ _ _ st ce d) as [d1|e1].
  2:{ intros [= <- <- <-]. split; [reflexivity|].
      split; [discriminate|]. eexists. reflexivity. }
  destruct (calculate_real_values st ce d1) as [d2|e2].
  2:{ intros [= <- <- <-]. split; [reflexivity|].
      split; [discriminate|]. eexists. reflexivity. }
  destruct (resize_results self).
  - destruct (CropElement_resize_results st ce d2) as [d3|e3];
      intros [= <- <- <-]; (split; [reflexivity|]).
    + reflexivity.
    + split; [discriminate|]. exists []. reflexivity.
  - intros [= <- <- <-]. split; reflexivity.
Qed.

Lemma detect_loop_trace (self : self_type) (st : store pixel)
    (cs : list (crop_object Detections)) :
  forall cs' ev r,
    detect_loop' self st cs = (cs', ev, r) ->
    map fst cs' = map fst cs /\
    exists pre post part,
      cs = pre ++ post /\
      ev = calls_on (resize_results self) pre ++ part /\
      match r with
      | None => post = [] /\ part = []
      | Some _ =>
          exists c post',
            post = c :: post' /\ part <> [] /\
            exists tl,
              calls_of (resize_results self) (number_of_crop (fst c))
              = part ++ tl
      end.
Proof.
  induction cs as [|c rest IH]; intros cs' ev r; cbn [detect_loop].
  - intros [= <- <- <-]. split; [reflexivity|].
    exists [], [], []. auto.
  - destruct (detect_crop' self st c) as [[c1 ev1] r1] eqn:Ec.
    destruct (detect_crop_trace self st c c1 ev1 r1 Ec) as [Hf Ht].
    destruct r1 as [e|].
    + intros [= <- <- <-]. split; [cbn; rewrite Hf; reflexivity|].
      exists [], (c :: rest), ev1. split; [reflexivity|].
      split; [reflexivity|]. destruct Ht as [Hne Htl].
      exists c, rest. auto.
    + destruct (detect_loop' self st rest) as [[rest' ev'] r'] eqn:El.
      destruct (IH rest' ev' r' eq_refl)
        as (Hm & pre & post & part & -> & -> & Hr).
      intros [= <- <- <-]. split; [cbn; rewrite Hf, Hm; reflexivity|].
      exists (c :: pre), post, part. split; [reflexivity|]. split.
      * unfold calls_on. cbn [flat_map]. rewrite Ht, <- app_assoc.
        reflexivity.
      * exact Hr.
Qed.

(** X7. A run that completes calls every method once on every crop, crop
    after crop in the order of [self.crops], [resize_results] last and
    only when the flag is set: 2 or 3 calls a crop.  A run that a method
    ends has made all the calls of the crops before the failing one, and
    on that one a part, not empty, of its calls. *)
Theorem detection_trace (self self' : self_type) (st : store pixel)
    (ev : list event) (r : option exn) :
  detect_objects' self st = (self', ev, r) ->
  exists pre post part,
    crops self = pre ++ post /\
    ev = calls_on (resize_results self) pre ++ part /\
    match r with
    | None =>
        post = [] /\ part = [] /\
        Z.of_nat (List.length ev)
        = (if resize_results self then 3 else 2)
          * Z.of_nat (List.length (crops self))
    | Some _ =>
        exists c post',
          post = c :: post' /\ part <> [] /\
          exists tl,
            calls_of (resize_results self) (number_of_crop (fst c))
            = part ++ tl
    end.
Proof.
  unfold _detect_objects.
  destruct (detect_loop' self st (crops self)) as [[cs' ev'] r'] eqn:El.
  intros [= <- <- <-].
  destruct (detect_loop_trace self st (crops self) cs' ev' r' El)
    as (_ & pre & post & part & Hc & Hev & Hr).
  exists pre, post, part. split; [exact Hc|]. split; [exact Hev|].
  destruct r' as [e|]; [exact Hr|].
  destruct Hr as [-> ->]. split; [reflexivity|]. split; [reflexivity|].
  rewrite Hev, Hc, !app_nil_r. clear.
  induction pre as [|c pre IH]; [destruct (resize_results self); reflexivity|].
  unfold calls_on in *. cbn [flat_map List.length].
  rewrite length_app. unfold calls_of at 1.
  destruct (resize_results self); cbn [List.length app] in *; lia.
Qed.

(** X8. Whatever the outcome, [_detect_objects] changes nothing of the object
    but what the methods store in the crops: the same crops (number,
    origin, arrays) in the same order, and every other attribute as it
    was. *)
Theorem detection_keeps_crops (self self' : self_type) (st : store pixel)
    (ev : list event) (r : option exn) :
  detect_objects' self st = (self', ev, r) ->
  self' = set_crops self (crops self') /\
  map fst (crops self') = map fst (crops self) /\
  List.length (crops self') = List.length (crops self).
Proof.
  unfold _detect_objects.
  destruct (detect_loop' self st (crops self)) as [[cs' ev'] r'] eqn:El.
  intros [= <- <- <-].
  destruct (detect_loop_trace self st (crops self) cs' ev' r' El)
    as (Hm & _).
  split; [reflexivity|]. cbn [crops set_crops]. split; [exact Hm|].
  transitivity (List.length (map fst cs')); [symmetry; apply length_map|].
  rewrite Hm. apply length_map.
Qed.

End Runs.

(** ** Every call of [get_crops_xy] *)

Section Counting.

Lemma range_length_any (n : Z) :
  Z.of_nat (List.length (range n)) = Z.max 0 n.
Proof. unfold range. rewrite length_map, length_seq. lia. Qed.

(** A loop adds to a measure at most what each turn adds. *)
Lemma for_count {S : Type} (f : S -> Z) (k : Z) (l : list Z)
    (body : Z -> S -> result S) :
  (forall i s s', In i l -> body i s = Ok s' -> f s' <= f s + k) ->
  forall s s', for_ l body s = Ok s' ->
               f s' <= f s + k * Z.of_nat (List.length l).
Proof.
  induction l as [|i l IH]; intros Hb s s'; cbn [for_].
  - intros [= <-]. cbn. lia.
  - destruct (body i s) as [s1|e] eqn:E; cbn [bind]; [|discriminate].
    intros Hl.
    assert (H1 : f s1 <= f s + k) by (apply (Hb i); [left; reflexivity|exact E]).
    assert (H2 : f s' <= f s1 + k * Z.of_nat (List.length l)).
    { apply IH; [|exact Hl]. intros j t t' Hj. apply Hb. right. exact Hj. }
    cbn [List.length]. lia.
Qed.

(** What a loop raises, a turn of it raised. *)
Lemma for_raises {S : Type} (l : list Z) (body : Z -> S -> result S)
    (e : exn) :
  forall s, for_ l body s = Raise e ->
            exists i t, In i l /\ body i t = Raise e.
Proof.
  induction l as [|i l IH]; intros s; cbn [for_]; [discriminate|].
  destruct (body i s) as [s1|e1] eqn:E; cbn [bind].
  - intros Hl. destruct (IH s1 Hl) as (j & t & Hj & Ht).
    exists j, t. split; [right; exact Hj|exact Ht].
  - intros [= <-]. exists i, s. split; [left; reflexivity|exact E].
Qed.

Lemma start_error (shape idx : Z) (c : spec_float) (e : exn) :
  start shape idx c = Raise e -> arithmetic_error e.
Proof.
  unfold start.
  destruct (PyFloat.int_mul (shape * idx) c) as [f|e1] eqn:E1; cbn [bind].
  - apply to_int_error.
  - intros [= <-]. exact (int_mul_error _ _ _ E1).
Qed.

Variables image_innitial image_full : ndarray.
Variables shape_x shape_y : Z.
Variable g : grid.

Lemma tile_body_error (i j : Z) (st : loop_state) (e : exn) :
  tile_body image_innitial image_full shape_x shape_y
    (cross_koef_x g) (cross_koef_y g) i j st = Raise e ->
  arithmetic_error e.
Proof.
  unfold tile_body.
  destruct (start shape_x j (cross_koef_x g)) as [xs|e1] eqn:E1;
    cbn [bind].
  2:{ intros [= <-]. exact (start_error _ _ _ _ E1). }
  destruct (start shape_y i (cross_koef_y g)) as [ys|e2] eqn:E2;
    cbn [bind].
  2:{ intros [= <-]. exact (start_error _ _ _ _ E2). }
  destruct (n_cols image_full <? xs + shape_x); [discriminate|].
  destruct (n_rows image_full <? ys + shape_y); discriminate.
Qed.

Lemma tile_loop_error (e : exn) :
  tile_loop image_innitial image_full shape_x shape_y g = Raise e ->
  arithmetic_error e.
Proof.
  unfold tile_loop. intros H.
  destruct (for_raises _ _ e _ H) as (i & t & _ & Hi).
  destruct (for_raises _ _ e _ Hi) as (j & t' & _ & Hj).
  exact (tile_body_error i j t' e Hj).
Qed.

Lemma tile_body_count (i j : Z) (st st' : loop_state) :
  tile_body image_innitial image_full shape_x shape_y
    (cross_koef_x g) (cross_koef_y g) i j st = Ok st' ->
  fst st' <= fst st + 1.
Proof.
  intros H.
  destruct (tile_body_cases image_innitial image_full shape_x shape_y g
              i j st st' H) as [-> | (xs & ys & _ & _ & _ & _ & ->)];
    cbn [fst]; lia.
Qed.

(** No more records than cells. *)
Lemma tile_loop_count (st : loop_state) :
  tile_loop image_innitial image_full shape_x shape_y g = Ok st ->
  fst st <= Z.max 0 (x_steps g) * Z.max 0 (y_steps g).
Proof.
  unfold tile_loop. intros H.
  apply (for_count fst (Z.max 0 (x_steps g))) in H.
  - rewrite range_length_any in H. cbn [fst] in H. lia.
  - intros i s s' _ Hi.
    apply (for_count fst 1) in Hi.
    + rewrite range_length_any in Hi. lia.
    + intros j t t' _. apply tile_body_count.
Qed.

End Counting.

Section Placement.

Lemma nth_error_range (n j : Z) :
  0 <= j < n -> nth_error (range n) (Z.to_nat j) = Some j.
Proof.
  intros Hj. unfold range. rewrite nth_error_map.
  rewrite nth_error_seq.
  destruct (Nat.ltb_spec (Z.to_nat j) (Z.to_nat n)); [|lia].
  cbn. f_equal. lia.
Qed.

Variables image_innitial image_full : ndarray.
Variables shape_x shape_y : Z.
Variable g : grid.

Lemma row_at_length (i : Z) :
  Z.of_nat (List.length
              (row_at image_innitial image_full shape_x shape_y g i))
  = Z.max 0 (x_steps g).
Proof. unfold row_at. rewrite length_map. apply range_length_any. Qed.

Lemma rows_length (m : Z) :
  0 <= m -> 0 <= x_steps g ->
  Z.of_nat (List.length
              (flat_map (row_at image_innitial image_full
                           shape_x shape_y g) (range m)))
  = m * x_steps g.
Proof.
  intros Hm Hx. pattern m. apply natlike_ind; [| |exact Hm].
  - reflexivity.
  - intros r Hr IH. change (Z.succ r) with (r + 1).
    rewrite range_succ, flat_map_app, length_app by lia.
    cbn [flat_map]. rewrite app_nil_r.
    rewrite Nat2Z.inj_add, IH, row_at_length. lia.
Qed.

(** The record of cell ([i], [j]) is at place [i * x_steps + j]. *)
Lemma all_cells_nth (i j : Z) :
  0 <= i < y_steps g -> 0 <= j < x_steps g ->
  nth_error (all_cells image_innitial image_full shape_x shape_y g)
            (Z.to_nat (i * x_steps g + j))
  = Some (crop_at image_innitial image_full shape_x shape_y g
            (i * x_steps g + j + 1) i j).
Proof.
  intros Hi Hj. unfold all_cells.
  assert (Hix : 0 <= i * x_steps g) by nia.
  replace (y_steps g) with (i + 1 + (y_steps g - i - 1)) by lia.
  rewrite range_add, flat_map_app by lia.
  rewrite nth_error_app1.
  2:{ apply Nat2Z.inj_lt. rewrite rows_length by lia. nia. }
  rewrite range_succ, flat_map_app by lia.
  rewrite nth_error_app2.
  2:{ apply Nat2Z.inj_le. rewrite rows_length by lia. nia. }
  cbn [flat_map]. rewrite app_nil_r.
  replace (Z.to_nat (i * x_steps g + j) - _)%nat with (Z.to_nat j).
  2:{ apply Nat2Z.inj. rewrite Nat2Z.inj_sub.
      - rewrite rows_length by lia. lia.
      - apply Nat2Z.inj_le. rewrite rows_length by lia. nia. }
  unfold row_at. rewrite nth_error_map, nth_error_range by lia.
  reflexivity.
Qed.

End Placement.

Section Outcomes.

Variable pixel : Type.
Variable interpolate :
  (Z -> Z -> option pixel) -> Z -> Z -> Z -> Z -> Z -> Z -> option pixel.
Variable bgr2rgb :
  (Z -> Z -> option pixel) -> Z -> Z -> option (Z -> Z -> option pixel).
Variable plt : pyplot pixel.

(** The call without display, written out. *)
Lemma get_crops_xy_quiet (img : ndarray) (st : store pixel)
    (sx sy ox oy : Z) :
  get_crops_xy interpolate bgr2rgb plt img sx sy ox oy false st =
  match make_grid (n_rows img) (n_cols img) sx sy ox oy with
  | Raise e => (Raise e, st)
  | Ok g =>
      let (image_innitial, st1) := np_copy img st in
      match cv2_resize interpolate img (x_new g) (y_new g) st1 with
      | (Raise e, st2) => (Raise e, st2)
      | (Ok image_resized, st2) =>
          match tile_loop image_innitial image_resized sx sy g with
          | Raise e => (Raise e, st2)
          | Ok (_, data_all_crops) => (Ok data_all_crops, st2)
          end
      end
  end.
Proof.
  unfold get_crops_xy, then_, eval, new, ret.
  destruct (make_grid _ _ sx sy ox oy) as [g|e]; [|reflexivity].
  destruct (np_copy img st) as [ini st1].
  destruct (cv2_resize interpolate img (x_new g) (y_new g) st1)
    as [[res|e] st2]; [|reflexivity].
  rewrite crop_loop_quiet.
  destruct (tile_loop ini res sx sy g) as [[? ?]|]; reflexivity.
Qed.

(** What the call raises. *)
Lemma get_crops_xy_raises (img : ndarray) (st st' : store pixel)
    (sx sy ox oy : Z) (show : bool) (e : exn) :
  get_crops_xy interpolate bgr2rgb plt img sx sy ox oy show st
  = (Raise e, st') ->
  arithmetic_error e \/ e = cv2_error \/
  (show = true /\ pyplot_raises plt e).
Proof.
  unfold get_crops_xy.
  unfold then_ at 1. unfold eval at 1.
  destruct (make_grid _ _ sx sy ox oy) as [g|e0] eqn:Hg.
  2:{ intros [= <- <-]. left.
      exact (make_grid_error _ _ _ _ _ _ _ Hg). }
  unfold then_ at 1. unfold new, np_copy, alloc.
  unfold then_ at 1. unfold cv2_resize.
  destruct ((n_rows img <=? 0) || (n_cols img <=? 0)).
  { intros [= <- <-]. auto. }
  destruct ((x_new g <=? 0) || (y_new g <=? 0) || (INT_MAX <? x_new g)
            || (INT_MAX <? y_new g)).
  { intros [= <- <-]. auto. }
  unfold alloc.
  match goal with
  | |- then_ _ _ ?s = _ -> _ => set (st2 := s)
  end.
  unfold then_ at 1.
  destruct (figure_run pixel plt show g st2) as (r0 & -> & Hfig).
  destruct r0 as [[]|e0].
  2:{ intros [= <- <-].
      destruct (Hfig e0 eq_refl) as [Hs [-> | Hp]]; [|auto].
      left. unfold arithmetic_error. auto. }
  unfold then_ at 1.
  destruct (crop_loop bgr2rgb plt show _ _ sx sy g st2)
    as [[s|e1] st3] eqn:Hl.
  2:{ intros [= <- <-].
      destruct (crop_loop_run _ _ _ _ _ _ _ _ _ _ _ _ Hl)
        as (x3 & _ & [Hr | [Hs [-> | Hp]]]); auto.
      left. exact (tile_loop_error _ _ _ _ _ _ Hr). }
  unfold then_, ret, call. destruct show; [|discriminate].
  destruct (plt_show plt st3) as [[]|e2] eqn:E2; [discriminate|].
  intros [= <- <-]. right. right. split; [reflexivity|].
  do 4 right. eauto.
Qed.

(** X1. Whatever the configuration, the records of a call that returns,
    with or without display, are numbered 1, 2, ... without a gap in the
    order of the list, also when cells of the grid are skipped, and there
    are no more of them than cells in the grid. *)
Theorem records_numbered (img : ndarray) (st st' : store pixel)
    (sx sy ox oy : Z) (show : bool) (cs : list CropElement) :
  get_crops_xy interpolate bgr2rgb plt img sx sy ox oy show st
  = (Ok cs, st') ->
  map number_of_crop cs
  = map (fun n => n + 1) (range (Z.of_nat (List.length cs))) /\
  exists g,
    make_grid (n_rows img) (n_cols img) sx sy ox oy = Ok g /\
    Z.of_nat (List.length cs)
    <= Z.max 0 (x_steps g) * Z.max 0 (y_steps g).
Proof.
  intros Hcall.
  destruct (get_crops_xy_inv pixel interpolate bgr2rgb plt img st st'
              sx sy ox oy show cs Hcall)
    as (g & n & Hg & _ & _ & _ & _ & _ & Hloop).
  destruct (tile_loop_numbered _ _ sx sy g _ Hloop) as [Hn Hm].
  pose proof (tile_loop_count _ _ sx sy g _ Hloop) as Hc.
  cbn [fst snd] in Hn, Hm, Hc. split.
  - rewrite <- Hn. exact Hm.
  - exists g. split; [exact Hg|]. rewrite <- Hn. exact Hc.
Qed.

(** What a call without display raises, and the store it leaves
    then. *)
Lemma get_crops_xy_quiet_raises (img : ndarray) (st st' : store pixel)
    (sx sy ox oy : Z) (e : exn) :
  get_crops_xy interpolate bgr2rgb plt img sx sy ox oy false st
  = (Raise e, st') ->
  (arithmetic_error e /\
   (st' = st \/ exists b1 b2, st' = st ++ [b1; b2])) \/
  (e = cv2_error /\ exists b1, st' = st ++ [b1]).
Proof.
  rewrite get_crops_xy_quiet.
  destruct (make_grid _ _ sx sy ox oy) as [g|e0] eqn:Hg.
  2:{ intros [= <- <-]. left. split; [|left; reflexivity].
      exact (make_grid_error _ _ _ _ _ _ _ Hg). }
  unfold np_copy, alloc, cv2_resize.
  destruct ((n_rows img <=? 0) || (n_cols img <=? 0)).
  { intros [= <- <-]. right. split; [reflexivity|].
    eexists. reflexivity. }
  destruct ((x_new g <=? 0) || (y_new g <=? 0) || (INT_MAX <? x_new g)
            || (INT_MAX <? y_new g)).
  { intros [= <- <-]. right. split; [reflexivity|].
    eexists. reflexivity. }
  unfold alloc.
  destruct (tile_loop _ _ sx sy g) as [[? ?]|e1] eqn:Hl; [discriminate|].
  intros [= <- <-]. left. split.
  - exact (tile_loop_error _ _ _ _ _ _ Hl).
  - right. rewrite <- app_assoc. cbn [app].
    eexists. eexists. reflexivity.
Qed.

(** X3. What [get_crops_xy] allocates and raises. A call that returns has
    allocated the copy of the input and the resized image, and, when
    [show] is set, two more arrays for each record, the copy of the crop
    and its conversion that are displayed; it returns the records of the
    call without display. A call that raises raises an error of the
    arithmetic, the error of OpenCV ([cv2.resize], or [cv2.cvtColor] under
    [show]) or, under [show], an exception of a call of pyplot; without
    display it raises an arithmetic error with nothing or both arrays
    allocated, or the error of [cv2.resize] with the copy alone allocated.
    *)
Theorem get_crops_xy_outcomes (img : ndarray) (st st' : store pixel)
    (sx sy ox oy : Z) (show : bool) (r : result (list CropElement)) :
  get_crops_xy interpolate bgr2rgb plt img sx sy ox oy show st = (r, st') ->
  match r with
  | Ok cs =>
      exists b1 b2 shown,
        st' = st ++ [b1; b2] ++ shown /\
        b_rows b1 = n_rows img /\ b_cols b1 = n_cols img /\
        Z.of_nat (List.length shown)
        = (if show then 2 else 0) * Z.of_nat (List.length cs) /\
        Forall (fun c => n_rows (source_image_resized c) = b_rows b2 /\
                         n_cols (source_image_resized c) = b_cols b2) cs /\
        get_crops_xy interpolate bgr2rgb plt img sx sy ox oy false st
        = (Ok cs, st ++ [b1; b2])
  | Raise e =>
      (arithmetic_error e \/ e = cv2_error \/
       (show = true /\ pyplot_raises plt e)) /\
      (show = false ->
       (arithmetic_error e /\
        (st' = st \/ exists b1 b2, st' = st ++ [b1; b2])) \/
       (e = cv2_error /\ exists b1, st' = st ++ [b1]))
  end.
Proof.
  destruct r as [cs|e].
  - intros Hcall.
    destruct (get_crops_xy_inv pixel interpolate bgr2rgb plt img st st'
                sx sy ox oy show cs Hcall)
      as (g & n & Hg & H1 & H2 & H3 & H4 & (shown & -> & Hlen) & Hloop).
    destruct (tile_loop_numbered _ _ sx sy g _ Hloop) as [Hn _].
    cbn [fst snd] in Hn.
    pose proof (get_crops_xy_eq pixel interpolate bgr2rgb plt img st
                  sx sy ox oy g Hg H1 H2 H3 H4) as Hq.
    rewrite Hloop in Hq. cbn [bind snd] in Hq.
    unfold store_after in *. rewrite <- app_assoc in *. cbn [app] in *.
    eexists. eexists. exists shown.
    split; [rewrite <- app_assoc; reflexivity|]. cbn [b_rows b_cols].
    split; [reflexivity|]. split; [reflexivity|].
    split; [rewrite Hlen, Hn; reflexivity|]. split; [|exact Hq].
    pose proof (tile_loop_placed _ _ sx sy g _ Hloop) as Hp.
    cbn [snd] in Hp. rewrite Forall_forall in *. intros c Hc.
    destruct (Hp c Hc) as (_ & -> & _). cbn. auto.
  - intros Hcall. split.
    + exact (get_crops_xy_raises img st st' sx sy ox oy show e Hcall).
    + intros ->. exact (get_crops_xy_quiet_raises img st st' sx sy ox oy e
                          Hcall).
Qed.

(** X2. The order of the records is the order of the loops, row by row:
    for a valid configuration and an image at least one tile in each
    dimension, the record of row [i] and column [j] of the grid is at
    place [i * x_steps + j] of the list, has number [i * x_steps + j + 1],
    and its origin is ([int(shape_x * j * cross_koef_x)], [int(shape_y * i
    * cross_koef_y)]): [x_start] depends on the column alone and [y_start]
    on the row alone. The list is the one the call without display
    returns, and every call with display that returns. *)
Theorem record_of_cell (img : ndarray) (st : store pixel)
    (sx sy ox oy : Z) :
  1 <= sx <= n_cols img -> n_cols img <= INT_MAX ->
  1 <= sy <= n_rows img -> n_rows img <= INT_MAX ->
  0 <= ox < 100 -> 0 <= oy < 100 ->
  exists g cs st',
    make_grid (n_rows img) (n_cols img) sx sy ox oy = Ok g /\
    get_crops_xy interpolate bgr2rgb plt img sx sy ox oy false st
    = (Ok cs, st') /\
    (forall show cs' st'',
        get_crops_xy interpolate bgr2rgb plt img sx sy ox oy show st
        = (Ok cs', st'') -> cs' = cs) /\
    forall i j, 0 <= i < y_steps g -> 0 <= j < x_steps g ->
      exists c,
        nth_error cs (Z.to_nat (i * x_steps g + j)) = Some c /\
        number_of_crop c = i * x_steps g + j + 1 /\
        start sx j (cross_koef_x g) = Ok (x_start c) /\
        start sy i (cross_koef_y g) = Ok (y_start c).
Proof.
  intros Hsx HW Hsy HH Hox Hoy. unfold INT_MAX in *.
  destruct (make_grid_valid (n_rows img) (n_cols img) sx sy ox oy
              Hsx HW Hsy HH Hox Hoy)
    as (g & Hg & Hnx & Hny & Hxn & Hyn & Hxs & Hys).
  assert (Hfit : cells_fit (canvas_of pixel g st) sx sy g).
  { split.
    - intros j Hj. destruct (Hxs j Hj) as (xs & E & _ & F). eauto.
    - intros i Hi. destruct (Hys i Hi) as (ys & E & _ & F). eauto. }
  destruct (get_crops_xy_full pixel interpolate bgr2rgb plt img st
              sx sy ox oy g Hg ltac:(lia) ltac:(lia)
              ltac:(unfold INT_MAX; lia) ltac:(unfold INT_MAX; lia)
              ltac:(lia) ltac:(lia) Hfit) as [Hcall Hshown].
  exists g. eexists. eexists. split; [exact Hg|].
  split; [exact Hcall|]. split; [exact Hshown|].
  intros i j Hi Hj. eexists. split; [apply all_cells_nth; assumption|].
  cbn [crop_at number_of_crop x_start y_start]. unfold crop_at.
  cbn [number_of_crop x_start y_start]. split; [reflexivity|].
  unfold start_of.
  destruct (Hxs j Hj) as (xs & -> & _). destruct (Hys i Hi) as (ys & -> & _).
  split; reflexivity.
Qed.

End Outcomes.

(** ** The constructor as a whole *)

Section Construction.

Variable pixel : Type.
Variable interpolate :
  (Z -> Z -> option pixel) -> Z -> Z -> Z -> Z -> Z -> Z -> option pixel.
Variable bgr2rgb :
  (Z -> Z -> option pixel) -> Z -> Z -> option (Z -> Z -> option pixel).
Variable plt : pyplot pixel.
Variables Model ClassNames : Type.
Variable YOLO : string -> result Model.
Variable names : Model -> ClassNames.
Variable Detections : Type.
Variable no_detections : Detections.
Variable calculate_inference :
  Model -> Z -> PyFloat.float -> PyFloat.float -> bool ->
  store pixel -> CropElement -> Detections -> result Detections.
Variable calculate_real_values :
  store pixel -> CropElement -> Detections -> result Detections.
Variable CropElement_resize_results :
  store pixel -> CropElement -> Detections -> result Detections.

Local Abbreviation self_type :=
  (MakeCropsDetectThem Model ClassNames Detections).
Local Abbreviation detect_crop' :=
  (detect_crop calculate_inference calculate_real_values
     CropElement_resize_results).
Local Abbreviation detect_loop' :=
  (detect_loop calculate_inference calculate_real_values
     CropElement_resize_results).
Local Abbreviation detect_objects' :=
  (_detect_objects calculate_inference calculate_real_values
     CropElement_resize_results).
Local Abbreviation init' :=
  (__init__ interpolate bgr2rgb plt YOLO names no_detections
     calculate_inference calculate_real_values CropElement_resize_results).

(** The exception that ends the body was raised by one of the three
    methods on that crop. *)
Lemma detect_crop_raised (self : self_type) (st : store pixel)
    (c c' : crop_object Detections) (ev : list event) (e : exn) :
  detect_crop' self st c = (c', ev, Some e) ->
  exists d,
    calculate_inference (model self) (imgsz self) (conf self) (iou self)
      (segment self) st (fst c) d = Raise e \/
    calculate_real_values st (fst c) d = Raise e \/
    (resize_results self = true /\
     CropElement_resize_results st (fst c) d = Raise e).
Proof.
  destruct c as [ce d]. unfold detect_crop. cbn [fst snd].
  destruct (calculate_inference _ _ _ _ _ st ce d) as [d1|e1] eqn:E1.
  2:{ intros [= _ _ <-]. exists d. left. exact E1. }
  destruct (calculate_real_values st ce d1) as [d2|e2] eqn:E2.
  2:{ intros [= _ _ <-]. exists d1. right. left. exact E2. }
  destruct (resize_results self) eqn:F; [|discriminate].
  destruct (CropElement_resize_results st ce d2) as [d3|e3] eqn:E3;
    [discriminate|].
  intros [= _ _ <-]. exists d2. right. right. split; [reflexivity|exact E3].
Qed.

Lemma detect_loop_raised (self : self_type) (st : store pixel)
    (cs : list (crop_object Detections)) :
  forall cs' ev e,
    detect_loop' self st cs = (cs', ev, Some e) ->
    exists c d,
      In c cs /\
      (calculate_inference (model self) (imgsz self) (conf self)
         (iou self) (segment self) st (fst c) d = Raise e \/
       calculate_real_values st (fst c) d = Raise e \/
       (resize_results self = true /\
        CropElement_resize_results st (fst c) d = Raise e)).
Proof.
  induction cs as [|c rest IH]; intros cs' ev e; cbn [detect_loop];
    [discriminate|].
  destruct (detect_crop' self st c) as [[c1 ev1] [e1|]] eqn:Ec.
  - intros [= _ _ <-].
    destruct (detect_crop_raised self st c c1 ev1 e1 Ec) as (d & Hd).
    exists c, d. split; [left; reflexivity|exact Hd].
  - destruct (detect_loop' self st rest) as [[rest' ev'] r'] eqn:El.
    intros [= _ _ ->].
    destruct (IH rest' ev' e eq_refl) as (c0 & d & Hin & Hd).
    exists c0, d. split; [right; exact Hin|exact Hd].
Qed.

(** X9. Every exception that leaves the constructor: the loader's, with
    nothing done; an exception of [get_crops_xy], with no method called on
    any crop, which is an error of the arithmetic, the error of OpenCV or,
    when [show_crops] is set, an exception of a call of pyplot; or an
    exception a method raised on one of the crops, after at least one
    call. *)
Theorem constructor_errors (img : ndarray) (path : string) (sz : Z)
    (cf io : PyFloat.float) (seg : bool) (sx sy ox oy : Z)
    (show rr : bool) (st st' : store pixel) (ev : list event) (e : exn) :
  init' img path sz cf io seg sx sy ox oy show rr st = (Raise e, st', ev) ->
  (YOLO path = Raise e /\ st' = st /\ ev = []) \/
  (get_crops_xy interpolate bgr2rgb plt img sx sy ox oy show st
   = (Raise e, st') /\
   (arithmetic_error e \/ e = cv2_error \/
    (show = true /\ pyplot_raises plt e)) /\
   ev = []) \/
  (exists m cs c d,
     YOLO path = Ok m /\
     get_crops_xy interpolate bgr2rgb plt img sx sy ox oy show st
     = (Ok cs, st') /\
     In c cs /\ ev <> [] /\
     (calculate_inference m sz cf io seg st' c d = Raise e \/
      calculate_real_values st' c d = Raise e \/
      (rr = true /\ CropElement_resize_results st' c d = Raise e))).
Proof.
  unfold __init__.
  destruct (YOLO path) as [m|e0] eqn:Hm.
  2:{ intros [= <- <- <-]. left. auto. }
  destruct (get_crops_xy interpolate bgr2rgb plt img sx sy ox oy show st)
    as [[cs|e1] st1] eqn:Hc.
  2:{ intros [= <- <- <-]. right. left. split; [reflexivity|].
      split; [|reflexivity].
      exact (get_crops_xy_raises pixel interpolate bgr2rgb plt img st st1
               sx sy ox oy show e1 Hc). }
  match goal with
  | |- context [detect_objects' ?s st1] => set (self := s)
  end.
  destruct (detect_objects' self st1) as [[self' ev'] [e2|]] eqn:Hd;
    [|discriminate].
  intros [= <- <- <-]. right. right.
  unfold _detect_objects in Hd.
  destruct (detect_loop' self st1 (crops self)) as [[cs' ev2] r2] eqn:El.
  injection Hd as _ <- ->.
  destruct (detect_loop_trace pixel Model ClassNames Detections
              calculate_inference calculate_real_values
              CropElement_resize_results self st1 (crops self) cs' ev2
              (Some e2) El)
    as (_ & pre & post & part & _ & Hev & c0 & post' & _ & Hne & _).
  destruct (detect_loop_raised self st1 (crops self) cs' ev2 e2 El)
    as (c & d & Hin & Hr).
  cbn [crops model imgsz conf iou segment resize_results self] in Hin, Hr.
  apply in_map_iff in Hin. destruct Hin as (ce & <- & Hce).
  cbn [fst] in Hr.
  exists m, cs, ce, d. split; [reflexivity|]. split; [reflexivity|].
  split; [exact Hce|]. split; [|exact Hr].
  rewrite Hev. intros H. apply app_eq_nil in H. destruct H as [_ H].
  exact (Hne H).
Qed.

(** When no method raises, the body and the loop complete. *)
Hypothesis inference_returns :
  forall m sz cf io seg st c d,
  exists d', calculate_inference m sz cf io seg st c d = Ok d'.
Hypothesis real_values_returns :
  forall st c d, exists d', calculate_real_values st c d = Ok d'.
Hypothesis resize_results_returns :
  forall st c d, exists d', CropElement_resize_results st c d = Ok d'.

Lemma detect_crop_completes (self : self_type) (st : store pixel)
    (c : crop_object Detections) :
  exists c' ev, detect_crop' self st c = (c', ev, None).
Proof.
  destruct c as [ce d]. unfold detect_crop.
  destruct (inference_returns (model self) (imgsz self) (conf self)
              (iou self) (segment self) st ce d) as (d1 & ->).
  destruct (real_values_returns st ce d1) as (d2 & ->).
  destruct (resize_results self).
  - destruct (resize_results_returns st ce d2) as (d3 & ->). eauto.
  - eauto.
Qed.

Lemma detect_loop_completes (self : self_type) (st : store pixel)
    (cs : list (crop_object Detections)) :
  exists cs' ev, detect_loop' self st cs = (cs', ev, None).
Proof.
  induction cs as [|c rest IH]; cbn [detect_loop]; [eauto|].
  destruct (detect_crop_completes self st c) as (c' & ev & ->).
  destruct IH as (rest' & ev' & ->). eauto.
Qed.

End Construction.

Section Completion.

Variable pixel : Type.
Variable interpolate :
  (Z -> Z -> option pixel) -> Z -> Z -> Z -> Z -> Z -> Z -> option pixel.
Variable bgr2rgb :
  (Z -> Z -> option pixel) -> Z -> Z -> option (Z -> Z -> option pixel).
Variable plt : pyplot pixel.
Variables Model ClassNames : Type.
Variable YOLO : string -> result Model.
Variable names : Model -> ClassNames.
Variable Detections : Type.
Variable no_detections : Detections.
Variable calculate_inference :
  Model -> Z -> PyFloat.float -> PyFloat.float -> bool ->
  store pixel -> CropElement -> Detections -> result Detections.
Variable calculate_real_values :
  store pixel -> CropElement -> Detections -> result Detections.
Variable CropElement_resize_results :
  store pixel -> CropElement -> Detections -> result Detections.

(** X10. For a valid configuration, an image at least one tile in each
    dimension, a model that loads, methods that do not raise and
    [show_crops] not set, the constructor returns an object: it holds the
    arguments, the loaded model and its names, and [x_steps * y_steps]
    crops, the records of [get_crops_xy] in their order, each gone through
    the methods; two arrays were allocated and 2 or 3 calls a crop were
    made. *)
Theorem constructor_completes (img : ndarray) (path : string) (sz : Z)
    (cf io : PyFloat.float) (seg : bool) (sx sy ox oy : Z)
    (rr : bool) (st : store pixel) (m : Model) :
  1 <= sx <= n_cols img -> n_cols img <= INT_MAX ->
  1 <= sy <= n_rows img -> n_rows img <= INT_MAX ->
  0 <= ox < 100 -> 0 <= oy < 100 ->
  YOLO path = Ok m ->
  (forall m sz cf io seg st c d,
      exists d', calculate_inference m sz cf io seg st c d = Ok d') ->
  (forall st c d, exists d', calculate_real_values st c d = Ok d') ->
  (forall st c d, exists d', CropElement_resize_results st c d = Ok d') ->
  exists g cs self st' ev,
    make_grid (n_rows img) (n_cols img) sx sy ox oy = Ok g /\
    get_crops_xy interpolate bgr2rgb plt img sx sy ox oy false st
    = (Ok cs, st') /\
    __init__ interpolate bgr2rgb plt YOLO names no_detections
      calculate_inference calculate_real_values CropElement_resize_results
      img path sz cf io seg sx sy ox oy false rr st
    = (Ok self, st', ev) /\
    map fst (crops self) = cs /\
    Z.of_nat (List.length (crops self)) = x_steps g * y_steps g /\
    Forall2 (processed calculate_inference calculate_real_values
               CropElement_resize_results self st')
      (map (fun c => (c, no_detections)) cs) (crops self) /\
    ev = calls_on rr (crops self) /\
    List.length st' = S (S (List.length st)) /\
    model self = m /\ class_names_dict self = names m /\
    image self = img /\ imgsz self = sz /\ conf self = cf /\
    iou self = io /\ segment self = seg /\
    shape_x self = sx /\ shape_y self = sy /\
    overlap_x self = ox /\ overlap_y self = oy /\
    show_crops self = false /\ resize_results self = rr.
Proof.
  intros Hsx HW Hsy HH Hox Hoy Hm Hinf Hreal Hres. unfold INT_MAX in *.
  destruct (make_grid_valid (n_rows img) (n_cols img) sx sy ox oy
              Hsx HW Hsy HH Hox Hoy)
    as (g & Hg & Hnx & Hny & Hxn & Hyn & Hxs & Hys).
  assert (Hfit : cells_fit (canvas_of pixel g st) sx sy g).
  { split.
    - intros j Hj. destruct (Hxs j Hj) as (xs & E & _ & F). eauto.
    - intros i Hi. destruct (Hys i Hi) as (ys & E & _ & F). eauto. }
  assert (Hcall : get_crops_xy interpolate bgr2rgb plt img
                    sx sy ox oy false st =
                  (Ok (all_cells (copy_of pixel img st)
                         (canvas_of pixel g st) sx sy g),
                   store_after pixel interpolate img g st)).
  { rewrite (get_crops_xy_eq pixel interpolate bgr2rgb plt img st
               sx sy ox oy g Hg)
      by (unfold INT_MAX; lia).
    rewrite (tile_loop_full _ _ sx sy g Hfit) by lia. reflexivity. }
  set (cs := all_cells _ _ sx sy g) in *.
  set (st1 := store_after pixel interpolate img g st) in *.
  unfold __init__. rewrite Hm, Hcall.
  match goal with
  | |- context [_detect_objects _ _ _ ?s st1] => set (self := s)
  end.
  destruct (detect_loop_completes pixel Model ClassNames Detections
              calculate_inference calculate_real_values
              CropElement_resize_results Hinf Hreal Hres
              self st1 (crops self)) as (cs' & ev & Hl).
  assert (Hd : _detect_objects calculate_inference calculate_real_values
                 CropElement_resize_results self st1
               = (set_crops self cs', ev, None))
    by (unfold _detect_objects; rewrite Hl; reflexivity).
  rewrite Hd.
  destruct (detect_loop_spec pixel Model ClassNames Detections
              calculate_inference calculate_real_values
              CropElement_resize_results self st1 (crops self) cs' ev None
              Hl) as [_ Hok].
  destruct (Hok eq_refl) as [Hp _].
  destruct (detect_loop_trace pixel Model ClassNames Detections
              calculate_inference calculate_real_values
              CropElement_resize_results self st1 (crops self) cs' ev None
              Hl) as (Hfst & pre & post & part & Hpre & Hev & -> & ->).
  rewrite !app_nil_r in *.
  exists g, cs, (set_crops self cs'), st1, ev.
  split; [exact Hg|]. split; [reflexivity|]. split; [reflexivity|].
  cbn [crops set_crops].
  assert (Hcs : map fst cs' = cs).
  { rewrite Hfst. cbn [crops self]. rewrite map_map. cbn [fst].
    apply map_id. }
  split; [exact Hcs|]. split.
  { transitivity (Z.of_nat (List.length (map fst cs')));
      [rewrite length_map; reflexivity|].
    rewrite Hcs. unfold cs. apply all_cells_length; lia. }
  split; [exact Hp|]. split.
  { rewrite Hev, <- Hpre. cbn [resize_results self].
    apply calls_on_fst. symmetry. exact Hfst. }
  split; [apply store_after_length|].
  cbn. auto 20.
Qed.

End Completion.

(** ** The whole-run properties on small inputs *)

Section RunExamples.

Lemma detection_trace_witness :
  let self := toy_self (whole 2 6) 2 2 0 0 true (blank 2 6) in
  exists pre post part,
    crops self = pre ++ post /\
    [Inference 1; RealValues 1; ResizeResults 1; Inference 2]
    = calls_on (resize_results self) pre ++ part /\
    exists c post',
      post = c :: post' /\ part <> [] /\
      exists tl,
        calls_of (resize_results self) (number_of_crop (fst c))
        = part ++ tl.
Proof.
  intros self.
  apply (detection_trace Z unit unit (list Z)
           (toy_inference 2) toy_real_values toy_resize self
           (set_crops self
              [toy_crop 1 [1; 2; 3]; toy_crop 2 []; toy_crop 3 []])
           (toy_store (whole 2 6) 2 2 0 0 (blank 2 6))
           [Inference 1; RealValues 1; ResizeResults 1; Inference 2]
           (Some (External 2))).
  vm_compute. reflexivity.
Defined.

Lemma detection_keeps_crops_witness :
  let self := toy_self (whole 2 6) 2 2 0 0 true (blank 2 6) in
  let self' :=
    set_crops self [toy_crop 1 [1; 2; 3]; toy_crop 2 []; toy_crop 3 []] in
  self' = set_crops self (crops self') /\
  map fst (crops self') = map fst (crops self) /\
  List.length (crops self') = List.length (crops self).
Proof.
  intros self self'.
  apply (detection_keeps_crops Z unit unit (list Z)
           (toy_inference 2) toy_real_values toy_resize self self'
           (toy_store (whole 2 6) 2 2 0 0 (blank 2 6))
           [Inference 1; RealValues 1; ResizeResults 1; Inference 2]
           (Some (External 2))).
  vm_compute. reflexivity.
Defined.

Lemma records_numbered_witness :
  let cs := crops_of (get_crops_xy nearest toy_bgr2rgb toy_plt
                        (whole 100 100) 500 500 150 150 true
                        (blank 100 100)) in
  map number_of_crop cs
  = map (fun n => n + 1) (range (Z.of_nat (List.length cs))) /\
  exists g,
    make_grid 100 100 500 500 150 150 = Ok g /\
    Z.of_nat (List.length cs)
    <= Z.max 0 (x_steps g) * Z.max 0 (y_steps g).
Proof.
  intros cs.
  apply (records_numbered Z nearest toy_bgr2rgb toy_plt
           (whole 100 100) (blank 100 100)
           (snd (get_crops_xy nearest toy_bgr2rgb toy_plt (whole 100 100)
                   500 500 150 150 true (blank 100 100)))
           500 500 150 150 true cs).
  vm_compute. reflexivity.
Defined.

Lemma get_crops_xy_outcomes_witness :
  let call := get_crops_xy nearest toy_bgr2rgb toy_plt (whole 4 4)
                2 2 50 50 true (blank 4 4) in
  exists b1 b2 shown,
    snd call = blank 4 4 ++ [b1; b2] ++ shown /\
    b_rows b1 = 4 /\ b_cols b1 = 4 /\
    Z.of_nat (List.length shown)
    = 2 * Z.of_nat (List.length (crops_of call)) /\
    Forall (fun c => n_rows (source_image_resized c) = b_rows b2 /\
                     n_cols (source_image_resized c) = b_cols b2)
           (crops_of call) /\
    get_crops_xy nearest toy_bgr2rgb toy_plt (whole 4 4)
      2 2 50 50 false (blank 4 4)
    = (Ok (crops_of call), blank 4 4 ++ [b1; b2]).
Proof.
  intros call.
  apply (get_crops_xy_outcomes Z nearest toy_bgr2rgb toy_plt
           (whole 4 4) (blank 4 4) (snd call)
           2 2 50 50 true (Ok (crops_of call))).
  vm_compute. reflexivity.
Defined.

Lemma record_of_cell_witness :
  exists g cs st',
    make_grid 4 4 2 2 50 50 = Ok g /\
    get_crops_xy nearest toy_bgr2rgb toy_plt (whole 4 4)
      2 2 50 50 false (blank 4 4)
    = (Ok cs, st') /\
    (forall show cs' st'',
        get_crops_xy nearest toy_bgr2rgb toy_plt (whole 4 4)
          2 2 50 50 show (blank 4 4)
        = (Ok cs', st'') -> cs' = cs) /\
    forall i j, 0 <= i < y_steps g -> 0 <= j < x_steps g ->
      exists c,
        nth_error cs (Z.to_nat (i * x_steps g + j)) = Some c /\
        number_of_crop c = i * x_steps g + j + 1 /\
        start 2 j (cross_koef_x g) = Ok (x_start c) /\
        start 2 i (cross_koef_y g) = Ok (y_start c).
Proof.
  apply (record_of_cell Z nearest toy_bgr2rgb toy_plt
           (whole 4 4) (blank 4 4) 2 2 50 50);
    cbn; unfold INT_MAX; lia.
Defined.

(** The display on an image without colour channels: the call returns
    without [show], and with it raises the error of [cv2.cvtColor] on
    the first crop, after the copy of the crop is allocated. *)
Lemma display_refused :
  exists cs st1 b1 b2 b3,
    get_crops_xy nearest gray_bgr2rgb toy_plt (whole 4 4)
      2 2 50 50 false (blank 4 4)
    = (Ok cs, st1) /\
    List.length cs = 9%nat /\
    get_crops_xy nearest gray_bgr2rgb toy_plt (whole 4 4)
      2 2 50 50 true (blank 4 4)
    = (Raise cv2_error, blank 4 4 ++ [b1; b2; b3]).
Proof.
  do 5 eexists. split; [vm_compute; reflexivity|].
  split; [reflexivity|]. vm_compute. reflexivity.
Qed.

Lemma constructor_errors_witness :
  let st' := snd (get_crops_xy nearest gray_bgr2rgb toy_plt (whole 4 4)
                    2 2 50 50 true (blank 4 4)) in
  let ev : list event := [] in
  (toy_YOLO "yolov8m.pt" = Raise cv2_error /\
   st' = blank 4 4 /\ ev = []) \/
  (get_crops_xy nearest gray_bgr2rgb toy_plt (whole 4 4)
     2 2 50 50 true (blank 4 4)
   = (Raise cv2_error, st') /\
   (arithmetic_error cv2_error \/ cv2_error = cv2_error \/
    (true = true /\ pyplot_raises toy_plt cv2_error)) /\
   ev = []) \/
  (exists m cs c d,
     toy_YOLO "yolov8m.pt" = Ok m /\
     get_crops_xy nearest gray_bgr2rgb toy_plt (whole 4 4)
       2 2 50 50 true (blank 4 4)
     = (Ok cs, st') /\
     In c cs /\ ev <> [] /\
     (toy_inference 2 m 640 conf_default iou_default false st' c d
      = Raise cv2_error \/
      toy_real_values st' c d = Raise cv2_error \/
      (true = true /\ toy_resize st' c d = Raise cv2_error))).
Proof.
  intros st' ev.
  apply (constructor_errors Z nearest gray_bgr2rgb toy_plt
           unit unit toy_YOLO toy_names
           (list Z) [] (toy_inference 2) toy_real_values toy_resize
           (whole 4 4) "yolov8m.pt" 640 conf_default iou_default false
           2 2 50 50 true true (blank 4 4) st' ev cv2_error).
  vm_compute. reflexivity.
Defined.

Lemma constructor_completes_witness :
  exists g cs self st' ev,
    make_grid 4 4 2 2 50 50 = Ok g /\
    get_crops_xy nearest toy_bgr2rgb toy_plt (whole 4 4)
      2 2 50 50 false (blank 4 4)
    = (Ok cs, st') /\
    __init__ nearest toy_bgr2rgb toy_plt toy_YOLO toy_names ([] : list Z)
      toy_inference_ok toy_real_values toy_resize
      (whole 4 4) "yolov8m.pt" 640 conf_default iou_default false
      2 2 50 50 false true (blank 4 4)
    = (Ok self, st', ev) /\
    map fst (crops self) = cs /\
    Z.of_nat (List.length (crops self)) = x_steps g * y_steps g /\
    Forall2 (processed toy_inference_ok toy_real_values toy_resize self st')
      (map (fun c => (c, [])) cs) (crops self) /\
    ev = calls_on true (crops self) /\
    List.length st' = S (S (List.length (blank 4 4))) /\
    model self = tt /\ class_names_dict self = toy_names tt /\
    image self = whole 4 4 /\ imgsz self = 640 /\
    conf self = conf_default /\ iou self = iou_default /\
    segment self = false /\
    shape_x self = 2 /\ shape_y self = 2 /\
    overlap_x self = 50 /\ overlap_y self = 50 /\
    show_crops self = false /\ resize_results self = true.
Proof.
  apply (constructor_completes Z nearest toy_bgr2rgb toy_plt
           unit unit toy_YOLO toy_names
           (list Z) [] toy_inference_ok toy_real_values toy_resize
           (whole 4 4) "yolov8m.pt" 640 conf_default iou_default false
           2 2 50 50 true (blank 4 4) tt);
    try (cbn; unfold INT_MAX; lia); try reflexivity;
    intros; eexists; reflexivity.
Defined.

End RunExamples.

(** ** The tiles cover the canvas *)

Section Cover.

(** Intervals of length [len] that start at 0 and follow one another
    without a gap cover every point up to the end of the last. *)
Lemma cover_1d (f : Z -> Z) (len n : Z) :
  1 <= n -> f 0 = 0 ->
  (forall j, 0 <= j -> j + 1 < n -> f j <= f (j + 1) <= f j + len) ->
  forall p, 0 <= p < f (n - 1) + len ->
            exists j, 0 <= j < n /\ f j <= p < f j + len.
Proof.
  intros Hn H0. replace n with (n - 1 + 1) by lia.
  assert (Hm : 0 <= n - 1) by lia. revert Hm.
  generalize (n - 1). clear n Hn. intros m Hm.
  pattern m. apply natlike_ind; [| |exact Hm].
  - intros _ p Hp. exists 0. cbn in Hp. lia.
  - intros k Hk IH Hstep p Hp.
    replace (Z.succ k + 1 - 1) with (k + 1) in Hp by lia.
    replace (k + 1 - 1) with k in IH by lia.
    destruct (Z_lt_le_dec p (f k + len)) as [Hlt | Hge].
    + destruct (IH ltac:(intros j Hj0 Hj1; apply Hstep; lia) p
                  ltac:(lia)) as (j & Hj & Hin).
      exists j. split; [lia|exact Hin].
    + pose proof (Hstep k Hk ltac:(lia)) as Hs.
      exists (k + 1). split; lia.
Qed.

Lemma start_of_eq (shape idx v : Z) (c : spec_float) :
  start shape idx c = Ok v -> start_of shape idx c = v.
Proof. intros H. unfold start_of. rewrite H. reflexivity. Qed.

(** The grid of a valid call, with the way its tiles follow one
    another. *)
Lemma make_grid_cover (H W sx sy ox oy : Z) :
  1 <= sx <= W -> W <= 2147483647 ->
  1 <= sy <= H -> H <= 2147483647 ->
  0 <= ox < 100 -> 0 <= oy < 100 ->
  exists g,
    make_grid H W sx sy ox oy = Ok g /\
    1 <= x_steps g /\ 1 <= y_steps g /\
    sx <= x_new g <= W /\ sy <= y_new g <= H /\
    start sx 0 (cross_koef_x g) = Ok 0 /\
    start sy 0 (cross_koef_y g) = Ok 0 /\
    (forall j, 0 <= j < x_steps g ->
       exists a, start sx j (cross_koef_x g) = Ok a /\
                 0 <= a /\ a + sx <= x_new g) /\
    (forall i, 0 <= i < y_steps g ->
       exists a, start sy i (cross_koef_y g) = Ok a /\
                 0 <= a /\ a + sy <= y_new g) /\
    (forall j a b, 0 <= j -> j + 1 < x_steps g ->
       start sx j (cross_koef_x g) = Ok a ->
       start sx (j + 1) (cross_koef_x g) = Ok b -> a <= b <= a + sx) /\
    (forall i a b, 0 <= i -> i + 1 < y_steps g ->
       start sy i (cross_koef_y g) = Ok a ->
       start sy (i + 1) (cross_koef_y g) = Ok b -> a <= b <= a + sy) /\
    (forall z, start sx (x_steps g - 1) (cross_koef_x g) = Ok z ->
               x_new g - 1 <= z + sx <= x_new g) /\
    (forall z, start sy (y_steps g - 1) (cross_koef_y g) = Ok z ->
               y_new g - 1 <= z + sy <= y_new g).
Proof.
  intros Hsx HW Hsy HH Hox Hoy.
  destruct (cross_koef_valid ox Hox) as (cx & Ecx & Fcx & Bcx).
  destruct (cross_koef_valid oy Hoy) as (cy & Ecy & Fcy & Bcy).
  destruct (axis_cover W sx cx Fcx Bcx Hsx HW (cross_koef_gap ox cx Hox Ecx))
    as (nx & xn & Enx & Hnx & Exn & Hxn & X0 & Xall & Xnext & Xlast).
  destruct (axis_cover H sy cy Fcy Bcy Hsy HH (cross_koef_gap oy cy Hoy Ecy))
    as (ny & yn & Eny & Hny & Eyn & Hyn & Y0 & Yall & Ynext & Ylast).
  eexists. split.
  - apply (make_grid_intro H W sx sy ox oy cx cy ny nx yn xn);
      assumption.
  - cbn [cross_koef_x cross_koef_y x_steps y_steps x_new y_new].
    auto 14.
Qed.

End Cover.

Section Covering.

Variable pixel : Type.
Variable interpolate :
  (Z -> Z -> option pixel) -> Z -> Z -> Z -> Z -> Z -> Z -> option pixel.
Variable bgr2rgb :
  (Z -> Z -> option pixel) -> Z -> Z -> option (Z -> Z -> option pixel).
Variable plt : pyplot pixel.

(** X4. For a valid configuration and an image at least one tile in each
    dimension, the crops cover the resized image but, at most, its last
    row and its last column: every pixel ([r], [c]) with [r < y_new - 1]
    and [c < x_new - 1] lies in the crop of some record. The records are
    those of the call without display, and of every call with display
    that returns. *)
Theorem tiles_cover_canvas (img : ndarray) (st : store pixel)
    (sx sy ox oy : Z) :
  1 <= sx <= n_cols img -> n_cols img <= INT_MAX ->
  1 <= sy <= n_rows img -> n_rows img <= INT_MAX ->
  0 <= ox < 100 -> 0 <= oy < 100 ->
  exists g cs st',
    make_grid (n_rows img) (n_cols img) sx sy ox oy = Ok g /\
    get_crops_xy interpolate bgr2rgb plt img sx sy ox oy false st
    = (Ok cs, st') /\
    (forall show cs' st'',
        get_crops_xy interpolate bgr2rgb plt img sx sy ox oy show st
        = (Ok cs', st'') -> cs' = cs) /\
    forall r c, 0 <= r < y_new g - 1 -> 0 <= c < x_new g - 1 ->
      exists t, In t cs /\
                n_rows (source_image_resized t) = y_new g /\
                n_cols (source_image_resized t) = x_new g /\
                y_start t <= r < y_start t + sy /\
                x_start t <= c < x_start t + sx.
Proof.
  intros Hsx HW Hsy HH Hox Hoy. unfold INT_MAX in *.
  destruct (make_grid_cover (n_rows img) (n_cols img) sx sy ox oy
              Hsx HW Hsy HH Hox Hoy)
    as (g & Hg & Hnx & Hny & Hxn & Hyn & X0 & Y0 & Xall & Yall & Xnext
        & Ynext & Xlast & Ylast).
  assert (Hfit : cells_fit (canvas_of pixel g st) sx sy g).
  { split.
    - intros j Hj. destruct (Xall j Hj) as (xs & E & _ & F). eauto.
    - intros i Hi. destruct (Yall i Hi) as (ys & E & _ & F). eauto. }
  destruct (Xall (x_steps g - 1) ltac:(lia)) as (xl & Exl & _ & Hxl).
  destruct (Yall (y_steps g - 1) ltac:(lia)) as (yl & Eyl & _ & Hyl).
  pose proof (Xlast xl Exl) as Mx. pose proof (Ylast yl Eyl) as My.
  destruct (get_crops_xy_full pixel interpolate bgr2rgb plt img st
              sx sy ox oy g Hg ltac:(lia) ltac:(lia)
              ltac:(unfold INT_MAX; lia) ltac:(unfold INT_MAX; lia)
              ltac:(lia) ltac:(lia) Hfit) as [Hcall Hshown].
  exists g. eexists. eexists. split; [exact Hg|].
  split; [exact Hcall|]. split; [exact Hshown|].
  - intros r c Hr Hc.
    destruct (cover_1d (fun j => start_of sx j (cross_koef_x g)) sx
                (x_steps g) Hnx (start_of_eq _ _ _ _ X0)) with (p := c)
      as (j & Hj & Hcj).
    { intros j Hj0 Hj1.
      destruct (Xall j ltac:(lia)) as (a & Ea & _).
      destruct (Xall (j + 1) ltac:(lia)) as (b & Eb & _).
      rewrite (start_of_eq _ _ _ _ Ea), (start_of_eq _ _ _ _ Eb).
      exact (Xnext j a b Hj0 Hj1 Ea Eb). }
    { rewrite (start_of_eq _ _ _ _ Exl). lia. }
    destruct (cover_1d (fun i => start_of sy i (cross_koef_y g)) sy
                (y_steps g) Hny (start_of_eq _ _ _ _ Y0)) with (p := r)
      as (i & Hi & Hri).
    { intros i Hi0 Hi1.
      destruct (Yall i ltac:(lia)) as (a & Ea & _).
      destruct (Yall (i + 1) ltac:(lia)) as (b & Eb & _).
      rewrite (start_of_eq _ _ _ _ Ea), (start_of_eq _ _ _ _ Eb).
      exact (Ynext i a b Hi0 Hi1 Ea Eb). }
    { rewrite (start_of_eq _ _ _ _ Eyl). lia. }
    eexists. split.
    + eapply nth_error_In. apply (all_cells_nth _ _ sx sy g i j Hi Hj).
    + unfold crop_at.
      cbn [source_image_resized x_start y_start canvas_of n_rows n_cols].
      auto.
Qed.

(** X5. How the tiles follow one another, for a valid configuration and
    an image at least one tile in each dimension, in the list that the
    call without display returns, and every call with display that
    returns: the first tile is at (0, 0); from a column to the next [x_start] does
    not decrease and grows by [shape_x] at most, so that two neighbours
    touch or overlap, and likewise [y_start] from a row to the next; and
    the tiles of the last column end on the last column of the resized
    image or on the one before it, likewise for the last row. *)
Theorem tiles_follow (img : ndarray) (st : store pixel)
    (sx sy ox oy : Z) :
  1 <= sx <= n_cols img -> n_cols img <= INT_MAX ->
  1 <= sy <= n_rows img -> n_rows img <= INT_MAX ->
  0 <= ox < 100 -> 0 <= oy < 100 ->
  exists g cs st',
    make_grid (n_rows img) (n_cols img) sx sy ox oy = Ok g /\
    get_crops_xy interpolate bgr2rgb plt img sx sy ox oy false st
    = (Ok cs, st') /\
    (forall show cs' st'',
        get_crops_xy interpolate bgr2rgb plt img sx sy ox oy show st
        = (Ok cs', st'') -> cs' = cs) /\
    forall i j t,
      0 <= i < y_steps g -> 0 <= j < x_steps g ->
      nth_error cs (Z.to_nat (i * x_steps g + j)) = Some t ->
      (i = 0 -> y_start t = 0) /\ (j = 0 -> x_start t = 0) /\
      (j = x_steps g - 1 -> x_new g - 1 <= x_start t + sx <= x_new g) /\
      (i = y_steps g - 1 -> y_new g - 1 <= y_start t + sy <= y_new g) /\
      (forall t', j + 1 < x_steps g ->
         nth_error cs (Z.to_nat (i * x_steps g + (j + 1))) = Some t' ->
         y_start t' = y_start t /\
         x_start t <= x_start t' <= x_start t + sx) /\
      (forall t', i + 1 < y_steps g ->
         nth_error cs (Z.to_nat ((i + 1) * x_steps g + j)) = Some t' ->
         x_start t' = x_start t /\
         y_start t <= y_start t' <= y_start t + sy).
Proof.
  intros Hsx HW Hsy HH Hox Hoy. unfold INT_MAX in *.
  destruct (make_grid_cover (n_rows img) (n_cols img) sx sy ox oy
              Hsx HW Hsy HH Hox Hoy)
    as (g & Hg & Hnx & Hny & Hxn & Hyn & X0 & Y0 & Xall & Yall & Xnext
        & Ynext & Xlast & Ylast).
  assert (Hfit : cells_fit (canvas_of pixel g st) sx sy g).
  { split.
    - intros j Hj. destruct (Xall j Hj) as (xs & E & _ & F). eauto.
    - intros i Hi. destruct (Yall i Hi) as (ys & E & _ & F). eauto. }
  destruct (get_crops_xy_full pixel interpolate bgr2rgb plt img st
              sx sy ox oy g Hg ltac:(lia) ltac:(lia)
              ltac:(unfold INT_MAX; lia) ltac:(unfold INT_MAX; lia)
              ltac:(lia) ltac:(lia) Hfit) as [Hcall Hshown].
  exists g. eexists. eexists. split; [exact Hg|].
  split; [exact Hcall|]. split; [exact Hshown|].
  - intros i j t Hi Hj Ht.
    rewrite (all_cells_nth _ _ sx sy g i j Hi Hj) in Ht.
    injection Ht as <-. unfold crop_at. cbn [x_start y_start].
    destruct (Xall j Hj) as (a & Ea & _).
    destruct (Yall i Hi) as (b & Eb & _).
    rewrite (start_of_eq _ _ _ _ Ea), (start_of_eq _ _ _ _ Eb).
    split; [intros ->; congruence|]. split; [intros ->; congruence|].
    split; [intros ->; exact (Xlast a Ea)|].
    split; [intros ->; exact (Ylast b Eb)|]. split.
    + intros t' Hj1 Ht'.
      rewrite (all_cells_nth _ _ sx sy g i (j + 1) Hi ltac:(lia)) in Ht'.
      injection Ht' as <-. unfold crop_at. cbn [x_start y_start].
      destruct (Xall (j + 1) ltac:(lia)) as (a' & Ea' & _).
      rewrite (start_of_eq _ _ _ _ Ea'), (start_of_eq _ _ _ _ Eb).
      split; [reflexivity|]. exact (Xnext j a a' ltac:(lia) Hj1 Ea Ea').
    + intros t' Hi1 Ht'.
      rewrite (all_cells_nth _ _ sx sy g (i + 1) j ltac:(lia) Hj) in Ht'.
      injection Ht' as <-. unfold crop_at. cbn [x_start y_start].
      destruct (Yall (i + 1) ltac:(lia)) as (b' & Eb' & _).
      rewrite (start_of_eq _ _ _ _ Eb'), (start_of_eq _ _ _ _ Ea).
      split; [reflexivity|]. exact (Ynext i b b' ltac:(lia) Hi1 Eb Eb').
Qed.

End Covering.

(** ** An image smaller than the tile *)

Section SmallAxis.

Local Open Scope R_scope.

Lemma of_int_neg (n : Z) :
  (- 2 ^ 53 < n < 0)%Z ->
  exists x, PyFloat.of_int n = Ok x /\ fin true x /\ mag x = IZR (- n).
Proof.
  intros Hn. destruct n as [|p|p]; try lia.
  unfold PyFloat.of_int, PyFloat.prec, PyFloat.emax. cbn [binary_normalize].
  destruct (binary_round_int true p ltac:(lia)) as [Hf Hv].
  destruct Hf as (m & e & Hx & Hm & He).
  rewrite Hx in *. exists (S754_finite true m e).
  split; [reflexivity|]. split; [|exact Hv].
  exists m, e. auto.
Qed.

Variables (dim shape : Z) (c : spec_float).
Hypothesis Hc : fin false c.
Hypothesis HC : / 128 <= mag c <= 1.
Hypothesis Hdim : (1 <= dim < shape)%Z.
Hypothesis Hshape : (shape <= 2147483647)%Z.

(** [int((dim - shape) / (shape * cross_koef)) + 1] when [dim - shape]
    is negative: the quotient is negative, so at most one step is left;
    with the multiplier 1.0 the quotient is above -1 and there is one
    step. *)
Lemma small_steps :
  exists n, steps dim shape c = Ok n /\ (n <= 1)%Z /\
            (c = one -> n = 1%Z).
Proof.
  pose proof u_bounds as Hu.
  assert (HS : 2 <= IZR shape <= 2147483647)
    by (split; apply IZR_le; lia).
  assert (HD : 1 <= IZR (shape - dim) <= IZR shape - 1).
  { split; [apply IZR_le; lia|].
    rewrite <- (minus_IZR shape 1). apply IZR_le. lia. }
  destruct (stride_ok shape shape c Hc HC ltac:(lia) Hshape)
    as (s & Hs & Hsf & Hsb).
  assert (Hr : / 256 <= mag s <= 4294967296).
  { split.
    - apply Rle_trans with (2 := proj1 Hsb).
      apply Rle_trans with (1 * / 128 * (1 - u)); [lra|].
      apply Rmult_le_compat_r; [lra|].
      apply Rmult_le_compat; lra.
    - apply Rle_trans with (1 := proj2 Hsb).
      apply Rle_trans with (2147483647 * 1 * (1 + u)); [|lra].
      apply Rmult_le_compat_r; [lra|].
      apply Rmult_le_compat; lra. }
  unfold steps. rewrite Hs. cbn [bind]. unfold PyFloat.int_div.
  destruct (of_int_neg (dim - shape) ltac:(lia)) as (x & Hx & Hxf & Hxv).
  replace (- (dim - shape))%Z with (shape - dim)%Z in Hxv by lia.
  rewrite Hx. cbn [bind]. unfold PyFloat.div.
  replace (PyFloat.is_zero s) with false
    by (destruct Hsf as (m & e & -> & _); reflexivity).
  cbn [bind]. unfold PyFloat.prec, PyFloat.emax.
  assert (Hq : / big <= mag x / mag s <= big).
  { rewrite Hxv. unfold big. split.
    - apply Rmult_le_reg_r with (mag s); [lra|].
      replace (IZR (shape - dim) / mag s * mag s)
        with (IZR (shape - dim)) by (field; lra). nra.
    - apply Rmult_le_reg_r with (mag s); [lra|].
      replace (IZR (shape - dim) / mag s * mag s)
        with (IZR (shape - dim)) by (field; lra). nra. }
  destruct (div_rel true false x s Hxf Hsf Hq) as [Hqf [_ Hqb]].
  cbn [xorb] in Hqf. destruct Hqf as (m & e & Eq & _).
  rewrite Eq in *.
  destruct (to_int_pos m e) as (z & Hz & Hz0 & Hz1 & Hz2).
  cbn [PyFloat.to_int cond_Zopp] in Hz |- *. injection Hz as Hz.
  rewrite Hz. cbn [bind Z.opp].
  exists (- z + 1)%Z. split; [reflexivity|]. split; [lia|].
  intros Ec.
  assert (Es : mag s = IZR shape).
  { destruct (of_int_pos shape ltac:(lia)) as (y & Hy & Hyf & Hyv).
    unfold PyFloat.int_mul in Hs. rewrite Hy in Hs. cbn [bind] in Hs.
    rewrite Ec, (mul_one false y Hyf) in Hs. injection Hs as <-.
    exact Hyv. }
  rewrite Hxv, Es in Hqb. cbn [mag] in Hz1, Hqb.
  assert (Hlt : IZR (shape - dim) / IZR shape * (1 + u) < 1).
  { apply Rle_lt_trans
      with ((IZR shape - 1) / IZR shape * (1 + u)).
    - apply Rmult_le_compat_r; [lra|].
      apply Rmult_le_compat_r; [|lra].
      apply Rlt_le. apply Rinv_0_lt_compat. lra.
    - apply Rmult_lt_reg_r with (IZR shape); [lra|].
      replace ((IZR shape - 1) / IZR shape * (1 + u) * IZR shape)
        with ((IZR shape - 1) * (1 + u)) by (field; lra).
      pose proof (mul_le_const u (IZR shape) (/ 1000000000000000)
                    2147483647 ltac:(lra) ltac:(lra) ltac:(lra)).
      lra. }
  assert (z < 1)%Z by (apply lt_IZR; lra). lia.
Qed.

End SmallAxis.

Section NoOverlap.

(** An axis without overlap: the integer quotient of the image by the
    tile, or one step for a smaller image; a canvas of that many tiles;
    origins at the multiples of the tile. *)
Lemma axis_one (dim shape : Z) :
  1 <= dim <= 2147483647 -> 1 <= shape <= 2147483647 ->
  steps dim shape one = Ok (Z.max 1 (dim / shape)) /\
  new_size (Z.max 1 (dim / shape)) shape one
  = Ok (Z.max 1 (dim / shape) * shape) /\
  forall j, 0 <= j < Z.max 1 (dim / shape) ->
            start shape j one = Ok (shape * j).
Proof.
  intros Hd Hs.
  assert (HC : (/ 128 <= mag one <= 1)%R) by (rewrite mag_one; lra).
  destruct (Z_lt_le_dec dim shape) as [Hlt | Hge].
  - rewrite Z.div_small by lia. change (Z.max 1 0) with 1.
    destruct (small_steps dim shape one fin_one HC ltac:(lia) ltac:(lia))
      as (n & Hn & _ & H1).
    rewrite (H1 eq_refl) in Hn.
    destruct (first_tile shape shape one fin_one HC ltac:(lia) ltac:(lia))
      as [Hnew H0].
    split; [exact Hn|]. split; [rewrite Hnew; f_equal; lia|].
    intros j Hj. assert (j = 0) by lia. subst j.
    rewrite H0. f_equal. lia.
  - assert (Hq : 1 <= dim / shape)
      by (apply Z.div_le_lower_bound; lia).
    rewrite Z.max_r by lia.
    destruct (stride_ok dim shape one fin_one HC ltac:(lia) ltac:(lia))
      as (s & Es & Hsf & Hsb).
    destruct (steps_ok dim shape one HC ltac:(lia) ltac:(lia)
                s Es Hsf Hsb) as (k & Hk & Hk0 & Hkb).
    pose proof (steps_one dim shape one HC ltac:(lia) ltac:(lia)
                  s Es Hsf Hsb eq_refl) as H1.
    assert (Ek : dim / shape = k + 1) by congruence.
    split; [exact H1|]. rewrite Ek. split.
    + exact (new_size_one dim shape one HC ltac:(lia) ltac:(lia)
               s Es Hsf Hsb k Hk0 Hkb eq_refl).
    + intros j Hj.
      apply (start_one dim shape one HC ltac:(lia) ltac:(lia)
               s Hsb k Hk0 Hkb j eq_refl). lia.
Qed.

End NoOverlap.

Section NoOverlapTiles.

Variable pixel : Type.
Variable interpolate :
  (Z -> Z -> option pixel) -> Z -> Z -> Z -> Z -> Z -> Z -> option pixel.
Variable bgr2rgb :
  (Z -> Z -> option pixel) -> Z -> Z -> option (Z -> Z -> option pixel).
Variable plt : pyplot pixel.

(** X6. Without overlap, for every image that is not empty and every tile
    of at least one pixel (sides within the range of a C [int]), in the
    call without display and in every call with display that returns:
    along each axis the step count is the integer quotient of
    the image by the tile, or 1 when the image is smaller than the tile;
    the resized image is exactly that many tiles long, so that the
    remainder of the division is scaled away and a smaller image is
    enlarged to one tile; and the tile of row [i] and column [j] is at ([j
    * shape_x], [i * shape_y]): the tiles are disjoint and cover the
    resized image, and there is always at least one. *)
Theorem no_overlap_tiles (img : ndarray) (st : store pixel) (sx sy : Z) :
  1 <= n_cols img <= INT_MAX -> 1 <= n_rows img <= INT_MAX ->
  1 <= sx <= INT_MAX -> 1 <= sy <= INT_MAX ->
  exists g cs st',
    make_grid (n_rows img) (n_cols img) sx sy 0 0 = Ok g /\
    x_steps g = Z.max 1 (n_cols img / sx) /\
    y_steps g = Z.max 1 (n_rows img / sy) /\
    x_new g = x_steps g * sx /\ y_new g = y_steps g * sy /\
    get_crops_xy interpolate bgr2rgb plt img sx sy 0 0 false st
    = (Ok cs, st') /\
    (forall show cs' st'',
        get_crops_xy interpolate bgr2rgb plt img sx sy 0 0 show st
        = (Ok cs', st'') -> cs' = cs) /\
    Z.of_nat (List.length cs) = x_steps g * y_steps g /\
    forall i j, 0 <= i < y_steps g -> 0 <= j < x_steps g ->
      exists t,
        nth_error cs (Z.to_nat (i * x_steps g + j)) = Some t /\
        number_of_crop t = i * x_steps g + j + 1 /\
        x_start t = j * sx /\ y_start t = i * sy /\
        n_rows (crop t) = sy /\ n_cols (crop t) = sx /\
        n_rows (source_image_resized t) = y_new g /\
        n_cols (source_image_resized t) = x_new g.
Proof.
  intros HW HH Hsx Hsy. unfold INT_MAX in *.
  destruct (axis_one (n_cols img) sx HW Hsx) as (Ex & Enx & Hxs).
  destruct (axis_one (n_rows img) sy HH Hsy) as (Ey & Eny & Hys).
  set (nx := Z.max 1 (n_cols img / sx)) in *.
  set (ny := Z.max 1 (n_rows img / sy)) in *.
  assert (Hnx : 1 <= nx) by (unfold nx; lia).
  assert (Hny : 1 <= ny) by (unfold ny; lia).
  assert (Bx : nx * sx <= 2147483647).
  { unfold nx. destruct (Z_lt_le_dec (n_cols img) sx) as [Hlt | Hge].
    - rewrite Z.div_small by lia. change (Z.max 1 0) with 1. lia.
    - assert (1 <= n_cols img / sx)
        by (apply Z.div_le_lower_bound; lia).
      rewrite Z.max_r by lia.
      pose proof (Z.mul_div_le (n_cols img) sx ltac:(lia)). lia. }
  assert (By : ny * sy <= 2147483647).
  { unfold ny. destruct (Z_lt_le_dec (n_rows img) sy) as [Hlt | Hge].
    - rewrite Z.div_small by lia. change (Z.max 1 0) with 1. lia.
    - assert (1 <= n_rows img / sy)
        by (apply Z.div_le_lower_bound; lia).
      rewrite Z.max_r by lia.
      pose proof (Z.mul_div_le (n_rows img) sy ltac:(lia)). lia. }
  pose proof (make_grid_intro (n_rows img) (n_cols img) sx sy 0 0
                one one ny nx (ny * sy) (nx * sx)
                cross_koef_0 cross_koef_0 Ey Ex Eny Enx) as Hg.
  set (g := {| cross_koef_x := one; cross_koef_y := one;
               y_steps := ny; x_steps := nx;
               y_new := ny * sy; x_new := nx * sx |}) in *.
  assert (Hfit : cells_fit (canvas_of pixel g st) sx sy g).
  { split; cbn [x_steps y_steps cross_koef_x cross_koef_y g canvas_of
                n_rows n_cols x_new y_new].
    - intros j Hj. exists (sx * j). split; [exact (Hxs j Hj)|]. nia.
    - intros i Hi. exists (sy * i). split; [exact (Hys i Hi)|]. nia. }
  destruct (get_crops_xy_full pixel interpolate bgr2rgb plt img st
              sx sy 0 0 g Hg ltac:(lia) ltac:(lia)
              ltac:(cbn [x_new y_new g]; unfold INT_MAX; nia)
              ltac:(cbn [x_new y_new g]; unfold INT_MAX; nia)
              ltac:(cbn; lia) ltac:(cbn; lia) Hfit) as [Hcall Hshown].
  exists g. eexists. eexists.
  split; [exact Hg|]. do 4 (split; [reflexivity|]).
  split; [exact Hcall|]. split; [exact Hshown|].
  split; [apply all_cells_length; cbn; lia|].
  intros i j Hi Hj. cbn [x_steps y_steps g] in Hi, Hj.
  eexists. split; [apply all_cells_nth; assumption|].
  unfold crop_at.
  cbn [number_of_crop x_start y_start crop source_image_resized].
  cbn [cross_koef_x cross_koef_y g].
  rewrite (start_of_eq _ _ _ _ (Hxs j Hj)), (start_of_eq _ _ _ _ (Hys i Hi)).
  split; [reflexivity|]. split; [lia|]. split; [lia|].
  rewrite (view_inside (canvas_of pixel g st) (sy * i) (sx * j) sy sx)
    by (cbn [canvas_of n_rows n_cols x_new y_new g]; nia).
  cbn. auto.
Qed.

End NoOverlapTiles.

(** ** Coverage and the grid without overlap on small inputs *)

Section CoverExamples.

Lemma tiles_cover_canvas_witness :
  exists g cs st',
    make_grid 4 4 2 2 50 50 = Ok g /\
    get_crops_xy nearest toy_bgr2rgb toy_plt (whole 4 4)
      2 2 50 50 false (blank 4 4)
    = (Ok cs, st') /\
    (forall show cs' st'',
        get_crops_xy nearest toy_bgr2rgb toy_plt (whole 4 4)
          2 2 50 50 show (blank 4 4)
        = (Ok cs', st'') -> cs' = cs) /\
    forall r c, 0 <= r < y_new g - 1 -> 0 <= c < x_new g - 1 ->
      exists t, In t cs /\
                n_rows (source_image_resized t) = y_new g /\
                n_cols (source_image_resized t) = x_new g /\
                y_start t <= r < y_start t + 2 /\
                x_start t <= c < x_start t + 2.
Proof.
  apply (tiles_cover_canvas Z nearest toy_bgr2rgb toy_plt
           (whole 4 4) (blank 4 4) 2 2 50 50);
    cbn; unfold INT_MAX; lia.
Defined.

Lemma tiles_follow_witness :
  exists g cs st',
    make_grid 4 4 2 2 50 50 = Ok g /\
    get_crops_xy nearest toy_bgr2rgb toy_plt (whole 4 4)
      2 2 50 50 false (blank 4 4)
    = (Ok cs, st') /\
    (forall show cs' st'',
        get_crops_xy nearest toy_bgr2rgb toy_plt (whole 4 4)
          2 2 50 50 show (blank 4 4)
        = (Ok cs', st'') -> cs' = cs) /\
    forall i j t,
      0 <= i < y_steps g -> 0 <= j < x_steps g ->
      nth_error cs (Z.to_nat (i * x_steps g + j)) = Some t ->
      (i = 0 -> y_start t = 0) /\ (j = 0 -> x_start t = 0) /\
      (j = x_steps g - 1 -> x_new g - 1 <= x_start t + 2 <= x_new g) /\
      (i = y_steps g - 1 -> y_new g - 1 <= y_start t + 2 <= y_new g) /\
      (forall t', j + 1 < x_steps g ->
         nth_error cs (Z.to_nat (i * x_steps g + (j + 1))) = Some t' ->
         y_start t' = y_start t /\
         x_start t <= x_start t' <= x_start t + 2) /\
      (forall t', i + 1 < y_steps g ->
         nth_error cs (Z.to_nat ((i + 1) * x_steps g + j)) = Some t' ->
         x_start t' = x_start t /\
         y_start t <= y_start t' <= y_start t + 2).
Proof.
  apply (tiles_follow Z nearest toy_bgr2rgb toy_plt
           (whole 4 4) (blank 4 4) 2 2 50 50);
    cbn; unfold INT_MAX; lia.
Defined.

Lemma no_overlap_tiles_witness :
  exists g cs st',
    make_grid 5 7 2 3 0 0 = Ok g /\
    x_steps g = Z.max 1 (7 / 2) /\
    y_steps g = Z.max 1 (5 / 3) /\
    x_new g = x_steps g * 2 /\ y_new g = y_steps g * 3 /\
    get_crops_xy nearest toy_bgr2rgb toy_plt (whole 5 7)
      2 3 0 0 false (blank 5 7)
    = (Ok cs, st') /\
    (forall show cs' st'',
        get_crops_xy nearest toy_bgr2rgb toy_plt (whole 5 7)
          2 3 0 0 show (blank 5 7)
        = (Ok cs', st'') -> cs' = cs) /\
    Z.of_nat (List.length cs) = x_steps g * y_steps g /\
    forall i j, 0 <= i < y_steps g -> 0 <= j < x_steps g ->
      exists t,
        nth_error cs (Z.to_nat (i * x_steps g + j)) = Some t /\
        number_of_crop t = i * x_steps g + j + 1 /\
        x_start t = j * 2 /\ y_start t = i * 3 /\
        n_rows (crop t) = 3 /\ n_cols (crop t) = 2 /\
        n_rows (source_image_resized t) = y_new g /\
        n_cols (source_image_resized t) = x_new g.
Proof.
  apply (no_overlap_tiles Z nearest toy_bgr2rgb toy_plt
           (whole 5 7) (blank 5 7) 2 3);
    cbn; unfold INT_MAX; lia.
Defined.

End CoverExamples.
